(** * agentsdk-go: tool registry, session transcript, approval queue, workflow

    A shallow embedding of the parts of agentsdk-go that its specification
    makes claims about, and the proofs of those claims.

    - [Tool]: [pkg/tool] registry and default JSON-schema validator.
    - [Session]: [pkg/session] in-memory session.
    - [Approval]: the approval queue, record log and whitelist.
    - [Workflow]: graph, middleware pipeline and executor.

    Go maps are [gmap]s, slices are lists (a nil slice and an empty one are
    both [[]]), a nilable pointer or interface is an [option], an [error]
    result is [option error] with [None] for Go's [nil]. *)

From Stdlib Require Import ZArith SpecFloat Ascii String DecimalString
  DecimalPos DecimalN.
From stdpp Require Import gmap strings list fin_maps.

Set Warnings "-register-all".

Open Scope string_scope.
Open Scope list_scope.
Open Scope nat_scope.

(** ** Go standard library pieces shared by the packages *)

Module GoStrings.

(** A Go string is a sequence of bytes, read as UTF-8. *)
Definition bytes (l : list nat) : string :=
  string_of_list_ascii (ascii_of_nat <$> l).

(** The characters of [unicode.IsSpace], each as the bytes of its UTF-8
    encoding: tab, line feed, vertical tab, form feed, carriage return,
    space, U+0085, U+00A0, U+1680, U+2000 to U+200A, U+2028, U+2029, U+202F,
    U+205F and U+3000. *)
Definition spaces : list string :=
  (bytes <$> [[9]; [10]; [11]; [12]; [13]; [32]; [194; 133]; [194; 160];
              [225; 154; 128]])
  ++ ((fun b => bytes [226; 128; b]) <$> seq 128 11)
  ++ (bytes <$> [[226; 128; 168]; [226; 128; 169]; [226; 128; 175];
                 [226; 129; 159]; [227; 128; 128]]).

(** [s] without the prefix [p], when it has it. *)
Fixpoint dropPrefix (p s : string) : option string :=
  match p, s with
  | EmptyString, _ => Some s
  | String a p', String b s' => if decide (a = b) then dropPrefix p' s' else None
  | String _ _, EmptyString => None
  end.

(** [s] without the first of the prefixes [ps] that it has. *)
Fixpoint dropAny (ps : list string) (s : string) : option string :=
  match ps with
  | [] => None
  | p :: rest =>
      match dropPrefix p s with
      | Some s' => Some s'
      | None => dropAny rest s
      end
  end.

(** Drops prefixes among [ps] as long as there is one, [fuel] times at
    most. *)
Fixpoint trimPrefixes (fuel : nat) (ps : list string) (s : string) : string :=
  match fuel with
  | O => s
  | S fuel' =>
      match dropAny ps s with
      | Some s' => trimPrefixes fuel' ps s'
      | None => s
      end
  end.

(** The bytes of a string in the reverse order. *)
Definition reverseString (s : string) : string :=
  string_of_list_ascii (reverse (list_ascii_of_string s)).

(** [strings.TrimSpace]: the string without the white space at its start
    and at its end; the end is trimmed on the reversed string. *)
Definition TrimSpace (s : string) : string :=
  let left := trimPrefixes (String.length s) spaces s in
  reverseString
    (trimPrefixes (String.length left) (reverseString <$> spaces)
       (reverseString left)).

End GoStrings.

(** ** pkg/tool: registry and validator *)

Module Tool.

(** A Go [interface{}] value, by dynamic type. *)
Inductive GoValue : Type :=
| VNil                                 (* untyped nil *)
| VString (s : string)                 (* string *)
| VBool (b : bool)                     (* bool *)
| VInt (z : Z)                         (* int, int8, int16, int32, int64 *)
| VUint (n : N)                        (* uint, uint8, uint16, uint32, uint64 *)
| VFloat32 (f : spec_float)            (* float32 *)
| VFloat64 (f : spec_float)            (* float64 *)
| VNumber (s : string)                 (* json.Number *)
| VMap (m : gmap string GoValue)       (* map[string]interface{} *)
| VSlice (l : list GoValue)            (* []interface{} *)
| VSchemaPtr (schemaType : string)     (* non-nil *JSONSchema; only Type is read *)
| VOther (goType : string).            (* any other dynamic type *)

(** [type JSONSchema struct] *)
Record JSONSchema := {
  Type_ : string;
  Properties : gmap string GoValue;
  Required : list string;
}.

(** The values of Go's [error] interface that the package builds, by the
    format string of their [fmt.Errorf]. *)
Inductive error : Type :=
| ErrToolNil                                   (* "tool is nil" *)
| ErrToolNameEmpty                             (* "tool name is empty" *)
| ErrAlreadyRegistered (name : string)         (* "tool %s already registered" *)
| ErrNotFound (name : string)                  (* "tool %s not found" *)
| ErrValidationFailed (name : string) (cause : error)
                                               (* "tool %s validation failed: %w" *)
| ErrMissingRequired (field : string)          (* "missing required field: %s" *)
| ErrField (key : string) (cause : error)      (* "field %s: %w" *)
| ErrUnsupportedType (expected : string)       (* "unsupported schema type %q" *)
| ErrExpected (expected : string) (got : GoValue)
                                               (* "expected %s but got %T" *)
| ErrOther (msg : string).                     (* an error made elsewhere *)

(** [type ToolResult struct] *)
Record ToolResult := {
  Success : bool;
  Output : string;
  Data : GoValue;
  Error : option error;
}.

Abbreviation Params := (option (gmap string GoValue)).

(** [math.Trunc(v) == v] on a float: true on zeros, infinities and the
    finite floats [m * 2^e] that are whole numbers, false on NaN. *)
Definition truncIsSelf (f : spec_float) : bool :=
  match f with
  | S754_zero _ => true
  | S754_infinity _ => true
  | S754_nan => false
  | S754_finite _ m e =>
      if (0 <=? e)%Z then true
      else (Z.pos m mod 2 ^ (- e) =? 0)%Z
  end.

Section Validator.

(** The order in which Go's [range] visits a map is not specified; it is a
    parameter, known only to visit every entry once. *)
Variable range : gmap string GoValue -> list (string * GoValue).
Hypothesis range_perm : forall m, range m ≡ₚ map_to_list m.

(** [json.Number.Float64] and [json.Number.Int64] succeed: Go's [strconv]
    parsers, taken as parameters. *)
Variable parsesFloat64 : string -> bool.
Variable parsesInt64 : string -> bool.

(** [func extractExpectedType(definition interface{}) string] *)
Definition extractExpectedType (definition : GoValue) : string :=
  match definition with
  | VMap def =>
      match def !! "type" with
      | Some (VString value) => value
      | _ => ""
      end
  | VSchemaPtr ty => ty
  | _ => ""
  end.

(** [func isNumber(value interface{}) bool] *)
Definition isNumber (value : GoValue) : bool :=
  match value with
  | VFloat32 _ | VFloat64 _ => true
  | VInt _ => true
  | VUint _ => true
  | VNumber v => parsesFloat64 v
  | _ => false
  end.

(** [func isInteger(value interface{}) bool] *)
Definition isInteger (value : GoValue) : bool :=
  match value with
  | VInt _ => true
  | VUint _ => true
  | VFloat32 v => truncIsSelf v
  | VFloat64 v => truncIsSelf v
  | VNumber v => parsesInt64 v
  | _ => false
  end.

(** [func validateType(value interface{}, expected string) error] *)
Definition validateType (value : GoValue) (expected : string) : option error :=
  let mismatch := Some (ErrExpected expected value) in
  if decide (expected = "string") then
    match value with VString _ => None | _ => mismatch end
  else if decide (expected = "number") then
    if isNumber value then None else mismatch
  else if decide (expected = "integer") then
    if isInteger value then None else mismatch
  else if decide (expected = "boolean") then
    match value with VBool _ => None | _ => mismatch end
  else if decide (expected = "object") then
    match value with VMap _ => None | _ => mismatch end
  else if decide (expected = "array") then
    match value with VSlice _ => None | _ => mismatch end
  else if decide (expected = "null") then
    match value with VNil => None | _ => mismatch end
  else Some (ErrUnsupportedType expected).

(** The primitive types of JSON Schema, read on Go values: when a value is
    of the type that a property declares. This is the reading of the
    specification, against which [validateType] is compared. *)
Inductive conforms : GoValue -> string -> Prop :=
| conforms_string s : conforms (VString s) "string"
| conforms_number_int z : conforms (VInt z) "number"
| conforms_number_uint n : conforms (VUint n) "number"
| conforms_number_float32 f : conforms (VFloat32 f) "number"
| conforms_number_float64 f : conforms (VFloat64 f) "number"
| conforms_number_json s : parsesFloat64 s = true -> conforms (VNumber s) "number"
| conforms_integer_int z : conforms (VInt z) "integer"
| conforms_integer_uint n : conforms (VUint n) "integer"
| conforms_integer_float32 f : truncIsSelf f = true -> conforms (VFloat32 f) "integer"
| conforms_integer_float64 f : truncIsSelf f = true -> conforms (VFloat64 f) "integer"
| conforms_integer_json s : parsesInt64 s = true -> conforms (VNumber s) "integer"
| conforms_boolean b : conforms (VBool b) "boolean"
| conforms_object m : conforms (VMap m) "object"
| conforms_array l : conforms (VSlice l) "array"
| conforms_null : conforms VNil "null".

(** The first loop of [Validate]: [for _, field := range schema.Required]. *)
Fixpoint checkRequired (params : gmap string GoValue) (required : list string)
  : option error :=
  match required with
  | [] => None
  | field :: rest =>
      match params !! field with
      | None => Some (ErrMissingRequired field)
      | Some _ => checkRequired params rest
      end
  end.

(** The second loop of [Validate]: [for key, value := range params], over
    the entries in the order the loop visits them. *)
Fixpoint checkProperties (properties : gmap string GoValue)
  (entries : list (string * GoValue)) : option error :=
  match entries with
  | [] => None
  | (key, value) :: rest =>
      match properties !! key with
      | None => checkProperties properties rest
      | Some propDef =>
          let expectedType := extractExpectedType propDef in
          if decide (expectedType = "") then checkProperties properties rest
          else
            match validateType value expectedType with
            | Some err => Some (ErrField key err)
            | None => checkProperties properties rest
            end
      end
  end.

(** [func (DefaultValidator) Validate(params, schema) error] *)
Definition Validate (params : Params) (schema : option JSONSchema) : option error :=
  match schema with
  | None => None
  | Some schema =>
      let params := default ∅ params in
      match checkRequired params (Required schema) with
      | Some err => Some err
      | None =>
          if decide (size (Properties schema) = 0%nat) then None
          else checkProperties (Properties schema) (range params)
      end
  end.

End Validator.

Section Registry.

(** What a tool body can read and change outside the registry. *)
Variable World : Type.

(** [type Validator interface] *)
Definition Validator := Params -> option JSONSchema -> option error.

(** A value of the [Tool] interface: what [Name()] and [Schema()] return and
    what [Execute(ctx, params)] does. *)
Record Tool := {
  Name : string;
  Schema : option JSONSchema;
  Run : Params -> World -> (option ToolResult * option error) * World;
}.

(** [type Registry struct]; the lock and the MCP client are not modelled. *)
Record Registry := {
  tools : gmap string Tool;
  validator : option Validator;
}.

(** [func NewRegistry() *Registry], for a given [DefaultValidator{}]. *)
Definition NewRegistry (defaultValidator : Validator) : Registry :=
  {| tools := ∅; validator := Some defaultValidator |}.

(** [func (r *Registry) Register(tool Tool) error]; the registry after the
    call is returned with the error. *)
Definition Register (r : Registry) (tool : option Tool) : option error * Registry :=
  match tool with
  | None => (Some ErrToolNil, r)
  | Some tool =>
      let name := Name tool in
      if decide (name = "") then (Some ErrToolNameEmpty, r)
      else
        match tools r !! name with
        | Some _ => (Some (ErrAlreadyRegistered name), r)
        | None => (None, {| tools := <[name := tool]> (tools r);
                            validator := validator r |})
        end
  end.

(** [func (r *Registry) Get(name string) (Tool, error)] *)
Definition Get (r : Registry) (name : string) : option Tool * option error :=
  match tools r !! name with
  | Some tool => (Some tool, None)
  | None => (None, Some (ErrNotFound name))
  end.

(** [func (r *Registry) SetValidator(v Validator)] *)
Definition SetValidator (r : Registry) (v : option Validator) : Registry :=
  {| tools := tools r; validator := v |}.

(** What a call of [Registry.Execute] leaves behind: the two results, the
    world, and the names of the tools whose body was run (a ghost log). *)
Record Outcome := {
  result : option ToolResult;
  err : option error;
  world : World;
  invoked : list string;
}.

(** [func (r *Registry) Execute(ctx, name, params) ( *ToolResult, error)] *)
Definition Execute (r : Registry) (name : string) (params : Params) (w : World)
  : Outcome :=
  match Get r name with
  | (Some tool, None) =>
      let run :=
        let '((res, e), w') := Run tool params w in
        {| result := res; err := e; world := w'; invoked := [name] |} in
      match Schema tool with
      | Some schema =>
          match validator r with
          | Some validator =>
              match validator params (Some schema) with
              | Some e =>
                  {| result := None; err := Some (ErrValidationFailed name e);
                     world := w; invoked := [] |}
              | None => run
              end
          | None => run
          end
      | None => run
      end
  | (_, e) => {| result := None; err := e; world := w; invoked := [] |}
  end.

End Registry.

Arguments Name {World} _.
Arguments Schema {World} _.
Arguments Run {World} _ _ _.
Arguments tools {World} _.
Arguments validator {World} _.
Arguments NewRegistry {World} _.
Arguments Register {World} _ _.
Arguments Get {World} _ _.
Arguments SetValidator {World} _ _.
Arguments Execute {World} _ _ _ _.
Arguments result {World} _.
Arguments err {World} _.
Arguments world {World} _.
Arguments invoked {World} _.

End Tool.

(** ** pkg/session: the in-memory session *)

Module Session.

(** A [time.Time], as the nanoseconds since Go's zero instant; [UTC()]
    keeps the instant. *)
Definition Time := Z.

(** [time.Time.IsZero] *)
Definition IsZero (t : Time) : bool := (t =? 0)%Z.

(** [time.Time.UTC] *)
Definition UTC (t : Time) : Time := t.

(** [time.Time.Before] *)
Definition Before (t u : Time) : bool := (t <? u)%Z.

(** [time.Time.After] *)
Definition After (t u : Time) : bool := (u <? t)%Z.

(** The package's sentinel errors and what [fmt.Errorf("%w: ...")] wraps
    around them. *)
Inductive error : Type :=
| ErrInvalidSessionID
| ErrInvalidMessage
| ErrSessionClosed
| ErrInvalidCheckpointName
| ErrCheckpointNotFound
| Wrap (sentinel : error) (detail : string).

(** [errors.Is] *)
Fixpoint errorsIs (e target : error) : Prop :=
  e = target \/ match e with Wrap inner _ => errorsIs inner target | _ => False end.

(** [type ToolCall struct] *)
Record ToolCall := {
  tc_ID : string;
  tc_Name : string;
  tc_Arguments : gmap string Tool.GoValue;
  tc_Output : Tool.GoValue;
  tc_Error : string;
  tc_Metadata : gmap string Tool.GoValue;
  tc_Timestamp : Time;
}.

(** [type Message struct] *)
Record Message := {
  ID : string;
  Role : string;
  Content : string;
  ToolCalls : list ToolCall;
  Timestamp : Time;
}.

(** [type Filter struct] *)
Record Filter := {
  StartTime : option Time;
  EndTime : option Time;
  f_Role : string;
  Limit : Z;
  Offset : Z;
}.

(** [type MemorySession struct]. [checkpoints] is [None] for a nil map.
    The [now] field is a clock: what it reads during a call is an argument
    of the call. *)
Record MemorySession := {
  id : string;
  messages : list Message;
  checkpoints : option (gmap string (list Message));
  seq : N;
  closed : bool;
}.

(** A call either returns or panics. *)
Inductive outcome (A : Type) : Type :=
| Returns (a : A)
| Panics.
Arguments Returns {A} a.
Arguments Panics {A}.

(** [func NewMemorySession(id string) ( *MemorySession, error)] *)
Definition NewMemorySession (id : string) : option MemorySession * option error :=
  let trimmed := GoStrings.TrimSpace id in
  if decide (trimmed = "") then (None, Some ErrInvalidSessionID)
  else (Some {| id := trimmed; messages := []; checkpoints := Some ∅;
                seq := 0; closed := false |}, None).

(** [func cloneMap(src map[string]any) map[string]any] *)
Definition cloneMap (src : gmap string Tool.GoValue) : gmap string Tool.GoValue :=
  if decide (size src = 0%nat) then ∅ else src.

(** [func cloneToolCall(call ToolCall) ToolCall] *)
Definition cloneToolCall (call : ToolCall) : ToolCall :=
  {| tc_ID := tc_ID call; tc_Name := tc_Name call;
     tc_Arguments := cloneMap (tc_Arguments call);
     tc_Output := tc_Output call; tc_Error := tc_Error call;
     tc_Metadata := cloneMap (tc_Metadata call);
     tc_Timestamp := tc_Timestamp call |}.

(** [func cloneToolCalls(calls []ToolCall) []ToolCall] *)
Definition cloneToolCalls (calls : list ToolCall) : list ToolCall :=
  match calls with
  | [] => []
  | _ => map cloneToolCall calls
  end.

(** [func cloneMessage(msg Message) Message] *)
Definition cloneMessage (msg : Message) : Message :=
  {| ID := ID msg; Role := Role msg; Content := Content msg;
     ToolCalls := cloneToolCalls (ToolCalls msg); Timestamp := Timestamp msg |}.

(** [func cloneMessages(src []Message) []Message] *)
Definition cloneMessages (src : list Message) : list Message :=
  match src with
  | [] => []
  | _ => map cloneMessage src
  end.

(** [func cloneCheckpointMap(src map[string][]Message) map[string][]Message] *)
Definition cloneCheckpointMap (src : option (gmap string (list Message)))
  : gmap string (list Message) :=
  match src with
  | None => ∅
  | Some src => if decide (size src = 0%nat) then ∅ else cloneMessages <$> src
  end.

(** [func normalizeCheckpointName(name string) (string, error)] *)
Definition normalizeCheckpointName (name : string) : string * option error :=
  let trimmed := GoStrings.TrimSpace name in
  if decide (trimmed = "") then ("", Some ErrInvalidCheckpointName)
  else (trimmed, None).

(** A run of [n] zeros. *)
Fixpoint zeros (n : nat) : string :=
  match n with
  | O => ""
  | S k => String "0"%char (zeros k)
  end.

(** [fmt.Sprintf("%06d", n)]: the decimal digits, padded with zeros on the
    left to six characters. *)
Definition sprintf06d (n : N) : string :=
  let digits := NilZero.string_of_uint (N.to_uint n) in
  (zeros (6 - String.length digits) ++ digits)%string.

(** [func (s *MemorySession) Append(msg Message) error], at clock reading
    [now]. *)
Definition Append (s : MemorySession) (now : Time) (msg : Message)
  : option error * MemorySession :=
  if decide (GoStrings.TrimSpace (Role msg) = "")
  then (Some (Wrap ErrInvalidMessage "role is required"), s)
  else if closed s then (Some ErrSessionClosed, s)
  else
    let seq' := ((seq s + 1) mod 2 ^ 64)%N in
    let msg' :=
      {| ID := if decide (ID msg = "") then (id s ++ "-" ++ sprintf06d seq')%string
               else ID msg;
         Role := Role msg;
         Content := Content msg;
         ToolCalls := cloneToolCalls (ToolCalls msg);
         Timestamp := if IsZero (Timestamp msg) then UTC now
                      else UTC (Timestamp msg) |} in
    (None, {| id := id s; messages := messages s ++ [msg'];
              checkpoints := checkpoints s; seq := seq'; closed := closed s |}).

(** The loop of [List], with its two variables [skipped] and [result]. *)
Fixpoint listLoop (role : string) (start stop : option Time) (offset limit : Z)
  (msgs : list Message) (skipped : Z) (result : list Message) : list Message :=
  match msgs with
  | [] => result
  | msg :: rest =>
      let continue := listLoop role start stop offset limit rest in
      if bool_decide (role <> "") && bool_decide (Role msg <> role)
      then continue skipped result
      else if match start with
              | Some t => Before (Timestamp msg) (UTC t)
              | None => false
              end
      then continue skipped result
      else if match stop with
              | Some t => After (Timestamp msg) (UTC t)
              | None => false
              end
      then continue skipped result
      else if (skipped <? offset)%Z then continue (skipped + 1)%Z result
      else
        let result' := result ++ [cloneMessage msg] in
        if (0 <? limit)%Z && (limit <=? Z.of_nat (length result'))%Z
        then result'
        else continue skipped result'
  end.

(** [func (s *MemorySession) List(filter Filter) ([]Message, error)] *)
Definition List (s : MemorySession) (filter : Filter)
  : list Message * option error :=
  if closed s then ([], Some ErrSessionClosed)
  else
    let role := GoStrings.TrimSpace (f_Role filter) in
    let offset := if (Offset filter <? 0)%Z then 0%Z else Offset filter in
    let limit := if (Limit filter <? 0)%Z then 0%Z else Limit filter in
    (listLoop role (StartTime filter) (EndTime filter) offset limit
       (messages s) 0%Z [], None).

(** [func (s *MemorySession) Checkpoint(name string) error]; storing into a
    nil map panics. *)
Definition Checkpoint (s : MemorySession) (name : string)
  : outcome (option error * MemorySession) :=
  match normalizeCheckpointName name with
  | (_, Some err) => Returns (Some err, s)
  | (normalized, None) =>
      if closed s then Returns (Some ErrSessionClosed, s)
      else
        match checkpoints s with
        | None => Panics
        | Some cps =>
            Returns (None, {| id := id s; messages := messages s;
                              checkpoints :=
                                Some (<[normalized := cloneMessages (messages s)]> cps);
                              seq := seq s; closed := closed s |})
        end
  end.

(** [func (s *MemorySession) Resume(name string) error] *)
Definition Resume (s : MemorySession) (name : string)
  : option error * MemorySession :=
  match normalizeCheckpointName name with
  | (_, Some err) => (Some err, s)
  | (normalized, None) =>
      if closed s then (Some ErrSessionClosed, s)
      else
        match checkpoints s ≫= (.!! normalized) with
        | None => (Some (Wrap ErrCheckpointNotFound normalized), s)
        | Some snapshot =>
            (None, {| id := id s; messages := cloneMessages snapshot;
                      checkpoints := checkpoints s;
                      seq := seq s; closed := closed s |})
        end
  end.

(** [func (s *MemorySession) Fork(id string) (Session, error)] *)
Definition Fork (s : MemorySession) (id' : string)
  : option MemorySession * option error :=
  let trimmed := GoStrings.TrimSpace id' in
  if decide (trimmed = "") then (None, Some ErrInvalidSessionID)
  else if closed s then (None, Some ErrSessionClosed)
  else
    (Some {| id := trimmed;
             messages := cloneMessages (messages s);
             checkpoints := Some (cloneCheckpointMap (checkpoints s));
             seq := (N.of_nat (length (messages s)) mod 2 ^ 64)%N;
             closed := false |}, None).

(** [func (s *MemorySession) Close() error] *)
Definition Close (s : MemorySession) : option error * MemorySession :=
  if closed s then (None, s)
  else (None, {| id := id s; messages := []; checkpoints := None;
                 seq := seq s; closed := true |}).

End Session.

(** ** The approval queue, its record log and its whitelist

    The queue's code is not part of the sources at hand: only its tests
    are. The definitions of this module follow sections 3, 4.4 and 6 of the
    specification. *)

Module Approval.

(** Modelled from the spec: the queue's code is missing; a timestamp is an
    instant of the queue's clock, in nanoseconds. *)
Definition Time := Z.

(** Modelled from the spec: the queue's code is missing; a time to live is
    a number of nanoseconds, as Go's [time.Duration]. *)
Definition Duration := Z.

Abbreviation Params := (gmap string Tool.GoValue).

(** Modelled from the spec: the queue's code is missing; section 3 gives a
    record's decision as one of Pending, Approved and Denied. *)
Inductive Decision : Type :=
| DecisionPending
| DecisionApproved
| DecisionDenied.

#[global] Instance Decision_eq_dec : EqDecision Decision.
Proof. solve_decision. Defined.

(** Modelled from the spec: the queue's code is missing; the fields are those
    of section 3's ApprovalRecord. [ExpiresAt] is the expiry that an approval
    with a time to live has granted (the queue's unit test reads it from the
    approved record): section 4.4 asks that the log holds what is needed to
    answer IsWhitelisted after a restart. *)
Record ApprovalRecord := {
  ID : string;
  SessionID : string;
  ToolName : string;
  RecParams : Params;
  Paths : list string;
  RecDecision : Decision;
  Requested : Time;
  ApprovedAt : option Time;
  DeniedAt : option Time;
  Approver : string;
  Comment : string;
  Auto : bool;
  ExpiresAt : option Time;
}.

(** Modelled from the spec: the queue's code is missing; section 7 names the
    validation errors (empty session, empty tool) and the state conflict
    (already decided); an unknown id and a closed log fail as well. *)
Inductive error : Type :=
| ErrSessionRequired
| ErrToolRequired
| ErrNotFound (id : string)
| ErrAlreadyDecided (id : string)
| ErrClosed.

(** Modelled from the spec: the record log's code is missing; section 6 lets
    it be line-delimited records, appended one per state change. [entries]
    is what is on disk and survives a restart; [logClosed] is the state of
    the handle. *)
Record RecordLog := {
  entries : list ApprovalRecord;
  logClosed : bool;
}.

(** Modelled from the spec: the record log's code is missing; opening the log
    at a path gives a handle on what the disk holds there. *)
Definition NewRecordLog (disk : list ApprovalRecord) : RecordLog :=
  {| entries := disk; logClosed := false |}.

(** Modelled from the spec: the record log's code is missing; a write is one
    appended record and fails on a closed log (section 4.4, Close). *)
Definition logAppend (l : RecordLog) (r : ApprovalRecord)
  : option error * RecordLog :=
  if logClosed l then (Some ErrClosed, l)
  else (None, {| entries := entries l ++ [r]; logClosed := false |}).

(** Modelled from the spec: the record log's code is missing; closing keeps
    what was written. *)
Definition logClose (l : RecordLog) : RecordLog :=
  {| entries := entries l; logClosed := true |}.

(** Modelled from the spec: the whitelist's code is missing; section 3 keys
    an entry by a scope, the session and, when so configured, the tool. *)
Definition Scope : Type := string * option string.

(** Modelled from the spec: the whitelist's code is missing; the scope of a
    session and a tool under the configuration [byTool]. *)
Definition scopeKey (byTool : bool) (sessionID tool : string) : Scope :=
  (sessionID, if byTool then Some tool else None).

Abbreviation Whitelist := (gmap Scope Time).

(** Modelled from the spec: the whitelist's code is missing; a new whitelist
    has no entry. *)
Definition NewWhitelist : Whitelist := ∅.

(** Modelled from the spec: the whitelist's code is missing; section 3: an
    entry is consulted lazily and one whose expiry has passed is treated as
    absent. *)
Definition covers (w : Whitelist) (now : Time) (scope : Scope) : bool :=
  match w !! scope with
  | Some expiry => (now <? expiry)%Z
  | None => false
  end.

(** Modelled from the spec: the queue's code is missing; section 2 composes
    a queue of a record log and a whitelist, section 5 adds the map of
    records. *)
Record Queue := {
  store : RecordLog;
  records : gmap string ApprovalRecord;
  whitelist : Whitelist;
  scopeByTool : bool;
}.

(** Modelled from the spec: the queue's code is missing; the scope of a
    record is that of its session and tool. *)
Definition scopeOf (byTool : bool) (r : ApprovalRecord) : Scope :=
  scopeKey byTool (SessionID r) (ToolName r).

(** Modelled from the spec: the queue's code is missing; section 4.4,
    Recovery: one persisted record is taken back into the map of records,
    and the expiry it granted, if any, into the whitelist. *)
Definition replay (byTool : bool)
  (acc : gmap string ApprovalRecord * Whitelist) (r : ApprovalRecord)
  : gmap string ApprovalRecord * Whitelist :=
  (<[ID r := r]> acc.1,
   match ExpiresAt r with
   | Some expiry => <[scopeOf byTool r := expiry]> acc.2
   | None => acc.2
   end).

(** Modelled from the spec: the queue's code is missing; section 4.4,
    Recovery: a queue made from a record log holds every record as last
    persisted. *)
Definition NewQueue (byTool : bool) (log : RecordLog) (w : Whitelist) : Queue :=
  let recovered := foldl (replay byTool) (∅, w) (entries log) in
  {| store := log; records := recovered.1; whitelist := recovered.2;
     scopeByTool := byTool |}.

Section Operations.

(** The generator of record identifiers, from the records in use: section 3
    asks that the ID it assigns is unique. *)
Variable newID : gmap string ApprovalRecord -> string.

(** Go's [filepath] functions, which clean the path-shaped values of the
    parameters and make them absolute. *)
Variable extractPaths : Params -> list string.

(** Modelled from the spec: the queue's code is missing; section 4.4,
    Request: fails on a blank session or tool; creates the record approved
    and automatic when the whitelist covers the scope, pending otherwise;
    persists it before returning. *)
Definition Request (q : Queue) (now : Time) (sessionID tool : string)
  (params : Params) : (option ApprovalRecord * bool * option error) * Queue :=
  if decide (GoStrings.TrimSpace sessionID = "")
  then ((None, false, Some ErrSessionRequired), q)
  else if decide (GoStrings.TrimSpace tool = "")
  then ((None, false, Some ErrToolRequired), q)
  else
    let auto := covers (whitelist q) now (scopeKey (scopeByTool q) sessionID tool) in
    let rec :=
      {| ID := newID (records q);
         SessionID := sessionID;
         ToolName := tool;
         RecParams := params;
         Paths := extractPaths params;
         RecDecision := if auto then DecisionApproved else DecisionPending;
         Requested := now;
         ApprovedAt := if auto then Some now else None;
         DeniedAt := None;
         Approver := "";
         Comment := if auto then "whitelisted" else "";
         Auto := auto;
         ExpiresAt := None |} in
    match logAppend (store q) rec with
    | (Some e, _) => ((None, false, Some e), q)
    | (None, store') =>
        ((Some rec, auto, None),
         {| store := store';
            records := <[ID rec := rec]> (records q);
            whitelist := whitelist q;
            scopeByTool := scopeByTool q |})
    end.

(** Modelled from the spec: the queue's code is missing; section 4.4,
    Approve: fails on an unknown id or a record that is not pending; sets
    the decision, the approver and the time, persists, and installs the
    whitelist entry of the record's scope when the time to live is
    positive. *)
Definition Approve (q : Queue) (now : Time) (id approver : string)
  (ttl : Duration) : (option ApprovalRecord * option error) * Queue :=
  match records q !! id with
  | None => ((None, Some (ErrNotFound id)), q)
  | Some rec =>
      match RecDecision rec with
      | DecisionPending =>
          let rec' :=
            {| ID := ID rec;
               SessionID := SessionID rec;
               ToolName := ToolName rec;
               RecParams := RecParams rec;
               Paths := Paths rec;
               RecDecision := DecisionApproved;
               Requested := Requested rec;
               ApprovedAt := Some now;
               DeniedAt := DeniedAt rec;
               Approver := approver;
               Comment := Comment rec;
               Auto := Auto rec;
               ExpiresAt := if (0 <? ttl)%Z then Some (now + ttl)%Z else None |} in
          match logAppend (store q) rec' with
          | (Some e, _) => ((None, Some e), q)
          | (None, store') =>
              ((Some rec', None),
               {| store := store';
                  records := <[id := rec']> (records q);
                  whitelist :=
                    if (0 <? ttl)%Z
                    then <[scopeOf (scopeByTool q) rec := (now + ttl)%Z]> (whitelist q)
                    else whitelist q;
                  scopeByTool := scopeByTool q |})
          end
      | _ => ((None, Some (ErrAlreadyDecided id)), q)
      end
  end.

(** Modelled from the spec: the queue's code is missing; section 4.4, Deny:
    symmetric to Approve; a denial grants no expiry. *)
Definition Deny (q : Queue) (now : Time) (id approver reason : string)
  : (option ApprovalRecord * option error) * Queue :=
  match records q !! id with
  | None => ((None, Some (ErrNotFound id)), q)
  | Some rec =>
      match RecDecision rec with
      | DecisionPending =>
          let rec' :=
            {| ID := ID rec;
               SessionID := SessionID rec;
               ToolName := ToolName rec;
               RecParams := RecParams rec;
               Paths := Paths rec;
               RecDecision := DecisionDenied;
               Requested := Requested rec;
               ApprovedAt := ApprovedAt rec;
               DeniedAt := Some now;
               Approver := approver;
               Comment := reason;
               Auto := Auto rec;
               ExpiresAt := None |} in
          match logAppend (store q) rec' with
          | (Some e, _) => ((None, Some e), q)
          | (None, store') =>
              ((Some rec', None),
               {| store := store';
                  records := <[id := rec']> (records q);
                  whitelist := whitelist q;
                  scopeByTool := scopeByTool q |})
          end
      | _ => ((None, Some (ErrAlreadyDecided id)), q)
      end
  end.

(** Modelled from the spec: the queue's code is missing; section 4.4,
    ListPending: the pending records of a session, as values. *)
Definition ListPending (q : Queue) (sessionID : string) : list ApprovalRecord :=
  filter (fun r => RecDecision r = DecisionPending /\ SessionID r = sessionID)
    (map_to_list (records q)).*2.

(** Modelled from the spec: the queue's code is missing; section 4.4,
    IsWhitelisted: a lazy check of the expiry, nothing is changed: whether
    an entry of the session has not expired. *)
Definition IsWhitelisted (q : Queue) (now : Time) (sessionID : string) : bool :=
  bool_decide (Exists (fun entry => entry.1.1 = sessionID /\ (now < entry.2)%Z)
                 (map_to_list (whitelist q))).

(** Modelled from the spec: the queue's code is missing; section 4.4, Close
    closes the record log. *)
Definition Close (q : Queue) : option error * Queue :=
  (None, {| store := logClose (store q); records := records q;
            whitelist := whitelist q; scopeByTool := scopeByTool q |}).

(** Modelled from the spec: the queue's code is missing; a call of one of
    the operations of section 4.4 that change the queue, at a time. *)
Inductive Call : Type :=
| CallRequest (now : Time) (sessionID tool : string) (params : Params)
| CallApprove (now : Time) (id approver : string) (ttl : Duration)
| CallDeny (now : Time) (id approver reason : string)
| CallClose.

(** Modelled from the spec: the queue's code is missing; the queue after a
    call, whatever it returned. *)
Definition after (q : Queue) (c : Call) : Queue :=
  match c with
  | CallRequest now sessionID tool params => (Request q now sessionID tool params).2
  | CallApprove now id approver ttl => (Approve q now id approver ttl).2
  | CallDeny now id approver reason => (Deny q now id approver reason).2
  | CallClose => (Close q).2
  end.

(** Modelled from the spec: the queue's code is missing; the queue after
    the calls of a list, in their order. *)
Definition afterAll (q : Queue) (calls : list Call) : Queue :=
  foldl after q calls.

(** Modelled from the spec: the queue's code is missing; section 4.4,
    Recovery, as the integration test does it: the queue is closed and a new
    queue is made from what the log holds on disk, with a new whitelist. *)
Definition reopen (q : Queue) : Queue :=
  NewQueue (scopeByTool q) (NewRecordLog (entries (store (Close q).2))) NewWhitelist.

End Operations.

End Approval.

(** ** pkg/workflow: graph, middleware pipeline and executor

    Of this package the sources at hand hold the [Middleware] interface and
    the integration tests; the graph, the execution context and the executor
    follow sections 3, 4.1, 4.2 and 5 of the specification. *)

Module Workflow.

Abbreviation Value := Tool.GoValue.

(** Modelled from the spec: the errors of the package are missing; section
    7: building a graph, walking it, and whatever a body, a hook or a
    condition returns. *)
Inductive error : Type :=
| ErrNodeExists (name : string)
| ErrUnknownNode (name : string)
| ErrEmptyGraph
| ErrFailed (msg : string).

(** [type Middleware interface]: [BeforeStep(name string) error] and
    [AfterStep(name string) error]. A hook is a method of a value with its
    own state, [M]. *)
Record Middleware (M : Type) := {
  BeforeStep : string -> M -> option error * M;
  AfterStep : string -> M -> option error * M;
}.
Arguments BeforeStep {M} _ _ _.
Arguments AfterStep {M} _ _ _.

(** How a hook of [Middleware] is called around a step: the interface has a
    place for the step's name only, so that the context and the error of
    the step are not passed on. *)
Definition callBeforeStep {M C : Type} (m : Middleware M) (ctx : C)
  (name : string) (state : M) : option error * M :=
  BeforeStep m name state.

(** The same for [AfterStep(name string) error]. *)
Definition callAfterStep {M C : Type} (m : Middleware M) (ctx : C)
  (name : string) (stepErr : option error) (state : M) : option error * M :=
  AfterStep m name state.

(** Modelled from the spec: the code of the step is missing; section 3: a
    value with the name of the node that is entered or left. *)
Record Step := { StepName : string }.

(** Modelled from the spec: the code of the executor is missing; what it
    has done, in order, is kept in a ghost log. [EvBefore i n] is the call
    of the Before-hook of the [i]-th middleware of the pipeline at node
    [n], [EvBody n] the run of the body of [n]. *)
Inductive Event : Type :=
| EvBefore (mw : nat) (node : string)
| EvBody (node : string)
| EvAfter (mw : nat) (node : string).

#[global] Instance Event_eq_dec : EqDecision Event.
Proof. solve_decision. Defined.

Section Executor.

(** What bodies and hooks can change outside the execution context. *)
Variable World : Type.

(** Modelled from the spec: the code of the execution context is missing;
    section 3: a key/value store shared by all the branches of a run. A
    body or a hook gets it together with the world outside. The lock is
    modelled by running each body, hook and choice of a transition as one
    step; the cancellation signal and the deadline are not modelled. *)
Definition ExecutionContext : Type := gmap string Value.

(** Modelled from the spec: the code of the execution context is missing;
    what a body or a hook works on: the context and the world outside. *)
Definition Env : Type := ExecutionContext * World.

(** Modelled from the spec: the code of the execution context is missing;
    it is made from the snapshot that the caller supplies. *)
Definition NewExecutionContext (initial : gmap string Value) : ExecutionContext :=
  initial.

(** Modelled from the spec: the code of the execution context is missing;
    the tests read it with [Get] and write it with [Set]. *)
Definition Get (ctx : ExecutionContext) (key : string) : option Value := ctx !! key.

(** Modelled from the spec: the code of the execution context is missing;
    [Set] stores the value under the key. *)
Definition Set_ (ctx : ExecutionContext) (key : string) (v : Value)
  : ExecutionContext := <[key := v]> ctx.

(** Modelled from the spec: the code of the hooks that take the context is
    missing; section 4.2 gives them the context and the step, and the
    After-hook the error of the step; the tests call them
    [BeforeStepContext] and [AfterStepContext]. *)
Record ContextMiddleware := {
  BeforeStepContext : Step -> Env -> option error * Env;
  AfterStepContext : Step -> option error -> Env -> option error * Env;
}.

(** Modelled from the spec: the code of the nodes is missing; section 3: the
    body of an action works on the execution context and gives an error or
    none. *)
Definition Body : Type := Env -> option error * Env.

(** Modelled from the spec: the code of the conditions is missing; section
    3: a condition reads the context and gives a boolean or an error. *)
Definition Condition : Type := ExecutionContext -> bool * option error.

(** Modelled from the spec: the test calls [workflow.Always()]. *)
Definition Always : Condition := fun _ => (true, None).

(** Modelled from the spec: the code of the nodes is missing; section 3 and
    section 9: a tagged variant, an action with its body or a parallel node
    with the names of its branches. Section 4.1 lets the walk of a branch
    end at a designated join node: [join] is that designation. *)
Inductive Node : Type :=
| Action (name : string) (body : Body)
| Parallel (name : string) (branches : list string) (join : option string).

(** Modelled from the spec: the code of the nodes is missing; every node
    has a name. *)
Definition nodeName (n : Node) : string :=
  match n with
  | Action name _ => name
  | Parallel name _ _ => name
  end.

(** Modelled from the spec: the code of the transitions is missing; section
    3: the node it leaves, the node it goes to, and its condition. *)
Record Transition := {
  from : string;
  to : string;
  cond : Condition;
}.

(** Modelled from the spec: the code of the graph is missing; section 3: the
    nodes and the transitions in the order of their registration, and the
    start when one is configured. *)
Record Graph := {
  nodes : list Node;
  transitions : list Transition;
  start : option string;
}.

(** Modelled from the spec: the code of the graph is missing; a new graph
    has no node. *)
Definition NewGraph : Graph := {| nodes := []; transitions := []; start := None |}.

(** Modelled from the spec: the code of the graph is missing; section 3:
    the names of the nodes are unique, a name finds its node. *)
Definition findNode (g : Graph) (name : string) : option Node :=
  find (fun n => bool_decide (nodeName n = name)) (nodes g).

(** Modelled from the spec: the code of the graph is missing; section 4.1:
    AddNode fails if a node of that name exists. The test adds a parallel
    node before its branches: the branches are checked when the graph is
    run. *)
Definition AddNode (g : Graph) (n : Node) : option error * Graph :=
  match findNode g (nodeName n) with
  | Some _ => (Some (ErrNodeExists (nodeName n)), g)
  | None => (None, {| nodes := nodes g ++ [n]; transitions := transitions g;
                      start := start g |})
  end.

(** Modelled from the spec: the code of the graph is missing; section 4.1:
    AddTransition fails if the node it leaves is unknown; the node it goes
    to is checked when the graph is run. *)
Definition AddTransition (g : Graph) (from_ to_ : string) (c : Condition)
  : option error * Graph :=
  match findNode g from_ with
  | None => (Some (ErrUnknownNode from_), g)
  | Some _ =>
      (None, {| nodes := nodes g;
                transitions := transitions g ++ [{| from := from_; to := to_; cond := c |}];
                start := start g |})
  end.

(** Modelled from the spec: section 4.1: the run starts at the first node
    added, unless a start is configured. *)
Definition entry (g : Graph) : option string :=
  match start g with
  | Some name => Some name
  | None => nodeName <$> head (nodes g)
  end.

(** Modelled from the spec: the code of the executor is missing; section 3:
    the transitions that leave a node are evaluated in the order of their
    registration and the first whose condition is true is taken; an error
    of a condition ends the evaluation. *)
Fixpoint firstMatch (ts : list Transition) (node : string) (ctx : ExecutionContext)
  : option string * option error :=
  match ts with
  | [] => (None, None)
  | t :: rest =>
      if bool_decide (from t = node) then
        match cond t ctx with
        | (_, Some e) => (None, Some e)
        | (true, None) => (Some (to t), None)
        | (false, None) => firstMatch rest node ctx
        end
      else firstMatch rest node ctx
  end.

(** Modelled from the spec: the code of the executor is missing; the state
    of a run is the execution context, the world and the ghost log. *)
Record State := {
  ctx : ExecutionContext;
  world : World;
  trace : list Event;
}.

(** Modelled from the spec: the code of the executor is missing; section
    2, control flow: where a walk stands at a node: before the Before-hook
    [i]; before the body; before the After-hooks of the first [remaining]
    middlewares, with the error of the step so far; before the choice of a
    transition. *)
Inductive phase : Type :=
| PBefore (i : nat)
| PBody
| PAfter (remaining : nat) (stepErr : option error)
| PNext.

(** Modelled from the spec: the code of the executor is missing; section
    4.1: a walk of the graph. [stop] is the join node at which the walk of a
    branch ends. A [Fork] is a parallel node that waits for the walks of its
    branches. *)
Inductive thread : Type :=
| Walk (stop : option string) (node : string) (ph : phase)
| Fork (stop : option string) (node : string) (children : list thread)
| Finished (err : option error).

(** Modelled from the spec: the code of the executor is missing; whether a
    walk has ended. *)
Definition isFinished (t : thread) : bool :=
  match t with
  | Finished _ => true
  | _ => false
  end.

(** Modelled from the spec: the code of the executor is missing; the error
    that a walk has ended with. *)
Definition finishedErr (t : thread) : option error :=
  match t with
  | Finished e => e
  | _ => None
  end.

(** Modelled from the spec: the code of the executor is missing; the error
    of a parallel node is the first among the walks of its branches, in
    their order. *)
Fixpoint firstError (ts : list thread) : option error :=
  match ts with
  | [] => None
  | t :: rest =>
      match finishedErr t with
      | Some e => Some e
      | None => firstError rest
      end
  end.

(** Modelled from the spec: the code of the executor is missing; how many
    of the walks have not ended. *)
Definition unfinished (ts : list thread) : nat :=
  length (filter (fun t => isFinished t = false) ts).

Variable g : Graph.
Variable pipeline : list ContextMiddleware.

(** Modelled from the spec: the code of the executor is missing; section
    4.1: a walk enters a node at its first Before-hook; an unknown node
    fails the run. *)
Definition enter (stop : option string) (name : string) : thread :=
  match findNode g name with
  | Some _ => Walk stop name (PBefore 0)
  | None => Finished (Some (ErrUnknownNode name))
  end.

(** Modelled from the spec: the code of the executor is missing; section
    4.1: the walk of a branch ends when it reaches the join node. *)
Definition goto (stop : option string) (target : string) : thread :=
  if bool_decide (stop = Some target) then Finished None else enter stop target.

(** Modelled from the spec: the code of the executor is missing; the state
    after a body or a hook, with its event in the ghost log. *)
Definition logged (s : State) (env : Env) (ev : Event) : State :=
  {| ctx := env.1; world := env.2; trace := trace s ++ [ev] |}.

(** Modelled from the spec: the code of the executor is missing; sections
    4.1 and 4.2: one step of a walk at a node. Before-hooks in the order of
    the pipeline, the body, After-hooks in the reverse order, then the
    choice of a transition. A hook or a body that fails ends the walk once
    the After-hooks of the middlewares already entered have run (section
    7). *)
Definition stepWalk (stop : option string) (n : string) (ph : phase) (s : State)
  : thread * State :=
  match ph with
  | PBefore i =>
      match pipeline !! i with
      | None => (Walk stop n PBody, s)
      | Some m =>
          let '(e, env) := BeforeStepContext m {| StepName := n |} (ctx s, world s) in
          let s' := logged s env (EvBefore i n) in
          match e with
          | None => (Walk stop n (PBefore (S i)), s')
          | Some _ => (Walk stop n (PAfter i e), s')
          end
      end
  | PBody =>
      match findNode g n with
      | None => (Finished (Some (ErrUnknownNode n)), s)
      | Some (Action _ body) =>
          let '(e, env) := body (ctx s, world s) in
          (Walk stop n (PAfter (length pipeline) e), logged s env (EvBody n))
      | Some (Parallel _ branches join) =>
          (Fork stop n (map (enter join) branches),
           logged s (ctx s, world s) (EvBody n))
      end
  | PAfter 0 stepErr =>
      match stepErr with
      | Some e => (Finished (Some e), s)
      | None => (Walk stop n PNext, s)
      end
  | PAfter (S j) stepErr =>
      match pipeline !! j with
      | None => (Walk stop n (PAfter j stepErr), s)
      | Some m =>
          let '(e, env) :=
            AfterStepContext m {| StepName := n |} stepErr (ctx s, world s) in
          let stepErr' := match stepErr with Some _ => stepErr | None => e end in
          (Walk stop n (PAfter j stepErr'), logged s env (EvAfter j n))
      end
  | PNext =>
      match findNode g n with
      | Some (Parallel _ _ (Some join)) => (goto stop join, s)
      | _ =>
          match firstMatch (transitions g) n (ctx s) with
          | (_, Some e) => (Finished (Some e), s)
          | (Some target, None) => (goto stop target, s)
          | (None, None) => (Finished None, s)
          end
      end
  end.

(** Modelled from the spec: the code of the executor is missing; section
    5: the branches of a parallel node move in no given order. The [k]-th
    of the walks that have not ended moves by [move]; the others stay as
    they are. *)
Definition stepChild (move : thread -> State -> thread * State) (s : State)
  : nat -> list thread -> list thread * State :=
  fix go (k : nat) (cs : list thread) : list thread * State :=
    match cs with
    | [] => ([], s)
    | c :: rest =>
        if isFinished c then
          let '(rest', s') := go k rest in (c :: rest', s')
        else
          match k with
          | O => let '(c', s') := move c s in (c' :: rest, s')
          | S k' => let '(rest', s') := go k' rest in (c :: rest', s')
          end
    end.

(** Modelled from the spec: the code of the executor is missing; sections
    4.1 and 5: a parallel node runs one walk per branch, all on the same
    context, in no given order, and goes on once all of them have ended.
    [choice] picks the branch that moves next: its remainder by the number
    of the branches still walking is the branch, its quotient the choice
    inside that branch. *)
Fixpoint step (choice : nat) (t : thread) (s : State) : thread * State :=
  match t with
  | Finished _ => (t, s)
  | Walk stop n ph => stepWalk stop n ph s
  | Fork stop n children =>
      match unfinished children with
      | O => (Walk stop n (PAfter (length pipeline) (firstError children)), s)
      | S u =>
          let '(children', s') :=
            stepChild (step (choice / S u)) s (choice mod S u) children in
          (Fork stop n children', s')
      end
  end.

(** Modelled from the spec: the code of the executor is missing; the steps
    of a schedule, one choice per step. *)
Fixpoint steps (schedule : list nat) (t : thread) (s : State) : thread * State :=
  match schedule with
  | [] => (t, s)
  | choice :: rest => let '(t', s') := step choice t s in steps rest t' s'
  end.

(** Modelled from the spec: the code of the executor is missing; section
    4.1: Run starts at the entry node, on a context made from the initial
    data. The result is [Some e] when the walk has ended within the
    schedule, with [e] the error of the run, and [None] when it has not. *)
Definition Run (initial : gmap string Value) (w : World) (schedule : list nat)
  : option (option error) * State :=
  let s0 := {| ctx := NewExecutionContext initial; world := w; trace := [] |} in
  match entry g with
  | None => (Some (Some ErrEmptyGraph), s0)
  | Some name =>
      let '(t, s) := steps schedule (enter None name) s0 in
      (match t with Finished e => Some e | _ => None end, s)
  end.

End Executor.

Arguments Action {World} _ _.
Arguments Parallel {World} _ _ _.
Arguments nodeName {World} _.
Arguments nodes {World} _.
Arguments transitions {World} _.
Arguments start {World} _.
Arguments findNode {World} _ _.
Arguments AddNode {World} _ _.
Arguments AddTransition {World} _ _ _ _.
Arguments entry {World} _.
Arguments BeforeStepContext {World} _ _ _.
Arguments AfterStepContext {World} _ _ _ _.
Arguments ctx {World} _.
Arguments world {World} _.
Arguments trace {World} _.
Arguments isFinished _ : clear implicits.
Arguments enter {World} _ _ _.
Arguments goto {World} _ _ _.
Arguments logged {World} _ _ _.
Arguments stepWalk {World} _ _ _ _ _ _.
Arguments stepChild {World} _ _ _ _.
Arguments step {World} _ _ _ _ _.
Arguments steps {World} _ _ _ _ _.
Arguments Run {World} _ _ _ _ _.

End Workflow.

(** ** The graph of the integration test [TestStateGraphComplexFlow] *)

Module ComplexFlow.

Import Workflow.

(** The world outside the context is the test's [parallel] counter, an
    [int32] that the branches add to atomically. *)
Definition World : Type := Z.

(** Go's [int] and [int32] wrap around. *)
Definition wrap (bits : Z) (z : Z) : Z :=
  ((z + 2 ^ (bits - 1)) mod 2 ^ bits - 2 ^ (bits - 1))%Z.

(** [val, _ := ctx.Get("count"); n, _ := val.(int)] *)
Definition getInt (c : ExecutionContext) (key : string) : Z :=
  match Get c key with
  | Some (Tool.VInt n) => n
  | _ => 0%Z
  end.

(** The body of the node counter: the count of the context, plus one. *)
Definition counterBody : Body World := fun env =>
  let next := wrap 64 (getInt env.1 "count" + 1) in
  (None, (Set_ env.1 "count" (Tool.VInt next), env.2)).

(** The body of the node gate. *)
Definition gateBody : Body World := fun env =>
  (None, (Set_ env.1 "gate" (Tool.VBool true), env.2)).

(** [atomic.AddInt32(&parallel, 1)] *)
Definition branchBody : Body World := fun env =>
  (None, (env.1, wrap 32 (env.2 + 1))).

(** The body of the node done. *)
Definition doneBody : Body World := fun env =>
  (None, (Set_ env.1 "complete" (Tool.VBool true), env.2)).

(** The test's condition [atMost]: the count is below the limit. *)
Definition atMost (limit : Z) : Condition := fun c =>
  ((getInt c "count" <? limit)%Z, None).

(** The test's condition [atLeast]: the count has reached the limit. *)
Definition atLeast (limit : Z) : Condition := fun c =>
  ((limit <=? getInt c "count")%Z, None).

(** One call of the builder after the other, as long as none fails. *)
Definition andThen (acc : option error * Graph World)
  (f : Graph World -> option error * Graph World) : option error * Graph World :=
  match acc with
  | (None, g) => f g
  | failed => failed
  end.

(** The calls of the test, in its order. The test's [NewParallel] names the
    branches only; [join] is the designation of the join node. *)
Definition build (join : option string) : option error * Graph World :=
  foldl andThen (None, NewGraph World)
    [ fun g => AddNode g (Action "counter" counterBody);
      fun g => AddNode g (Action "gate" gateBody);
      fun g => AddNode g (Parallel "fanout" ["left"; "right"] join);
      fun g => AddNode g (Action "left" branchBody);
      fun g => AddNode g (Action "right" branchBody);
      fun g => AddNode g (Action "done" doneBody);
      fun g => AddTransition g "counter" "counter" (atMost 3);
      fun g => AddTransition g "counter" "gate" (atLeast 3);
      fun g => AddTransition g "gate" "fanout" Always;
      fun g => AddTransition g "left" "done" Always;
      fun g => AddTransition g "right" "done" Always ].

(** The graph that the calls build. *)
Definition graph (join : option string) : Graph World := (build join).2.

(** A middleware whose hooks do nothing and succeed. *)
Definition passive : ContextMiddleware World :=
  {| BeforeStepContext := fun _ env => (None, env);
     AfterStepContext := fun _ _ env => (None, env) |}.

(** [WithInitialData(map[string]any{"count": 0})] *)
Definition initialData : gmap string Value := {[ "count" := Tool.VInt 0 ]}.

(** [exec.Run] of the test's graph under a pipeline and a schedule. *)
Definition run (join : option string) (pipeline : list (ContextMiddleware World))
  (schedule : list nat) : option (option error) * State World :=
  Run (graph join) pipeline initialData 0%Z schedule.

End ComplexFlow.

(** ** pkg/tool: the snapshot of the registry *)

Module ToolRegistry.

Import Tool.

Section Snapshot.

(** What a tool body can read and change outside the registry. *)
Variable World : Type.

(** The order in which Go's [range] visits the map of tools. *)
Variable rangeTools : gmap string (Tool World) -> list (string * Tool World).

(** [func (r *Registry) List() []Tool] *)
Definition List (r : Registry World) : list (Tool World) :=
  (rangeTools (tools r)).*2.

End Snapshot.

Arguments List {World} _ _.

End ToolRegistry.

(** ** pkg/session: the composite backend *)

Module SessionBackend.

(** [strings.HasPrefix] *)
Definition HasPrefix (s p : string) : bool := String.prefix p s.

(** [strings.HasSuffix] *)
Definition HasSuffix (s p : string) : bool :=
  String.prefix (GoStrings.reverseString p) (GoStrings.reverseString s).

(** [ErrNoBackendRoute], the errors of [errors.New] and what
    [fmt.Errorf("%w: %s")] wraps. *)
Inductive error : Type :=
| ErrNoBackendRoute
| New (text : string)
| Wrap (sentinel : error) (detail : string).

(** [errors.Is] *)
Fixpoint errorsIs (e target : error) : Prop :=
  e = target \/ match e with Wrap inner _ => errorsIs inner target | _ => False end.

Section Composite.

(** The state that the backends keep. *)
Variable World : Type.

(** [path.Clean] of Go's standard library. *)
Variable Clean : string -> string.

(** [type Backend interface] *)
Record Backend := {
  b_Read : string -> World -> (list Byte.byte * option error) * World;
  b_Write : string -> list Byte.byte -> World -> option error * World;
  b_List : string -> World -> (list string * option error) * World;
  b_Delete : string -> World -> option error * World;
}.

(** [type CompositeBackend struct] *)
Record CompositeBackend := {
  routes : gmap string Backend;
}.

(** The order in which [range] visits the routes. *)
Variable range : gmap string Backend -> list (string * Backend).
Hypothesis range_perm : forall m, range m ≡ₚ map_to_list m.

(** [func NewCompositeBackend() *CompositeBackend] *)
Definition NewCompositeBackend : CompositeBackend := {| routes := ∅ |}.

(** [func normalizePath(p string) string] *)
Definition normalizePath (p : string) : string :=
  if decide (p = "") then "/"
  else
    let clean := Clean p in
    if decide (clean = ".") then "/"
    else if negb (HasPrefix clean "/") then ("/" ++ clean)%string
    else clean.

(** [func normalizePrefix(prefix string) string] *)
Definition normalizePrefix (prefix : string) : string :=
  let p := normalizePath prefix in
  if decide (p = "/") then p
  else if negb (HasSuffix p "/") then p
  else p.

(** [func (b *CompositeBackend) AddRoute(prefix string, backend Backend) error];
    [backend] is [None] for a nil interface. *)
Definition AddRoute (b : CompositeBackend) (prefix : string)
    (backend : option Backend) : CompositeBackend * option error :=
  match backend with
  | None => (b, Some (New "session: backend cannot be nil"))
  | Some backend =>
      let norm := normalizePrefix prefix in
      if decide (norm = "") then (b, Some (New "session: prefix cannot be empty"))
      else ({| routes := <[norm := backend]> (routes b) |}, None)
  end.

(** One turn of the loop of [Route], on the variables [matched] and
    [maxLen]. *)
Definition routeStep (path : string) (acc : option Backend * nat)
    (route : string * Backend) : option Backend * nat :=
  let '(prefix, backend) := route in
  if HasPrefix path prefix && (acc.2 <? String.length prefix)
  then (Some backend, String.length prefix)
  else acc.

(** [func (b *CompositeBackend) Route(p string) Backend]; the receiver is
    [None] for a nil pointer. *)
Definition Route (b : option CompositeBackend) (p : string) : option Backend :=
  match b with
  | None => None
  | Some b =>
      let path := normalizePath p in
      (foldl (routeStep path) (None, 0) (range (routes b))).1
  end.

(** [func (b *CompositeBackend) routeOrErr(path string) (Backend, error)] *)
Definition routeOrErr (b : CompositeBackend) (path : string)
    : option Backend * option error :=
  match Route (Some b) path with
  | None => (None, Some (Wrap ErrNoBackendRoute (normalizePath path)))
  | Some backend => (Some backend, None)
  end.

(** [func (b *CompositeBackend) Read(path string) ([]byte, error)] *)
Definition Read (b : CompositeBackend) (path : string) (w : World)
    : (list Byte.byte * option error) * World :=
  match routeOrErr b path with
  | (Some backend, None) => b_Read backend (normalizePath path) w
  | (_, err) => (([], err), w)
  end.

(** [func (b *CompositeBackend) Write(path string, data []byte) error] *)
Definition Write (b : CompositeBackend) (path : string) (data : list Byte.byte)
    (w : World) : option error * World :=
  match routeOrErr b path with
  | (Some backend, None) => b_Write backend (normalizePath path) data w
  | (_, err) => (err, w)
  end.

(** [func (b *CompositeBackend) List(prefix string) ([]string, error)] *)
Definition List (b : CompositeBackend) (prefix : string) (w : World)
    : (list string * option error) * World :=
  match routeOrErr b prefix with
  | (Some backend, None) => b_List backend (normalizePath prefix) w
  | (_, err) => (([], err), w)
  end.

(** [func (b *CompositeBackend) Delete(path string) error] *)
Definition Delete (b : CompositeBackend) (path : string) (w : World)
    : option error * World :=
  match routeOrErr b path with
  | (Some backend, None) => b_Delete backend (normalizePath path) w
  | (_, err) => (err, w)
  end.

End Composite.

Arguments b_Read {World} _ _ _.
Arguments b_Write {World} _ _ _ _.
Arguments b_List {World} _ _ _.
Arguments b_Delete {World} _ _ _.
Arguments routes {World} _.
Arguments NewCompositeBackend {World}.
Arguments AddRoute {World} _ _ _ _.
Arguments routeStep {World} _ _ _.
Arguments Route {World} _ _ _ _.
Arguments routeOrErr {World} _ _ _ _.
Arguments Read {World} _ _ _ _ _.
Arguments Write {World} _ _ _ _ _ _.
Arguments List {World} _ _ _ _ _.
Arguments Delete {World} _ _ _ _ _.

End SessionBackend.

(** ** pkg/event: bookmarks *)

Module Event.

Section Bookmark.

(** The values of [any] that are neither nil, nor [[]byte], nor
    [json.RawMessage], and what [json.Marshal] makes of them: the bytes or
    an error. *)
Variable Value : Type.
Variable MarshalError : Type.
Variable Marshal : Value -> list Byte.byte + MarshalError.

(** What [json.Unmarshal] decodes into, and [json.Unmarshal] itself. *)
Variable Target : Type.
Variable UnmarshalError : Type.
Variable Unmarshal : list Byte.byte -> Target -> Target * option UnmarshalError.

(** A [state any] argument, by dynamic type. *)
Inductive State : Type :=
| StateNil
| StateBytes (v : list Byte.byte)        (* []byte *)
| StateRaw (v : list Byte.byte)          (* json.RawMessage *)
| StateValue (v : Value).

(** The errors of the package, by the format of their message. *)
Inductive error : Type :=
| errNilBookmark                          (* "bookmark: nil reference" *)
| ErrEmptyID                              (* "bookmark: id is empty" *)
| ErrInvalidPosition (position : Z)       (* "bookmark: invalid position %d" *)
| ErrRollback (current position : Z)      (* "bookmark: position rollback %d -> %d" *)
| ErrMarshalState (cause : MarshalError)  (* "bookmark: marshal state: %w" *)
| ErrUnmarshal (cause : UnmarshalError).  (* what json.Unmarshal returns *)

(** [type Bookmark struct]; [Position] is an [int64]. *)
Record Bookmark := {
  ID : string;
  Position : Z;
  State_ : list Byte.byte;
}.

(** [func encodeState(state any) ([]byte, error)] *)
Definition encodeState (state : State) : list Byte.byte * option error :=
  match state with
  | StateNil => ([], None)
  | StateBytes v => (v, None)
  | StateRaw v => (v, None)
  | StateValue v =>
      match Marshal v with
      | inl data => (data, None)
      | inr err => ([], Some (ErrMarshalState err))
      end
  end.

(** [func NewBookmark(id string, position int64, state any) ( *Bookmark, error)] *)
Definition NewBookmark (id : string) (position : Z) (state : State)
    : option Bookmark * option error :=
  let id := GoStrings.TrimSpace id in
  if decide (id = "") then (None, Some ErrEmptyID)
  else if (position <? 0)%Z then (None, Some (ErrInvalidPosition position))
  else
    match encodeState state with
    | (_, Some err) => (None, Some err)
    | (snapshot, None) =>
        (Some {| ID := id; Position := position; State_ := snapshot |}, None)
    end.

(** [func (b *Bookmark) Clone() *Bookmark] *)
Definition Clone (b : option Bookmark) : option Bookmark :=
  match b with
  | None => None
  | Some b =>
      let clone := b in
      if 0 <? length (State_ b)
      then Some {| ID := ID clone; Position := Position clone; State_ := State_ b |}
      else Some clone
  end.

(** [func (b *Bookmark) Snapshot(state any) error]; the bookmark after the
    call is returned with the error. *)
Definition Snapshot (b : option Bookmark) (state : State)
    : option Bookmark * option error :=
  match b with
  | None => (None, Some errNilBookmark)
  | Some b =>
      match encodeState state with
      | (_, Some err) => (Some b, Some err)
      | (snapshot, None) =>
          (Some {| ID := ID b; Position := Position b; State_ := snapshot |}, None)
      end
  end.

(** [func (b *Bookmark) Restore(target any) error]; the target after the
    call is returned with the error. *)
Definition Restore (b : option Bookmark) (target : option Target)
    : option Target * option error :=
  match b, target with
  | Some b, Some t =>
      if decide (length (State_ b) = 0) then (target, None)
      else let '(t', err) := Unmarshal (State_ b) t in (Some t', ErrUnmarshal <$> err)
  | _, _ => (target, None)
  end.

(** [func (b *Bookmark) Advance(position int64) error]; the bookmark after
    the call is returned with the error. *)
Definition Advance (b : option Bookmark) (position : Z)
    : option Bookmark * option error :=
  match b with
  | None => (None, Some errNilBookmark)
  | Some b =>
      if (position <? Position b)%Z
      then (Some b, Some (ErrRollback (Position b) position))
      else (Some {| ID := ID b; Position := position; State_ := State_ b |}, None)
  end.

End Bookmark.

Arguments StateNil {Value}.
Arguments StateBytes {Value} v.
Arguments StateRaw {Value} v.
Arguments StateValue {Value} v.
Arguments errNilBookmark {MarshalError UnmarshalError}.
Arguments ErrEmptyID {MarshalError UnmarshalError}.
Arguments ErrInvalidPosition {MarshalError UnmarshalError} position.
Arguments ErrRollback {MarshalError UnmarshalError} current position.
Arguments ErrMarshalState {MarshalError UnmarshalError} cause.
Arguments ErrUnmarshal {MarshalError UnmarshalError} cause.
Arguments encodeState {Value MarshalError} Marshal {UnmarshalError} state.
Arguments NewBookmark {Value MarshalError} Marshal {UnmarshalError} id position state.
Arguments Snapshot {Value MarshalError} Marshal {UnmarshalError} b state.
Arguments Restore {MarshalError Target UnmarshalError} Unmarshal b target.
Arguments Advance {MarshalError UnmarshalError} b position.

End Event.

(** ** pkg/agent: run contexts, configuration, hooks and tool calls *)

Module Agent.

(** [type ApprovalMode int] and its constants. *)
Definition ApprovalMode := Z.
Definition ApprovalNone : ApprovalMode := 0%Z.
Definition ApprovalRequired : ApprovalMode := 1%Z.
Definition ApprovalAuto : ApprovalMode := 2%Z.

Definition defaultMaxIterations : Z := 1%Z.

(** [defaultTemperature = 0.7] as a [float64]: the float next to 0.7,
    [0x1.6666666666666p-1]. *)
Definition defaultTemperature : spec_float :=
  S754_finite false 6305039478318694 (-53).

Definition defaultStreamBuffer : Z := 4%Z.

(** [type RunContext struct]; [Timeout] is a [time.Duration], in
    nanoseconds. *)
Record RunContext := {
  SessionID : string;
  WorkDir : string;
  MaxIterations : Z;
  MaxTokens : Z;
  Timeout : Z;
  ApprovalMode_ : ApprovalMode;
  Temperature : spec_float;
}.

(** [RunContext{}] *)
Definition zeroRunContext : RunContext := {|
  SessionID := ""; WorkDir := ""; MaxIterations := 0%Z; MaxTokens := 0%Z;
  Timeout := 0%Z; ApprovalMode_ := 0%Z; Temperature := S754_zero false;
|}.

(** [f == 0] on a [float64]. *)
Definition isZero (f : spec_float) : bool := SFeqb f (S754_zero false).

(** [func (c RunContext) Normalize() RunContext] *)
Definition Normalize (c : RunContext) : RunContext :=
  let c := if (MaxIterations c <=? 0)%Z
           then {| SessionID := SessionID c; WorkDir := WorkDir c;
                   MaxIterations := defaultMaxIterations; MaxTokens := MaxTokens c;
                   Timeout := Timeout c; ApprovalMode_ := ApprovalMode_ c;
                   Temperature := Temperature c |}
           else c in
  let c := if (MaxTokens c <? 0)%Z
           then {| SessionID := SessionID c; WorkDir := WorkDir c;
                   MaxIterations := MaxIterations c; MaxTokens := 0%Z;
                   Timeout := Timeout c; ApprovalMode_ := ApprovalMode_ c;
                   Temperature := Temperature c |}
           else c in
  let c := if (Timeout c <? 0)%Z
           then {| SessionID := SessionID c; WorkDir := WorkDir c;
                   MaxIterations := MaxIterations c; MaxTokens := MaxTokens c;
                   Timeout := 0%Z; ApprovalMode_ := ApprovalMode_ c;
                   Temperature := Temperature c |}
           else c in
  if isZero (Temperature c)
  then {| SessionID := SessionID c; WorkDir := WorkDir c;
          MaxIterations := MaxIterations c; MaxTokens := MaxTokens c;
          Timeout := Timeout c; ApprovalMode_ := ApprovalMode_ c;
          Temperature := defaultTemperature |}
  else c.

(** [func (c RunContext) Merge(override RunContext) RunContext] *)
Definition Merge (c override : RunContext) : RunContext :=
  let merged := c in
  let merged := if decide (SessionID override <> "")
                then {| SessionID := SessionID override; WorkDir := WorkDir merged;
                        MaxIterations := MaxIterations merged;
                        MaxTokens := MaxTokens merged; Timeout := Timeout merged;
                        ApprovalMode_ := ApprovalMode_ merged;
                        Temperature := Temperature merged |}
                else merged in
  let merged := if decide (WorkDir override <> "")
                then {| SessionID := SessionID merged; WorkDir := WorkDir override;
                        MaxIterations := MaxIterations merged;
                        MaxTokens := MaxTokens merged; Timeout := Timeout merged;
                        ApprovalMode_ := ApprovalMode_ merged;
                        Temperature := Temperature merged |}
                else merged in
  let merged := if (0 <? MaxIterations override)%Z
                then {| SessionID := SessionID merged; WorkDir := WorkDir merged;
                        MaxIterations := MaxIterations override;
                        MaxTokens := MaxTokens merged; Timeout := Timeout merged;
                        ApprovalMode_ := ApprovalMode_ merged;
                        Temperature := Temperature merged |}
                else merged in
  let merged := if (0 <? MaxTokens override)%Z
                then {| SessionID := SessionID merged; WorkDir := WorkDir merged;
                        MaxIterations := MaxIterations merged;
                        MaxTokens := MaxTokens override; Timeout := Timeout merged;
                        ApprovalMode_ := ApprovalMode_ merged;
                        Temperature := Temperature merged |}
                else merged in
  let merged := if (0 <? Timeout override)%Z
                then {| SessionID := SessionID merged; WorkDir := WorkDir merged;
                        MaxIterations := MaxIterations merged;
                        MaxTokens := MaxTokens merged; Timeout := Timeout override;
                        ApprovalMode_ := ApprovalMode_ merged;
                        Temperature := Temperature merged |}
                else merged in
  let merged := if negb (ApprovalMode_ override =? 0)%Z
                then {| SessionID := SessionID merged; WorkDir := WorkDir merged;
                        MaxIterations := MaxIterations merged;
                        MaxTokens := MaxTokens merged; Timeout := Timeout merged;
                        ApprovalMode_ := ApprovalMode_ override;
                        Temperature := Temperature merged |}
                else merged in
  let merged := if negb (isZero (Temperature override))
                then {| SessionID := SessionID merged; WorkDir := WorkDir merged;
                        MaxIterations := MaxIterations merged;
                        MaxTokens := MaxTokens merged; Timeout := Timeout merged;
                        ApprovalMode_ := ApprovalMode_ merged;
                        Temperature := Temperature override |}
                else merged in
  Normalize merged.

(** A [context.Context] that is not nil, as far as the package reads it:
    the value under [runContextKey{}], if there is one. *)
Record Context := {
  runContextValue : option RunContext;
}.

(** [context.Background()] *)
Definition Background : Context := {| runContextValue := None |}.

(** [func WithRunContext(ctx context.Context, rc RunContext) context.Context];
    [ctx] is [None] for a nil context. *)
Definition WithRunContext (ctx : option Context) (rc : RunContext) : Context :=
  let ctx := match ctx with None => Background | Some ctx => ctx end in
  {| runContextValue := Some (Normalize rc) |}.

(** [func GetRunContext(ctx context.Context) (RunContext, bool)] *)
Definition GetRunContext (ctx : option Context) : RunContext * bool :=
  match ctx with
  | None => (zeroRunContext, false)
  | Some ctx =>
      match runContextValue ctx with
      | Some rc => (rc, true)
      | None => (zeroRunContext, false)
      end
  end.

(** [type Config struct] *)
Record Config := {
  Name : string;
  Description : string;
  DefaultContext : RunContext;
  StreamBuffer : Z;
}.

(** [func (c Config) ResolveContext(override RunContext) RunContext] *)
Definition ResolveContext (c : Config) (override : RunContext) : RunContext :=
  Merge (DefaultContext c) override.

(** [func (c Config) streamBuffer() int] *)
Definition streamBuffer (c : Config) : Z :=
  if (StreamBuffer c <=? 0)%Z then defaultStreamBuffer else StreamBuffer c.

Section Hooks.

(** What hooks and tools can read and change, with its clock. *)
Variable World : Type.
Variable now : World -> Z.

(** The errors that hooks return, and their messages. *)
Variable HookError : Type.
Variable hookErrorText : HookError -> string.

(** The messages of the errors of tools. *)
Variable toolErrorText : Tool.error -> string.

(** The values of Go's [error] interface that reach the package. *)
Inductive error : Type :=
| ErrorsNew (text : string)                (* errors.New(text) *)
| ErrStreamBuffer (n : Z)                  (* "stream_buffer cannot be negative: %d" *)
| ErrToolNotRegistered (name : string)     (* "tool %s not registered" *)
| ErrToolAlreadyRegistered (name : string) (* "tool %s already registered" *)
| OfHook (e : HookError)
| OfTool (e : Tool.error)
| Join (errs : list error).                (* what errors.Join builds *)

(** [errors.Join]: nil errors are dropped, and the result is nil when none
    is left. *)
Definition errorsJoin (errs : list (option error)) : option error :=
  match omap (fun e => e) errs with
  | [] => None
  | es => Some (Join es)
  end.

(** [func (c *Config) Validate() error]; the configuration after the call
    is returned with the error. *)
Definition Validate (c : option Config) : option Config * option error :=
  match c with
  | None => (None, Some (ErrorsNew "config is nil"))
  | Some c =>
      if decide (GoStrings.TrimSpace (Name c) = "")
      then (Some c, Some (ErrorsNew "config name is required"))
      else if (StreamBuffer c <? 0)%Z
      then (Some c, Some (ErrStreamBuffer (StreamBuffer c)))
      else (Some {| Name := Name c; Description := Description c;
                    DefaultContext := Normalize (DefaultContext c);
                    StreamBuffer := StreamBuffer c |}, None)
  end.

(** [type ToolCall struct] *)
Record ToolCall := {
  tc_Name : string;
  tc_Params : gmap string Tool.GoValue;
  tc_Output : option Tool.ToolResult;
  tc_Error : string;
  tc_Duration : Z;
  tc_Metadata : option (gmap string Tool.GoValue);
}.

(** [type Hook interface], the two methods around a tool call. A hook, like
    the body of a tool, is taken to leave the maps and results that it is
    handed as they are. *)
Record Hook := {
  PreToolCall : string -> gmap string Tool.GoValue -> World -> option error * World;
  PostToolCall : string -> ToolCall -> World -> option error * World;
}.

(** [type basicAgent struct]; the lock is not modelled. [tools] is [None]
    for a nil map. *)
Record basicAgent := {
  cfg : Config;
  hooks : list Hook;
  tools : option (gmap string (Tool.Tool World));
}.

(** [func New(cfg Config) (Agent, error)] *)
Definition New (cfg : Config) : option basicAgent * option error :=
  match Validate (Some cfg) with
  | (_, Some err) => (None, Some err)
  | (cfg', None) => (Some {| cfg := default cfg cfg'; hooks := []; tools := Some ∅ |}, None)
  end.

(** The loop of [runHooks], from a value of [joined]. *)
Fixpoint runHooksFrom {H : Type} (hooks : list H) (collect : bool)
    (fn : H -> World -> option error * World) (joined : option error) (w : World)
    : option error * World :=
  match hooks with
  | [] => (joined, w)
  | hook :: rest =>
      match fn hook w with
      | (Some err, w') =>
          if negb collect then (Some err, w')
          else runHooksFrom rest collect fn (errorsJoin [joined; Some err]) w'
      | (None, w') => runHooksFrom rest collect fn joined w'
      end
  end.

(** [func runHooks(hooks []Hook, collect bool, fn func(Hook) error) error] *)
Definition runHooks {H : Type} (hooks : list H) (collect : bool)
    (fn : H -> World -> option error * World) (w : World) : option error * World :=
  runHooksFrom hooks collect fn None w.

(** [error.Error()] *)
Fixpoint Error (e : error) : string :=
  match e with
  | ErrorsNew text => text
  | ErrStreamBuffer n =>
      "stream_buffer cannot be negative: " ++ NilZero.string_of_int (Z.to_int n)
  | ErrToolNotRegistered name => "tool " ++ name ++ " not registered"
  | ErrToolAlreadyRegistered name => "tool " ++ name ++ " already registered"
  | OfHook e => hookErrorText e
  | OfTool e => toolErrorText e
  | Join errs => String.concat (String (ascii_of_nat 10) "") (List.map Error errs)
  end%string.

(** [func (a *basicAgent) AddTool(t tool.Tool) error]; the agent after the
    call is returned with the error. *)
Definition AddTool (a : basicAgent) (t : option (Tool.Tool World))
    : basicAgent * option error :=
  match t with
  | None => (a, Some (ErrorsNew "tool is nil"))
  | Some t =>
      let name := GoStrings.TrimSpace (Tool.Name t) in
      if decide (name = "") then (a, Some (ErrorsNew "tool name is empty"))
      else
        let registered := default ∅ (tools a) in
        match registered !! name with
        | Some _ =>
            ({| cfg := cfg a; hooks := hooks a; tools := Some registered |},
             Some (ErrToolAlreadyRegistered name))
        | None =>
            ({| cfg := cfg a; hooks := hooks a;
                tools := Some (<[name := t]> registered) |}, None)
        end
  end.

(** [func (a *basicAgent) invokePostToolHooks(ctx, name, call) error] *)
Definition invokePostToolHooks (a : basicAgent) (name : string) (call : ToolCall)
    (w : World) : option error * World :=
  runHooks (hooks a) true (fun h => PostToolCall h name call) w.

(** [func (a *basicAgent) executeTool(ctx, name, params) (ToolCall, error)] *)
Definition executeTool (a : basicAgent) (name : string) (params : Tool.Params)
    (w : World) : (ToolCall * option error) * World :=
  let call := {| tc_Name := name; tc_Params := default ∅ params; tc_Output := None;
                 tc_Error := ""; tc_Duration := 0%Z; tc_Metadata := None |} in
  match tools a ≫= (.!! name) with
  | None => ((call, Some (ErrToolNotRegistered name)), w)
  | Some impl =>
      match runHooks (hooks a) false
              (fun h => PreToolCall h name (tc_Params call)) w with
      | (Some err, w1) => ((call, Some err), w1)
      | (None, w1) =>
          let started := now w1 in
          let '((output, err), w2) := Tool.Run impl (Some (tc_Params call)) w1 in
          let err := OfTool <$> err in
          let call := {| tc_Name := name; tc_Params := tc_Params call;
                         tc_Output := output;
                         tc_Error := match err with Some e => Error e | None => "" end;
                         tc_Duration := (now w2 - started)%Z;
                         tc_Metadata := None |} in
          match invokePostToolHooks a name call w2 with
          | (Some hookErr, w3) =>
              ((if decide (tc_Error call = "")
                then {| tc_Name := tc_Name call; tc_Params := tc_Params call;
                        tc_Output := tc_Output call; tc_Error := Error hookErr;
                        tc_Duration := tc_Duration call;
                        tc_Metadata := tc_Metadata call |}
                else call,
                errorsJoin [err; Some hookErr]), w3)
          | (None, w3) => ((call, err), w3)
          end
      end
  end.

(** [errors.Is], through what [errors.Join] builds. *)
Fixpoint errorsIs (e target : error) : Prop :=
  e = target \/
  match e with
  | Join errs =>
      (fix any (l : list error) : Prop :=
         match l with
         | [] => False
         | e' :: l' => errorsIs e' target \/ any l'
         end) errs
  | _ => False
  end.

End Hooks.

Arguments ErrorsNew {HookError} text.
Arguments ErrStreamBuffer {HookError} n.
Arguments ErrToolNotRegistered {HookError} name.
Arguments ErrToolAlreadyRegistered {HookError} name.
Arguments OfHook {HookError} e.
Arguments OfTool {HookError} e.
Arguments Join {HookError} errs.
Arguments errorsJoin {HookError} errs.
Arguments errorsIs {HookError} e target.
Arguments Validate {HookError} c.
Arguments PreToolCall {World HookError} _ _ _ _.
Arguments PostToolCall {World HookError} _ _ _ _.
Arguments cfg {World HookError} _.
Arguments hooks {World HookError} _.
Arguments tools {World HookError} _.
Arguments New {World HookError} cfg.
Arguments runHooksFrom {World HookError H} hooks collect fn joined w.
Arguments runHooks {World HookError H} hooks collect fn w.
Arguments Error {HookError} hookErrorText toolErrorText e.
Arguments AddTool {World HookError} a t.
Arguments invokePostToolHooks {World HookError} a name call w.
Arguments executeTool {World} now {HookError} hookErrorText toolErrorText a name params w.

End Agent.

(** ** pkg/tool/builtin: the todo list tool *)

Module TodoWrite.
Import Tool.

(** [var todoWriteSchema] *)
Definition todoWriteSchema : JSONSchema := {|
  Type_ := "object";
  Properties :=
    {[ "todos" :=
         VMap {[ "type" := VString "array";
                 "items" :=
                   VMap {[ "type" := VString "object";
                           "properties" :=
                             VMap {[ "content" :=
                                       VMap {[ "type" := VString "string";
                                               "minLength" := VInt 1 ]};
                                     "status" :=
                                       VMap {[ "type" := VString "string";
                                               "enum" := VOther "[]string" ]};
                                     "activeForm" :=
                                       VMap {[ "type" := VString "string";
                                               "minLength" := VInt 1 ]} ]};
                           "required" := VOther "[]string" ]};
                 "description" := VString "The updated todo list" ]} ]};
  Required := ["todos"];
|}.

(** [type TodoItem struct] *)
Record TodoItem := {
  Content : string;
  Status : string;
  ActiveForm : string;
}.

(** [type TodoWriteTool struct]; the lock is not modelled, [revision] is
    a [uint64]. *)
Record TodoWriteTool := {
  todos : list TodoItem;
  revision : N;
}.

(** [func NewTodoWriteTool() *TodoWriteTool] *)
Definition NewTodoWriteTool : TodoWriteTool := {| todos := []; revision := 0%N |}.

(** What [ctx.Err()] returns when it is not nil. *)
Inductive ctxError : Type := Canceled | DeadlineExceeded.

(** An [int] after an addition: two's complement on 64 bits. *)
Definition wrapInt (z : Z) : Z := ((z + 2 ^ 63) mod 2 ^ 64 - 2 ^ 63)%Z.

(** [%d] of [fmt]. *)
Definition formatInt (z : Z) : string := NilZero.string_of_int (Z.to_int z).

Definition newline : string := String (ascii_of_nat 10) "".

(** [strings.TrimRight(s, "\n")] *)
Definition trimRightNewlines (s : string) : string :=
  GoStrings.reverseString
    (GoStrings.trimPrefixes (String.length s) [newline] (GoStrings.reverseString s)).

Section Parse.

(** [coerceString], of the same package, and its errors. *)
Variable CoerceError : Type.
Variable coerceString : GoValue -> string + CoerceError.

(** [strings.ToLower] *)
Variable ToLower : string -> string.

(** The elements of a value of another dynamic type, by the name of the
    type, when the type is [[]map[string]interface{}]: what the type
    assertion [raw.([]map[string]interface{})] gives. *)
Variable mapSlice : string -> option (list (gmap string GoValue)).

(** The errors of [readRequiredString]. *)
Inductive fieldError : Type :=
| ErrFieldRequired                       (* "field is required" *)
| ErrMustBeString (cause : CoerceError)  (* "must be string: %w" *)
| ErrCannotBeEmpty.                      (* "cannot be empty" *)

(** The errors of the tool. *)
Inductive error : Type :=
| ErrContextNil                          (* "context is nil" *)
| ErrParamsNil                           (* "params is nil" *)
| ErrTodosRequired                       (* "todos is required" *)
| ErrTodosNotArray (got : GoValue)       (* "todos must be an array, got %T" *)
| ErrTodoNotObject (i : nat) (got : GoValue)
                                         (* "todos[%d] must be object, got %T" *)
| ErrTodoField (i : nat) (field : string) (cause : fieldError)
                                         (* "todos[%d].<field>: %w" *)
| ErrTodoStatus (i : nat)
    (* "todos[%d].status must be one of pending, in_progress, completed" *)
| ErrContext (cause : ctxError).         (* what ctx.Err() returns *)

(** [func readRequiredString(obj, key) (string, error)] *)
Definition readRequiredString (obj : gmap string GoValue) (key : string)
    : string + fieldError :=
  match obj !! key with
  | None => inr ErrFieldRequired
  | Some raw =>
      match coerceString raw with
      | inr err => inr (ErrMustBeString err)
      | inl value =>
          let value := GoStrings.TrimSpace value in
          if decide (value = "") then inr ErrCannotBeEmpty else inl value
      end
  end.

(** [func normalizeStatus(value string) string] *)
Definition normalizeStatus (value : string) : string :=
  let v := ToLower (GoStrings.TrimSpace value) in
  if decide (v = "pending") then "pending"
  else if decide (v = "in_progress" \/ v = "in-progress") then "in_progress"
  else if decide (v = "completed" \/ v = "complete" \/ v = "done") then "completed"
  else "".

(** The loop of [parseTodoItems], from the index [i]. *)
Fixpoint parseEntries (i : nat) (entries : list GoValue)
    : list TodoItem * option error :=
  match entries with
  | [] => ([], None)
  | entry :: rest =>
      match entry with
      | VMap obj =>
          match readRequiredString obj "content" with
          | inr err => ([], Some (ErrTodoField i "content" err))
          | inl content =>
              match readRequiredString obj "status" with
              | inr err => ([], Some (ErrTodoField i "status" err))
              | inl status =>
                  match readRequiredString obj "activeForm" with
                  | inr err => ([], Some (ErrTodoField i "activeForm" err))
                  | inl activeForm =>
                      let status := normalizeStatus status in
                      if decide (status = "") then ([], Some (ErrTodoStatus i))
                      else
                        match parseEntries (S i) rest with
                        | (items, None) =>
                            ({| Content := content; Status := status;
                                ActiveForm := activeForm |} :: items, None)
                        | (_, Some err) => ([], Some err)
                        end
                  end
              end
          end
      | _ => ([], Some (ErrTodoNotObject i entry))
      end
  end.

(** [func parseTodoItems(params) ([]TodoItem, error)] *)
Definition parseTodoItems (params : Params) : list TodoItem * option error :=
  match params with
  | None => ([], Some ErrParamsNil)
  | Some params =>
      match params !! "todos" with
      | None => ([], Some ErrTodosRequired)
      | Some raw =>
          match raw with
          | VSlice entries => parseEntries 0 entries
          | VOther goType =>
              match mapSlice goType with
              | Some arr => parseEntries 0 (VMap <$> arr)
              | None => ([], Some (ErrTodosNotArray raw))
              end
          | _ => ([], Some (ErrTodosNotArray raw))
          end
      end
  end.

(** [func cloneTodos(items []TodoItem) []TodoItem] *)
Definition cloneTodos (items : list TodoItem) : list TodoItem :=
  if decide (length items = 0) then [] else items.

(** [func countByStatus(items []TodoItem) map[string]int] *)
Definition countByStatus (items : list TodoItem) : gmap string Z :=
  foldl (fun counts item =>
           <[Status item := wrapInt (default 0%Z (counts !! Status item) + 1)]> counts)
        {[ "pending" := 0%Z; "in_progress" := 0%Z; "completed" := 0%Z ]} items.

(** The loop of [formatTodoOutput], from the index [idx]. *)
Fixpoint formatItems (idx : nat) (items : list TodoItem) : string :=
  match items with
  | [] => ""
  | item :: rest =>
      (formatInt (Z.of_nat idx + 1) ++ ". [" ++ Status item ++ "] " ++ Content item
       ++ (if decide (GoStrings.TrimSpace (ActiveForm item) <> "")
           then " (form=" ++ ActiveForm item ++ ")" else "")
       ++ newline ++ formatItems (S idx) rest)%string
  end.

(** [func formatTodoOutput(items []TodoItem, counts map[string]int) string] *)
Definition formatTodoOutput (items : list TodoItem) (counts : gmap string Z) : string :=
  if decide (length items = 0) then "todo list cleared"
  else
    let count key := default 0%Z (counts !! key) in
    trimRightNewlines
      (formatInt (Z.of_nat (length items)) ++ " todos (pending:"
       ++ formatInt (count "pending") ++ ", in_progress:"
       ++ formatInt (count "in_progress") ++ ", completed:"
       ++ formatInt (count "completed") ++ ")" ++ newline
       ++ formatItems 0 items)%string.

(** [func (t *TodoWriteTool) store(items []TodoItem) ([]TodoItem, uint64)];
    the tool after the call comes last. *)
Definition store (t : TodoWriteTool) (items : list TodoItem)
    : (list TodoItem * N) * TodoWriteTool :=
  let t' := {| todos := cloneTodos items;
               revision := ((revision t + 1) mod 2 ^ 64)%N |} in
  ((cloneTodos (todos t'), revision t'), t').

(** [func (t *TodoWriteTool) Snapshot() []TodoItem] *)
Definition Snapshot (t : TodoWriteTool) : list TodoItem := cloneTodos (todos t).

(** [func (t *TodoWriteTool) Execute(ctx, params) ( *tool.ToolResult, error)];
    [ctx] is [None] for a nil context and holds what [ctx.Err()] returns
    otherwise. The result is the record that the pointer is to, with the
    entries of [Data] by their dynamic types. *)
Definition Execute (ctx : option (option ctxError)) (params : Params)
    (t : TodoWriteTool) : (option ToolResult * option error) * TodoWriteTool :=
  match ctx with
  | None => ((None, Some ErrContextNil), t)
  | Some ctxErr =>
      match parseTodoItems params with
      | (_, Some err) => ((None, Some err), t)
      | (items, None) =>
          match ctxErr with
          | Some err => ((None, Some (ErrContext err)), t)
          | None =>
              let '((snapshot, revision), t') := store t items in
              let counts := countByStatus snapshot in
              let output := formatTodoOutput snapshot counts in
              let data : gmap string GoValue :=
                {[ "todos" := VOther "[]toolbuiltin.TodoItem";
                   "counts" := VOther "map[string]int";
                   "revision" := VUint revision;
                   "total" := VInt (Z.of_nat (length snapshot)) ]} in
              ((Some {| Success := true; Output := output; Data := VMap data;
                        Error := None |}, None), t')
          end
      end
  end.

(** The messages of the errors, from [fmt]. *)
Variable errorText : error -> string.

(** The tool as a value of the [Tool] interface, called under [ctx]. *)
Definition asTool (ctx : option (option ctxError)) : Tool TodoWriteTool := {|
  Name := "TodoWrite";
  Schema := Some todoWriteSchema;
  Run params t :=
    let '((res, err), t') := Execute ctx params t in
    ((res, (fun e => ErrOther (errorText e)) <$> err), t');
|}.

End Parse.

Arguments ErrFieldRequired {CoerceError}.
Arguments ErrMustBeString {CoerceError} cause.
Arguments ErrCannotBeEmpty {CoerceError}.
Arguments ErrContextNil {CoerceError}.
Arguments ErrParamsNil {CoerceError}.
Arguments ErrTodosRequired {CoerceError}.
Arguments ErrTodosNotArray {CoerceError} got.
Arguments ErrTodoNotObject {CoerceError} i got.
Arguments ErrTodoField {CoerceError} i field cause.
Arguments ErrTodoStatus {CoerceError} i.
Arguments ErrContext {CoerceError} cause.
Arguments readRequiredString {CoerceError} coerceString obj key.
Arguments parseEntries {CoerceError} coerceString ToLower i entries.
Arguments parseTodoItems {CoerceError} coerceString ToLower mapSlice params.
Arguments Execute {CoerceError} coerceString ToLower mapSlice ctx params t.
Arguments asTool {CoerceError} coerceString ToLower mapSlice errorText ctx.

End TodoWrite.

(** * Properties *)

(** ** The tool registry *)

Module ToolFacts.

Import Tool.

Section ValidatorFacts.

Variable range : gmap string GoValue -> list (string * GoValue).
Hypothesis range_perm : forall m, range m ≡ₚ map_to_list m.
Variable parsesFloat64 : string -> bool.
Variable parsesInt64 : string -> bool.

Abbreviation conforms := (conforms parsesFloat64 parsesInt64).
Abbreviation validateType := (validateType parsesFloat64 parsesInt64).
Abbreviation checkProperties := (checkProperties parsesFloat64 parsesInt64).
Abbreviation Validate := (Validate range parsesFloat64 parsesInt64).

(** [validateType] accepts a value exactly when it conforms to the type. *)
Lemma validateType_accepts value expected :
  validateType value expected = None <-> conforms value expected.
Proof.
  split.
  - unfold Tool.validateType.
    repeat case_decide; subst; destruct value; simpl;
      try discriminate; try (intros _; by constructor);
      repeat match goal with
             | |- context [if ?b then _ else _] => destruct b eqn:?
             end; try discriminate; intros _; by constructor.
  - destruct 1; unfold Tool.validateType; simpl;
      repeat (case_decide; [try discriminate | try congruence]);
      try done; simpl;
      repeat match goal with H : _ = true |- _ => rewrite H end; done.
Qed.

Lemma validateType_rejects value expected :
  ~ conforms value expected -> is_Some (validateType value expected).
Proof.
  intros Hwrong. destruct (validateType value expected) eqn:E; [by eexists|].
  apply validateType_accepts in E. contradiction.
Qed.

Lemma checkRequired_missing params required field :
  field ∈ required -> params !! field = None ->
  is_Some (checkRequired params required).
Proof.
  induction required as [|f rest IH]; intros Hin Hnone.
  - by apply elem_of_nil in Hin.
  - simpl. destruct (params !! f) eqn:E; [|by eexists].
    apply elem_of_cons in Hin as [->|Hin]; [congruence|auto].
Qed.

Lemma checkProperties_wrong properties entries key value def :
  (key, value) ∈ entries ->
  properties !! key = Some def ->
  extractExpectedType def <> "" ->
  ~ conforms value (extractExpectedType def) ->
  is_Some (checkProperties properties entries).
Proof.
  intros Hin Hdef Hty Hwrong.
  induction entries as [|[k v] rest IH].
  - by apply elem_of_nil in Hin.
  - simpl. apply elem_of_cons in Hin as [Heq|Hin].
    + injection Heq as <- <-. rewrite Hdef. case_decide; [done|].
      destruct (validateType_rejects _ _ Hwrong) as [e ->]. by eexists.
    + destruct (properties !! k) as [d|]; [|auto].
      case_decide; [auto|].
      destruct (validateType v (extractExpectedType d)); [by eexists|auto].
Qed.

(** The default validator rejects parameters that lack a required field or
    that give a declared property a value of another type, in whatever
    order the parameters are visited. *)
Lemma Validate_rejects params schema :
  (exists field, field ∈ Required schema /\ default ∅ params !! field = None) \/
  (exists key value def,
      default ∅ params !! key = Some value /\
      Properties schema !! key = Some def /\
      extractExpectedType def <> "" /\
      ~ conforms value (extractExpectedType def)) ->
  is_Some (Validate params (Some schema)).
Proof.
  intros H. unfold Tool.Validate.
  destruct (checkRequired (default ∅ params) (Required schema)) eqn:Ereq;
    [by eexists|].
  destruct H as [(field & Hin & Hnone)|(key & value & def & Hp & Hd & Hty & Hw)].
  - destruct (checkRequired_missing _ _ _ Hin Hnone) as [e He]. congruence.
  - case_decide as Hsize.
    + apply map_size_empty_iff in Hsize. rewrite Hsize in Hd.
      by rewrite lookup_empty in Hd.
    + eapply checkProperties_wrong; eauto.
      rewrite range_perm. by apply elem_of_map_to_list.
Qed.

End ValidatorFacts.

Section RegistryFacts.

Context {World : Type}.

Lemma Execute_found (r : Registry World) name tool :
  tools r !! name = Some tool -> Get r name = (Some tool, None).
Proof. intros H. unfold Get. by rewrite H. Qed.

(** C8. [Register] fails and leaves the registry as it is when the tool is
    nil, when its name is empty, and when a tool of that name is registered
    already; in the last case the tool that was registered stays. *)
Theorem Register_rejects_and_keeps (r : Registry World) (tool : option (Tool World)) :
  (tool = None -> Register r tool = (Some ErrToolNil, r)) /\
  (forall t, tool = Some t -> Name t = "" ->
     Register r tool = (Some ErrToolNameEmpty, r)) /\
  (forall t existing, tool = Some t -> tools r !! Name t = Some existing ->
     exists e, Register r tool = (Some e, r) /\
               Get (Register r tool).2 (Name t) = (Some existing, None)).
Proof.
  split; [|split].
  - by intros ->.
  - intros t -> Hname. unfold Register. by case_decide.
  - intros t existing -> Hex. unfold Register.
    case_decide.
    + eexists. split; [done|]. simpl. by apply Execute_found.
    + rewrite Hex. eexists. split; [done|]. simpl. by apply Execute_found.
Qed.

End RegistryFacts.

(** An instance of C8: a second tool named echo is refused and the first
    one stays. *)
Lemma Register_rejects_and_keeps_witness :
  let echo : Tool unit :=
    {| Name := "echo"; Schema := None; Run := fun _ w => ((None, None), w) |} in
  let r := (Register (NewRegistry (fun _ _ => None)) (Some echo)).2 in
  exists e, Register r (Some echo) = (Some e, r) /\
            Get (Register r (Some echo)).2 "echo" = (Some echo, None).
Proof.
  intros echo r.
  apply (proj2 (proj2 (Register_rejects_and_keeps r (Some echo))) echo echo);
    reflexivity.
Defined.

Section ExecuteFacts.

Context {World : Type}.
Variable range : gmap string GoValue -> list (string * GoValue).
Hypothesis range_perm : forall m, range m ≡ₚ map_to_list m.
Variable parsesFloat64 : string -> bool.
Variable parsesInt64 : string -> bool.

(** What [Execute] leaves when the validation has failed with [e]: the
    error, nothing run, the world as it was. *)
Definition refused (name : string) (e : error) (w : World) : Outcome World :=
  {| result := None; err := Some (ErrValidationFailed name e);
     world := w; invoked := [] |}.

(** What [Execute] leaves when it has run the body of the tool. *)
Definition ran (name : string) (tool : Tool World) (params : Params) (w : World)
  : Outcome World :=
  {| result := (Run tool params w).1.1; err := (Run tool params w).1.2;
     world := (Run tool params w).2; invoked := [name] |}.

(** C9. For a registered tool with a schema, [Execute] returns the error of
    the validator, wrapped, and does not run the body of the tool whenever
    the validator rejects the parameters; the default validator rejects
    parameters that lack a required field or that give a declared property
    a value of another type; without a schema the body is run. *)
Theorem Execute_validates_before_running (r : Registry World) (name : string)
  (tool : Tool World) (params : Params) (w : World) :
  tools r !! name = Some tool ->
  (forall schema v e,
      Schema tool = Some schema -> validator r = Some v ->
      v params (Some schema) = Some e ->
      Execute r name params w = refused name e w) /\
  (forall schema,
      Schema tool = Some schema ->
      validator r = Some (Validate range parsesFloat64 parsesInt64) ->
      (exists field, field ∈ Required schema /\ default ∅ params !! field = None) \/
      (exists key value def,
          default ∅ params !! key = Some value /\
          Properties schema !! key = Some def /\
          extractExpectedType def <> "" /\
          ~ conforms parsesFloat64 parsesInt64 value (extractExpectedType def)) ->
      exists e, Execute r name params w = refused name e w) /\
  (Schema tool = None -> Execute r name params w = ran name tool params w).
Proof.
  intros Hreg.
  assert (Hrefuse : forall schema v e,
             Schema tool = Some schema -> validator r = Some v ->
             v params (Some schema) = Some e ->
             Execute r name params w = refused name e w).
  { intros schema v e Hs Hv He. unfold Execute.
    rewrite (Execute_found _ _ _ Hreg), Hs, Hv, He. reflexivity. }
  split; [exact Hrefuse|split].
  - intros schema Hs Hv Hbad.
    destruct (Validate_rejects range range_perm parsesFloat64 parsesInt64
                params schema Hbad) as [e He].
    exists e. exact (Hrefuse schema _ e Hs Hv He).
  - intros Hs. unfold Execute, ran.
    rewrite (Execute_found _ _ _ Hreg), Hs.
    by destruct (Run tool params w) as [[res e] w'].
Qed.

End ExecuteFacts.

(** The tool of the file tool's kind: a required string path. *)
Definition pathSchema : JSONSchema :=
  {| Type_ := "object";
     Properties := {[ "path" := VMap {[ "type" := VString "string" ]} ]};
     Required := ["path"] |}.

Definition writeTool : Tool nat :=
  {| Name := "file"; Schema := Some pathSchema;
     Run := fun _ w => ((None, None), S w) |}.

Definition writeRegistry : Registry nat :=
  (Register (NewRegistry (Validate map_to_list (fun _ => true) (fun _ => true)))
     (Some writeTool)).2.

(** An instance of C9: a path that is a number is refused and the body of
    the tool is not run. *)
Lemma Execute_validates_before_running_witness :
  exists e,
    Execute writeRegistry "file" (Some {[ "path" := VInt 7 ]}) 0
    = refused "file" e 0.
Proof.
  refine (proj1 (proj2 (Execute_validates_before_running
            map_to_list (fun m => reflexivity _) (fun _ => true) (fun _ => true)
            writeRegistry "file" writeTool (Some {[ "path" := VInt 7 ]}) 0
            eq_refl)) pathSchema eq_refl eq_refl _).
  right. exists "path", (VInt 7), (VMap {[ "type" := VString "string" ]}).
  split; [reflexivity|]. split; [reflexivity|]. split; [discriminate|].
  inversion 1.
Defined.

End ToolFacts.

(** ** The in-memory session *)

Module SessionFacts.

Import Session.

(** The session of the tests, with one message, then closed. *)
Definition chat : MemorySession :=
  {| id := "chat"; messages := []; checkpoints := Some ∅; seq := 0;
     closed := false |}.

Definition hello : Message :=
  {| ID := ""; Role := "user"; Content := "hi"; ToolCalls := []; Timestamp := 0%Z |}.

Definition closedChat : MemorySession := (Close (Append chat 1700%Z hello).2).2.

(** The identifier that [Append] gives to the first message, as in
    [TestMemorySessionAppend]. *)
Example Append_fills_id :
  ID <$> messages (Append chat 1700%Z hello).2 = ["chat-000001"].
Proof. reflexivity. Qed.

Lemma normalizeCheckpointName_blank name :
  GoStrings.TrimSpace name = "" ->
  normalizeCheckpointName name = ("", Some ErrInvalidCheckpointName).
Proof. intros H. unfold normalizeCheckpointName. by case_decide. Qed.

Lemma normalizeCheckpointName_ok name :
  GoStrings.TrimSpace name <> "" ->
  normalizeCheckpointName name = (GoStrings.TrimSpace name, None).
Proof. intros H. unfold normalizeCheckpointName. by case_decide. Qed.

(** On a closed session an operation whose argument is blank fails on its
    argument, not with [ErrSessionClosed]: [Append] of a message without a
    role after [Close]. *)
Lemma closed_Append_without_role :
  exists e, (Append closedChat 1800%Z
               {| ID := ""; Role := " "; Content := "after"; ToolCalls := [];
                  Timestamp := 0%Z |}).1 = Some e /\
            errorsIs e ErrInvalidMessage /\ ~ errorsIs e ErrSessionClosed.
Proof.
  eexists. split; [reflexivity|]. split.
  - simpl. right. by left.
  - simpl. intros [H|[H|[]]]; discriminate.
Qed.

(** C10, amended. [Close] closes the session, and on a closed session:
    [Close] returns nil, [List] fails with [ErrSessionClosed], and [Append],
    [Checkpoint], [Resume] and [Fork] fail with [ErrSessionClosed] when
    their argument is not blank and with the error of their argument when
    it is; none of them panics or changes the session. *)
Theorem closed_session_fails (s : MemorySession) :
  closed (Close s).2 = true /\
  (closed s = true ->
   Close s = (None, s) /\
   (forall filter, List s filter = ([], Some ErrSessionClosed)) /\
   (forall now msg,
       Append s now msg =
       (Some (if decide (GoStrings.TrimSpace (Role msg) = "")
              then Wrap ErrInvalidMessage "role is required"
              else ErrSessionClosed), s)) /\
   (forall name,
       Checkpoint s name =
       Returns (Some (if decide (GoStrings.TrimSpace name = "")
                      then ErrInvalidCheckpointName else ErrSessionClosed), s)) /\
   (forall name,
       Resume s name =
       (Some (if decide (GoStrings.TrimSpace name = "")
              then ErrInvalidCheckpointName else ErrSessionClosed), s)) /\
   (forall id',
       Fork s id' =
       (None, Some (if decide (GoStrings.TrimSpace id' = "")
                    then ErrInvalidSessionID else ErrSessionClosed)))).
Proof.
  split.
  - unfold Close. by destruct (closed s) eqn:E.
  - intros Hc. repeat split.
    + unfold Close. by rewrite Hc.
    + intros filter. unfold List. by rewrite Hc.
    + intros now msg. unfold Append. case_decide; [done|]. by rewrite Hc.
    + intros name. unfold Checkpoint. case_decide.
      * by rewrite normalizeCheckpointName_blank.
      * rewrite normalizeCheckpointName_ok by done. by rewrite Hc.
    + intros name. unfold Resume. case_decide.
      * by rewrite normalizeCheckpointName_blank.
      * rewrite normalizeCheckpointName_ok by done. by rewrite Hc.
    + intros id'. unfold Fork. case_decide; [done|]. by rewrite Hc.
Qed.

(** An instance of C10: the closed session of the tests refuses a fork. *)
Lemma closed_session_fails_witness :
  Fork closedChat "child" = (None, Some ErrSessionClosed).
Proof.
  exact (proj2 (proj2 (proj2 (proj2 (proj2
           (proj2 (closed_session_fails closedChat) eq_refl))))) "child").
Defined.

End SessionFacts.

(** ** The approval queue *)

Module ApprovalFacts.

Import Approval.

(** A generator of identifiers for the instances below: a name longer than
    every identifier in use. *)
Fixpoint dashes (n : nat) : string :=
  match n with
  | O => ""
  | S k => String "-"%char (dashes k)
  end.

Definition longerID (m : gmap string ApprovalRecord) : string :=
  dashes (S (max_list (String.length <$> (map_to_list m).*1))).

Lemma dashes_length n : String.length (dashes n) = n.
Proof. induction n; simpl; congruence. Qed.

Lemma longerID_fresh m : m !! longerID m = None.
Proof.
  destruct (m !! longerID m) as [r|] eqn:E; [|done]. exfalso.
  apply elem_of_map_to_list in E.
  assert (Hin : String.length (longerID m) ∈ String.length <$> (map_to_list m).*1).
  { apply list_elem_of_fmap. exists (longerID m). split; [done|].
    apply list_elem_of_fmap. by exists (longerID m, r). }
  apply max_list_elem_of_le in Hin.
  unfold longerID in Hin at 1. rewrite dashes_length in Hin. lia.
Qed.

Section QueueFacts.

Variable newID : gmap string ApprovalRecord -> string.
Hypothesis newID_fresh : forall m, m !! newID m = None.
Variable extractPaths : Params -> list string.

Abbreviation Request := (Request newID extractPaths).
Abbreviation after := (after newID extractPaths).
Abbreviation afterAll := (afterAll newID extractPaths).

(** C6. [Request] with a blank session or a blank tool returns an error and
    no record, and leaves the queue, its records and its log as they
    were. *)
Theorem Request_blank_fails (q : Queue) (now : Time) (sessionID tool : string)
  (params : Params) :
  GoStrings.TrimSpace sessionID = "" \/ GoStrings.TrimSpace tool = "" ->
  exists e, Request q now sessionID tool params = ((None, false, Some e), q) /\
            (e = ErrSessionRequired \/ e = ErrToolRequired).
Proof.
  intros H. unfold Approval.Request.
  case_decide; [eauto|]. case_decide; [eauto|]. by destruct H.
Qed.

(** *** Decisions are terminal *)

Lemma Approve_success q now id approver ttl rec q1 :
  Approve q now id approver ttl = ((Some rec, None), q1) ->
  records q1 !! id = Some rec /\ RecDecision rec = DecisionApproved /\
  logClosed (store q1) = false /\ scopeByTool q1 = scopeByTool q /\
  exists old, records q !! id = Some old /\
    SessionID rec = SessionID old /\ ToolName rec = ToolName old /\
    whitelist q1 =
      if (0 <? ttl)%Z
      then <[scopeOf (scopeByTool q) old := (now + ttl)%Z]> (whitelist q)
      else whitelist q.
Proof.
  unfold Approve, logAppend.
  destruct (records q !! id) as [old|] eqn:E; [|discriminate].
  destruct (RecDecision old); try discriminate.
  destruct (logClosed (store q)); [discriminate|].
  intros [= <- <-]. simpl. rewrite lookup_insert_eq. eauto 10.
Qed.

Lemma Deny_success q now id approver reason rec q1 :
  Deny q now id approver reason = ((Some rec, None), q1) ->
  records q1 !! id = Some rec /\ RecDecision rec = DecisionDenied.
Proof.
  unfold Deny, logAppend.
  destruct (records q !! id) as [old|] eqn:E; [|discriminate].
  destruct (RecDecision old); try discriminate.
  destruct (logClosed (store q)); [discriminate|].
  intros [= <- <-]. simpl. by rewrite lookup_insert_eq.
Qed.

Lemma Approve_decided q now id approver ttl rec :
  records q !! id = Some rec -> RecDecision rec <> DecisionPending ->
  Approve q now id approver ttl = ((None, Some (ErrAlreadyDecided id)), q).
Proof. intros E Hd. unfold Approve. rewrite E. by destruct (RecDecision rec). Qed.

Lemma Deny_decided q now id approver reason rec :
  records q !! id = Some rec -> RecDecision rec <> DecisionPending ->
  Deny q now id approver reason = ((None, Some (ErrAlreadyDecided id)), q).
Proof. intros E Hd. unfold Deny. rewrite E. by destruct (RecDecision rec). Qed.

(** No call changes a record that is decided. *)
Lemma after_keeps_decided q c id rec :
  records q !! id = Some rec -> RecDecision rec <> DecisionPending ->
  records (after q c) !! id = Some rec.
Proof using newID_fresh.
  intros E Hd. destruct c as [now s t p|now id' a ttl|now id' a reason|]; simpl.
  - unfold Approval.Request, logAppend.
    repeat case_decide; try done.
    destruct (logClosed (store q)); [done|]. simpl.
    rewrite lookup_insert_ne; [done|].
    intros Heq. specialize (newID_fresh (records q)). congruence.
  - destruct (decide (id' = id)) as [->|Hne].
    + by erewrite Approve_decided.
    + unfold Approve, logAppend.
      destruct (records q !! id') as [old|]; [|done].
      destruct (RecDecision old); try done.
      destruct (logClosed (store q)); [done|]. simpl.
      by rewrite lookup_insert_ne.
  - destruct (decide (id' = id)) as [->|Hne].
    + by erewrite Deny_decided.
    + unfold Deny, logAppend.
      destruct (records q !! id') as [old|]; [|done].
      destruct (RecDecision old); try done.
      destruct (logClosed (store q)); [done|]. simpl.
      by rewrite lookup_insert_ne.
  - done.
Qed.

Lemma afterAll_keeps_decided calls q id rec :
  records q !! id = Some rec -> RecDecision rec <> DecisionPending ->
  records (afterAll q calls) !! id = Some rec.
Proof using newID_fresh.
  revert q. induction calls as [|c calls IH]; intros q E Hd; [done|].
  simpl. apply IH; [|done]. by apply after_keeps_decided.
Qed.

(** C1. A record whose decision is Approved or Denied, as a successful
    [Approve] or [Deny] leaves it, stays as it is whatever is called
    afterwards, and every later [Approve] and [Deny] on its identifier fails
    with the error of a record already decided and changes nothing: of the
    two, only the call that decided the record has succeeded. *)
Theorem decision_is_terminal (q : Queue) (id : string) (rec : ApprovalRecord) :
  (forall q0 now approver reason ttl,
      Approve q0 now id approver ttl = ((Some rec, None), q) \/
      Deny q0 now id approver reason = ((Some rec, None), q) ->
      records q !! id = Some rec /\ RecDecision rec <> DecisionPending) /\
  (records q !! id = Some rec -> RecDecision rec <> DecisionPending ->
   forall calls now' approver' reason' ttl',
     let q2 := afterAll q calls in
     records q2 !! id = Some rec /\
     Approve q2 now' id approver' ttl' = ((None, Some (ErrAlreadyDecided id)), q2) /\
     Deny q2 now' id approver' reason' = ((None, Some (ErrAlreadyDecided id)), q2)).
Proof using newID_fresh.
  split.
  - intros q0 now approver reason ttl [H|H].
    + apply Approve_success in H as (? & -> & _). done.
    + apply Deny_success in H as (? & ->). done.
  - intros E Hd calls now' approver' reason' ttl' q2.
    assert (E2 : records q2 !! id = Some rec) by by apply afterAll_keeps_decided.
    split; [done|]. split.
    + by eapply Approve_decided.
    + by eapply Deny_decided.
Qed.

(** *** The whitelist *)

(** The calls that install no whitelist entry and leave the log open:
    requests, denials, and approvals without a time to live. *)
Definition quiet (c : Call) : Prop :=
  match c with
  | CallRequest _ _ _ _ => True
  | CallApprove _ _ _ ttl => (ttl <= 0)%Z
  | CallDeny _ _ _ _ => True
  | CallClose => False
  end.

Lemma after_quiet q c :
  quiet c ->
  whitelist (after q c) = whitelist q /\
  scopeByTool (after q c) = scopeByTool q /\
  (logClosed (store q) = false -> logClosed (store (after q c)) = false).
Proof.
  destruct c as [now s t p|now id a ttl|now id a reason|]; simpl; intros Hq.
  - unfold Approval.Request, logAppend. repeat case_decide; try done.
    by destruct (logClosed (store q)).
  - unfold Approve, logAppend.
    destruct (records q !! id) as [old|]; [|done].
    destruct (RecDecision old); try done.
    destruct (logClosed (store q)); [done|]. simpl.
    destruct (0 <? ttl)%Z eqn:E; [lia|done].
  - unfold Deny, logAppend.
    destruct (records q !! id) as [old|]; [|done].
    destruct (RecDecision old); try done.
    by destruct (logClosed (store q)).
  - done.
Qed.

Lemma afterAll_quiet calls q :
  Forall quiet calls ->
  whitelist (afterAll q calls) = whitelist q /\
  scopeByTool (afterAll q calls) = scopeByTool q /\
  (logClosed (store q) = false -> logClosed (store (afterAll q calls)) = false).
Proof.
  revert q. induction calls as [|c calls IH]; intros q Hq; [done|].
  apply Forall_cons in Hq as [Hc Hq]. simpl.
  destruct (after_quiet q c Hc) as (Hw & Hb & Hl).
  destruct (IH (after q c) Hq) as (Hw' & Hb' & Hl').
  rewrite Hw', Hb', Hw, Hb. auto.
Qed.

(** The record that [Request] makes on an open queue. *)
Definition requested (q : Queue) (now : Time) (sessionID tool : string)
  (params : Params) (auto : bool) : ApprovalRecord :=
  {| ID := newID (records q);
     SessionID := sessionID;
     ToolName := tool;
     RecParams := params;
     Paths := extractPaths params;
     RecDecision := if auto then DecisionApproved else DecisionPending;
     Requested := now;
     ApprovedAt := if auto then Some now else None;
     DeniedAt := None;
     Approver := "";
     Comment := if auto then "whitelisted" else "";
     Auto := auto;
     ExpiresAt := None |}.

Lemma Request_open q now sessionID tool params :
  GoStrings.TrimSpace sessionID <> "" -> GoStrings.TrimSpace tool <> "" ->
  logClosed (store q) = false ->
  let auto := covers (whitelist q) now (scopeKey (scopeByTool q) sessionID tool) in
  let rec := requested q now sessionID tool params auto in
  exists q', Request q now sessionID tool params = ((Some rec, auto, None), q') /\
             records q' = <[ID rec := rec]> (records q) /\
             entries (store q') = entries (store q) ++ [rec].
Proof.
  intros Hs Ht Hopen auto rec. unfold Approval.Request, logAppend.
  repeat case_decide; try done. rewrite Hopen. eauto.
Qed.

Lemma Request_success q now sessionID tool params r auto q' :
  Request q now sessionID tool params = ((Some r, auto, None), q') ->
  r = requested q now sessionID tool params auto /\
  records q' = <[ID r := r]> (records q).
Proof.
  unfold Approval.Request, logAppend. repeat case_decide; try done.
  destruct (logClosed (store q)); [done|]. by intros [= <- <- <-].
Qed.

Lemma elem_of_ListPending q r sessionID :
  r ∈ ListPending q sessionID <->
  (exists id, records q !! id = Some r) /\
  RecDecision r = DecisionPending /\ SessionID r = sessionID.
Proof.
  unfold ListPending. rewrite list_elem_of_filter, list_elem_of_fmap.
  split.
  - intros [[? ?] ([id r'] & -> & Hin)]. apply elem_of_map_to_list in Hin. eauto.
  - intros [[id Hid] [? ?]]. split; [done|].
    exists (id, r). split; [done|]. by apply elem_of_map_to_list.
Qed.


(** *** Recovery *)

(** The queue holds what its log gives back: the records and the whitelist
    are those that the replay of the log makes, and a record is kept under
    its identifier. *)
Definition recovered (q : Queue) : Prop :=
  (records q, whitelist q)
  = foldl (replay (scopeByTool q)) (∅, NewWhitelist) (entries (store q)) /\
  forall id rec, records q !! id = Some rec -> ID rec = id.

Lemma replay_keys byTool disk id rec :
  (foldl (replay byTool) (∅, NewWhitelist) disk).1 !! id = Some rec -> ID rec = id.
Proof.
  revert id rec. induction disk as [|r disk IH] using rev_ind; intros id rec.
  - simpl. by rewrite lookup_empty.
  - rewrite foldl_snoc. simpl.
    destruct (decide (ID r = id)) as [<-|Hne].
    + rewrite lookup_insert_eq. by intros [= ->].
    + rewrite lookup_insert_ne by done. apply IH.
Qed.

Lemma NewQueue_recovered byTool disk :
  recovered (NewQueue byTool (NewRecordLog disk) NewWhitelist).
Proof.
  split.
  - unfold NewQueue. simpl. by destruct (foldl _ _ _).
  - intros id rec. unfold NewQueue. simpl. apply replay_keys.
Qed.

Lemma recovered_insert (q : Queue) (rec : ApprovalRecord) :
  recovered q ->
  recovered
    {| store := {| entries := entries (store q) ++ [rec]; logClosed := false |};
       records := <[ID rec := rec]> (records q);
       whitelist :=
         match ExpiresAt rec with
         | Some expiry => <[scopeOf (scopeByTool q) rec := expiry]> (whitelist q)
         | None => whitelist q
         end;
       scopeByTool := scopeByTool q |}.
Proof.
  intros [Hfold Hkeys]. split; simpl.
  - rewrite foldl_snoc, <- Hfold. reflexivity.
  - intros id r. destruct (decide (ID rec = id)) as [<-|Hne].
    + rewrite lookup_insert_eq. by intros [= ->].
    + rewrite lookup_insert_ne by done. apply Hkeys.
Qed.

Ltac recovered_by_insert q :=
  match goal with
  | |- recovered {| records := <[_ := ?r]> _ |} => exact (recovered_insert q r ltac:(assumption))
  end.

Lemma after_recovered q c : recovered q -> recovered (after q c).
Proof.
  intros Hrec. pose proof Hrec as [Hfold Hkeys].
  destruct c as [now s t p|now id a ttl|now id a reason|]; simpl.
  - unfold Approval.Request, logAppend. repeat case_decide; try done.
    destruct (logClosed (store q)); [done|]. simpl.
    recovered_by_insert q.
  - unfold Approve, logAppend.
    destruct (records q !! id) as [old|] eqn:E; [|done].
    destruct (RecDecision old); try done.
    destruct (logClosed (store q)); [done|]. simpl.
    apply Hkeys in E as <-.
    destruct (0 <? ttl)%Z; recovered_by_insert q.
  - unfold Deny, logAppend.
    destruct (records q !! id) as [old|] eqn:E; [|done].
    destruct (RecDecision old); try done.
    destruct (logClosed (store q)); [done|]. simpl.
    apply Hkeys in E as <-.
    recovered_by_insert q.
  - done.
Qed.

Lemma afterAll_recovered calls q : recovered q -> recovered (afterAll q calls).
Proof.
  revert q. induction calls as [|c calls IH]; intros q H; [done|].
  simpl. by apply IH, after_recovered.
Qed.

Lemma reopen_recovered q :
  recovered q ->
  records (reopen q) = records q /\ whitelist (reopen q) = whitelist q /\
  scopeByTool (reopen q) = scopeByTool q /\ logClosed (store (reopen q)) = false.
Proof.
  intros [Hfold _]. unfold reopen, NewQueue. simpl. rewrite <- Hfold. done.
Qed.

(** C2. Whatever the log held at the start and whatever has been called
    since, a queue made anew from the log after a close has the records of
    the queue before the close, each as last persisted, so that pending and
    decided records are the same, with the same [ListPending]; it has the
    same whitelist with the same expiries, so that [IsWhitelisted] and the
    automatic approval of [Request] answer as before; and a record that
    [Request] has returned is found again under its identifier, in
    [ListPending] when it is pending. *)
Theorem reopen_restores (byTool : bool) (disk : list ApprovalRecord)
  (calls : list Call) :
  let q := afterAll (NewQueue byTool (NewRecordLog disk) NewWhitelist) calls in
  records (reopen q) = records q /\
  whitelist (reopen q) = whitelist q /\
  (forall sessionID, ListPending (reopen q) sessionID = ListPending q sessionID) /\
  (forall now sessionID,
      IsWhitelisted (reopen q) now sessionID = IsWhitelisted q now sessionID) /\
  (forall now sessionID tool params,
      logClosed (store q) = false ->
      (Request (reopen q) now sessionID tool params).1
      = (Request q now sessionID tool params).1) /\
  (forall now sessionID tool params r auto q',
      Request q now sessionID tool params = ((Some r, auto, None), q') ->
      records (reopen q') !! ID r = Some r /\
      (auto = false -> r ∈ ListPending (reopen q') sessionID)).
Proof.
  intros q.
  assert (Hq : recovered q) by apply afterAll_recovered, NewQueue_recovered.
  destruct (reopen_recovered q Hq) as (Hr & Hw & Hb & Ho).
  split; [done|]. split; [done|]. split; [|split; [|split]].
  - intros sessionID. unfold ListPending. by rewrite Hr.
  - intros now sessionID. unfold IsWhitelisted. by rewrite Hw.
  - intros now sessionID tool params Hopen.
    unfold Approval.Request, logAppend. rewrite Hr, Hw, Hb, Ho, Hopen.
    repeat case_decide; done.
  - intros now sessionID tool params r auto q' Hreq.
    assert (Hq' : recovered q').
    { pose proof (after_recovered q (CallRequest now sessionID tool params) Hq) as H.
      simpl in H. by rewrite Hreq in H. }
    destruct (reopen_recovered q' Hq') as (Hr' & _).
    apply Request_success in Hreq as (-> & Hrecs).
    assert (Hl : records (reopen q') !! ID (requested q now sessionID tool params auto)
                 = Some (requested q now sessionID tool params auto)).
    { rewrite Hr', Hrecs. apply lookup_insert_eq. }
    split; [exact Hl|].
    intros ->. apply elem_of_ListPending. eauto.
Qed.

End QueueFacts.

(** *** The scenario of section 8 of the specification

    A request of session sess-1 for fs.write is pending; alice approves it
    for a minute; the next request of the session is approved at once. *)

Definition noPaths : Params -> list string := fun _ => [].

Definition emptyQueue : Queue := NewQueue false (NewRecordLog []) NewWhitelist.

Definition writeParams : Params := {[ "path" := Tool.VString "/tmp/data" ]}.

Definition asked : Queue :=
  (Request longerID noPaths emptyQueue 1000%Z "sess-1" "fs.write" writeParams).2.

Definition approvedRecord : ApprovalRecord :=
  {| ID := "-"; SessionID := "sess-1"; ToolName := "fs.write";
     RecParams := writeParams; Paths := []; RecDecision := DecisionApproved;
     Requested := 1000%Z; ApprovedAt := Some 1010%Z; DeniedAt := None;
     Approver := "alice"; Comment := ""; Auto := false;
     ExpiresAt := Some 1070%Z |}.

Definition approved : Queue := (Approve asked 1010%Z "-" "alice" 60%Z).2.

Example scenario_pending :
  ID <$> ListPending asked "sess-1" = ["-"].
Proof. reflexivity. Qed.

Example scenario_approve :
  Approve asked 1010%Z "-" "alice" 60%Z = ((Some approvedRecord, None), approved).
Proof. reflexivity. Qed.

Example scenario_auto :
  let r := (Request longerID noPaths approved 1011%Z "sess-1" "fs.write" writeParams).1 in
  (RecDecision <$> r.1.1, Auto <$> r.1.1, r.1.2)
  = (Some DecisionApproved, Some true, true).
Proof. reflexivity. Qed.

Example scenario_reopen :
  ID <$> ListPending (reopen asked) "sess-1" = ["-"].
Proof. reflexivity. Qed.

(** *** The unit tests of the queue, on the model *)

(** [TestApprovalQueueRequestValidation] *)
Example test_request_validation :
  (Request longerID noPaths emptyQueue 1700%Z "" "ls" ∅).1.2 = Some ErrSessionRequired /\
  (Request longerID noPaths emptyQueue 1700%Z "sess" "   " ∅).1.2 = Some ErrToolRequired /\
  RecDecision <$> (Request longerID noPaths emptyQueue 1700%Z "sess" "echo ok" ∅).1.1.1
  = Some DecisionPending.
Proof. repeat split; reflexivity. Qed.

(** The queue of [TestApprovalQueueAutoWhitelist]: the session is on the
    whitelist for a minute from 1700. *)
Definition listed : Queue :=
  NewQueue false (NewRecordLog []) {[ ("sess", None) := 1760%Z ]}.

(** [TestApprovalQueueAutoWhitelist] *)
Example test_auto_whitelist :
  let r := (Request longerID noPaths listed 1700%Z "sess" "rm" ∅).1.1.1 in
  (RecDecision <$> r, Auto <$> r, ApprovedAt <$> r, Comment <$> r)
  = (Some DecisionApproved, Some true, Some (Some 1700%Z), Some "whitelisted").
Proof. reflexivity. Qed.

(** [TestApprovalQueueDenyFlow] *)
Example test_deny_flow :
  let q1 := (Request longerID noPaths emptyQueue 1700%Z "sess" "ls" ∅).2 in
  let denied := Deny q1 1701%Z "-" "bob" "unsafe" in
  let q2 := (Request longerID noPaths denied.2 1702%Z "sess2" "date" ∅).2 in
  let q3 := (Approve q2 1703%Z "--" "ops" 0%Z).2 in
  (RecDecision <$> denied.1.1, Comment <$> denied.1.1) = (Some DecisionDenied, Some "unsafe") /\
  (Approve denied.2 1702%Z "-" "ops" 0%Z).1.2 = Some (ErrAlreadyDecided "-") /\
  (Approve q2 1703%Z "--" "ops" 0%Z).1.2 = None /\
  (Deny q3 1704%Z "--" "ops" "late").1.2 = Some (ErrAlreadyDecided "--").
Proof. repeat split; reflexivity. Qed.

(** [TestApprovalQueueListPendingAndClone] *)
Example test_list_pending :
  let q1 := (Request longerID noPaths emptyQueue 1700%Z "s1" "cmd1" ∅).2 in
  let q2 := (Request longerID noPaths q1 1700%Z "s2" "cmd2" ∅).2 in
  let q3 := (Approve q2 1700%Z "--" "ops" 0%Z).2 in
  (ID <$> ListPending q3 "s1", ID <$> ListPending q3 "s2") = (["-"], []).
Proof. reflexivity. Qed.

(** [TestApprovalQueueWhitelistExpiry] *)
Example test_whitelist_expiry :
  let q := NewQueue false (NewRecordLog []) {[ ("sess", None) := 1730%Z ]} in
  (IsWhitelisted emptyQueue 1700%Z "sess", IsWhitelisted q 1700%Z "sess",
   IsWhitelisted q 1760%Z "sess") = (false, true, false).
Proof. reflexivity. Qed.

(** [TestApprovalWhitelistPersistsAcrossRecovery]: the approval with a time
    to live is automatic again after the restart, and the request that is
    left pending is still listed after the next one. *)
Example test_recovery :
  let q2 := reopen approved in
  let second := Request longerID noPaths q2 1020%Z "sess-1" "fs.write" writeParams in
  let third := Request longerID noPaths second.2 1080%Z "sess-1" "tool.rm" ∅ in
  let q3 := reopen third.2 in
  (second.1.1.2, RecDecision <$> second.1.1.1, third.1.1.2) = (true, Some DecisionApproved, false) /\
  ID <$> ListPending q3 "sess-1" = ID <$> option_list third.1.1.1.
Proof. split; reflexivity. Qed.

(** An instance of C2: the pending request of the scenario after a
    restart. *)
Lemma reopen_restores_witness : records (reopen asked) = records asked.
Proof.
  exact (proj1 (reopen_restores longerID noPaths false []
                  [CallRequest 1000%Z "sess-1" "fs.write" writeParams])).
Defined.

(** An instance of C6: a request without a session. *)
Lemma Request_blank_fails_witness :
  exists e, Request longerID noPaths emptyQueue 0%Z "" "ls" ∅ = ((None, false, Some e), emptyQueue) /\
            (e = ErrSessionRequired \/ e = ErrToolRequired).
Proof.
  apply (Request_blank_fails longerID noPaths emptyQueue 0%Z "" "ls" ∅).
  left. reflexivity.
Defined.

(** An instance of C1: a denial after the approval of the scenario. *)
Lemma decision_is_terminal_witness :
  Deny approved 1020%Z "-" "bob" "late"
  = ((None, Some (ErrAlreadyDecided "-")), approved).
Proof.
  refine (proj2 (proj2 (proj2 (decision_is_terminal longerID longerID_fresh noPaths
            approved "-" approvedRecord) eq_refl _ [] 1020%Z "bob" "late" 0%Z))).
  discriminate.
Defined.


End ApprovalFacts.

(** ** The workflow executor *)

Module WorkflowFacts.

Import Workflow.

(** Induction on a walk, with the property known of the walks of the
    branches of a fork. *)
Section ThreadInduction.

Variable P : thread -> Prop.
Hypothesis P_Walk : forall stop n ph, P (Walk stop n ph).
Hypothesis P_Fork : forall stop n children,
  Forall P children -> P (Fork stop n children).
Hypothesis P_Finished : forall e, P (Finished e).

Fixpoint thread_nested_ind (t : thread) : P t :=
  match t with
  | Walk stop n ph => P_Walk stop n ph
  | Fork stop n children =>
      P_Fork stop n children
        ((fix all (cs : list thread) : Forall P cs :=
            match cs with
            | [] => Forall_nil_2 P
            | c :: rest => Forall_cons_2 P c rest (thread_nested_ind c) (all rest)
            end) children)
  | Finished e => P_Finished e
  end.

End ThreadInduction.

Section Exploration.

Context {World : Type}.
Variable g : Graph World.
Variable pipeline : list (ContextMiddleware World).

Abbreviation step := (step g pipeline).
Abbreviation steps := (steps g pipeline).

(** Every move that one of the walks [cs] can make, with the walks
    [before] it and after it as they are. *)
Definition eachChild (succ : thread -> list (thread * State World))
  (rebuild : list thread -> thread)
  : list thread -> list thread -> list (thread * State World) :=
  fix go (before cs : list thread) : list (thread * State World) :=
    match cs with
    | [] => []
    | c :: rest =>
        (if isFinished c then []
         else (fun m => (rebuild (before ++ m.1 :: rest), m.2)) <$> succ c)
        ++ go (before ++ [c]) rest
    end.

(** Every step that a walk can make, over all choices. *)
Fixpoint successors (t : thread) (s : State World) : list (thread * State World) :=
  match t with
  | Fork stop n children =>
      match unfinished children with
      | O => [step 0 t s]
      | S _ => eachChild (fun c => successors c s) (Fork stop n) [] children
      end
  | _ => [step 0 t s]
  end.

(** Every end of [fuel] steps, over all schedules. *)
Fixpoint explore (fuel : nat) (t : thread) (s : State World)
  : list (thread * State World) :=
  match fuel with
  | O => [(t, s)]
  | S fuel' => r ← successors t s; explore fuel' r.1 r.2
  end.

Lemma unfinished_cons c rest :
  unfinished (c :: rest)
  = if isFinished c then unfinished rest else S (unfinished rest).
Proof.
  unfold unfinished. rewrite filter_cons.
  destruct (isFinished c); by case_decide.
Qed.

Lemma stepChild_in_eachChild move succ rebuild (s : State World) cs :
  Forall (fun c => move c s ∈ succ c) cs ->
  forall before k, k < unfinished cs ->
    (rebuild (before ++ (stepChild move s k cs).1), (stepChild move s k cs).2)
    ∈ eachChild succ rebuild before cs.
Proof.
  induction 1 as [|c rest Hc Hrest IH]; intros before k Hk.
  - unfold unfinished in Hk. simpl in Hk. lia.
  - rewrite unfinished_cons in Hk. simpl.
    destruct (isFinished c) eqn:Ec.
    + simpl. specialize (IH (before ++ [c]) k Hk).
      destruct (stepChild move s k rest) as [rest' s'] eqn:E. simpl in *.
      by rewrite <- app_assoc in IH.
    + destruct k as [|k'].
      * destruct (move c s) as [c' s'] eqn:E. simpl.
        apply elem_of_app. left. apply list_elem_of_fmap.
        by exists (c', s').
      * apply elem_of_app. right.
        specialize (IH (before ++ [c]) k' ltac:(lia)).
        destruct (stepChild move s k' rest) as [rest' s'] eqn:E. simpl in *.
        by rewrite <- app_assoc in IH.
Qed.

Lemma step_Fork choice stop n children s :
  step choice (Fork stop n children) s
  = match unfinished children with
    | O => (Walk stop n (PAfter (length pipeline) (firstError children)), s)
    | S u =>
        let '(children', s') :=
          stepChild (step (choice / S u)) s (choice mod S u) children in
        (Fork stop n children', s')
    end.
Proof. reflexivity. Qed.

Lemma successors_Fork stop n children s :
  successors (Fork stop n children) s
  = match unfinished children with
    | O => [step 0 (Fork stop n children) s]
    | S _ => eachChild (fun c => successors c s) (Fork stop n) [] children
    end.
Proof. reflexivity. Qed.

(** A step under any choice is one of the successors. *)
Lemma step_in_successors t : forall choice s, step choice t s ∈ successors t s.
Proof.
  induction t as [stop n ph|stop n children IH|e] using thread_nested_ind;
    intros choice s.
  - apply list_elem_of_singleton. reflexivity.
  - rewrite step_Fork, successors_Fork.
    destruct (unfinished children) as [|u] eqn:Eu.
    + apply list_elem_of_singleton. rewrite step_Fork, Eu. reflexivity.
    + pose proof (stepChild_in_eachChild (step (choice / S u))
                    (fun c => successors c s) (Fork stop n) s children) as H.
      specialize (H ltac:(eapply Forall_impl; [exact IH|]; intros c Hc; apply Hc)
                    [] (choice mod S u)).
      rewrite Eu in H. specialize (H ltac:(apply Nat.mod_upper_bound; lia)).
      revert H.
      destruct (stepChild (step (choice / S u)) s (choice mod S u) children)
        as [children' s'].
      intros H. exact H.
  - apply list_elem_of_singleton. reflexivity.
Qed.

Lemma steps_in_explore schedule : forall t s,
  steps schedule t s ∈ explore (length schedule) t s.
Proof.
  induction schedule as [|choice rest IH]; intros t s; simpl.
  - by apply list_elem_of_singleton.
  - apply list_elem_of_bind. exists (step choice t s).
    split; [|apply step_in_successors].
    destruct (step choice t s) as [t' s']. apply IH.
Qed.

Lemma steps_app l1 l2 t s :
  steps (l1 ++ l2) t s = steps l2 (steps l1 t s).1 (steps l1 t s).2.
Proof.
  revert t s. induction l1 as [|c l1 IH]; intros t s; simpl; [done|].
  destruct (step c t s) as [t' s']. apply IH.
Qed.

Lemma steps_finished schedule e s :
  steps schedule (Finished e) s = (Finished e, s).
Proof. induction schedule as [|c rest IH]; simpl; [done|apply IH]. Qed.

(** What holds of every end of [fuel] steps, all of them walks that have
    ended, holds of the end of every schedule of that length or more. *)
Lemma explore_sound (check : thread * State World -> bool) fuel t s :
  forallb check (explore fuel t s) = true ->
  (forall r, check r = true -> isFinished r.1 = true) ->
  forall schedule, fuel <= length schedule -> check (steps schedule t s) = true.
Proof.
  intros Hall Hfin schedule Hlen.
  rewrite <- (take_drop fuel schedule), steps_app.
  pose proof (steps_in_explore (take fuel schedule) t s) as Hin.
  rewrite length_take, Nat.min_l in Hin by done.
  rewrite forallb_forall in Hall.
  apply list_elem_of_In, Hall in Hin.
  destruct (steps (take fuel schedule) t s) as [t' s'] eqn:E. simpl.
  specialize (Hfin _ Hin). simpl in Hfin.
  destruct t'; try discriminate. by rewrite steps_finished.
Qed.

(** *** The order of the transitions *)

Lemma firstMatch_first (ts pre post : list Transition) (t : Transition)
  (node : string) (c : ExecutionContext) :
  ts = pre ++ t :: post ->
  from t = node -> cond t c = (true, None) ->
  (forall t', t' ∈ pre -> from t' = node -> cond t' c = (false, None)) ->
  firstMatch ts node c = (Some (to t), None).
Proof.
  intros -> Hfrom Hcond. induction pre as [|t' pre IH]; intros Hpre; simpl.
  - rewrite bool_decide_eq_true_2 by done. by rewrite Hcond.
  - case_bool_decide as Hn.
    + rewrite (Hpre t') by (done || by left).
      apply IH. intros t'' Hin. apply Hpre. by right.
    + apply IH. intros t'' Hin. apply Hpre. by right.
Qed.

Lemma AddTransition_appends (g0 g1 : Graph World) from_ to_ c :
  AddTransition g0 from_ to_ c = (None, g1) ->
  transitions g1 = transitions g0 ++ [{| from := from_; to := to_; cond := c |}].
Proof.
  unfold AddTransition. destruct (findNode g0 from_); [|discriminate].
  by intros [= <-].
Qed.

(** *** The hooks around a node *)

Lemma seq_min_succ i j k :
  i < k -> S i <= j ->
  seq i (min (S j) k - i) = i :: seq (S i) (min (S j) k - S i).
Proof.
  intros Hi Hj. replace (min (S j) k - i) with (S (min (S j) k - S i)) by lia.
  reflexivity.
Qed.

Lemma steps_cons choice rest t s :
  steps (choice :: rest) t s = steps rest (step choice t s).1 (step choice t s).2.
Proof. simpl. by destruct (step choice t s). Qed.

Lemma step_PBefore_end choice stop n i s :
  pipeline !! i = None ->
  step choice (Walk stop n (PBefore i)) s = (Walk stop n PBody, s).
Proof. intros H. simpl. by rewrite H. Qed.

Lemma step_PBefore choice stop n i s m :
  pipeline !! i = Some m ->
  step choice (Walk stop n (PBefore i)) s
  = let r := BeforeStepContext m {| StepName := n |} (ctx s, world s) in
    (Walk stop n (match r.1 with
                  | None => PBefore (S i)
                  | Some _ => PAfter i r.1
                  end),
     logged s r.2 (EvBefore i n)).
Proof.
  intros H. simpl. rewrite H.
  by destruct (BeforeStepContext m _ _) as [[e|] env].
Qed.

Lemma step_PAfter choice stop n j stepErr s m :
  pipeline !! j = Some m ->
  step choice (Walk stop n (PAfter (S j) stepErr)) s
  = let r := AfterStepContext m {| StepName := n |} stepErr (ctx s, world s) in
    (Walk stop n (PAfter j (match stepErr with Some _ => stepErr | None => r.1 end)),
     logged s r.2 (EvAfter j n)).
Proof.
  intros H. simpl. rewrite H.
  by destruct (AfterStepContext m _ _ _) as [e env].
Qed.

(** From the first Before-hook on: the hooks are called in the order of
    the pipeline, up to the body or up to the first hook that fails. *)
Lemma before_phase stop n d : forall i s,
  d = length pipeline - i -> i <= length pipeline ->
  exists j, i <= j <= length pipeline /\
    let r := steps (replicate (S j - i) 0) (Walk stop n (PBefore i)) s in
    trace r.2 = trace s ++ ((fun x => EvBefore x n) <$> seq i (min (S j) (length pipeline) - i)) /\
    ((j = length pipeline /\ r.1 = Walk stop n PBody) \/
     (j < length pipeline /\ exists e, r.1 = Walk stop n (PAfter j (Some e)))).
Proof.
  induction d as [|d IH]; intros i s Hd Hi.
  - assert (i = length pipeline) as -> by lia.
    exists (length pipeline). split; [lia|].
    replace (S (length pipeline) - length pipeline) with 1 by lia.
    replace (min (S (length pipeline)) (length pipeline) - length pipeline) with 0 by lia.
    change (replicate 1 0) with [0].
    rewrite steps_cons, step_PBefore_end by (apply lookup_ge_None_2; lia).
    simpl. rewrite app_nil_r. auto.
  - destruct (lookup_lt_is_Some_2 pipeline i ltac:(lia)) as [m Hm].
    destruct (BeforeStepContext m {| StepName := n |} (ctx s, world s))
      as [[e|] env] eqn:Ehook.
    + exists i. split; [lia|].
      replace (S i - i) with 1 by lia.
      replace (min (S i) (length pipeline) - i) with 1 by lia.
      change (replicate 1 0) with [0].
      rewrite steps_cons, (step_PBefore _ _ _ _ _ m Hm), Ehook.
      simpl. split; [done|]. right. split; [lia|eauto].
    + destruct (IH (S i) (logged s env (EvBefore i n)) ltac:(lia) ltac:(lia))
        as (j & Hj & Htrace & Hend).
      exists j. split; [lia|].
      replace (S j - i) with (S (S j - S i)) by lia.
      rewrite seq_min_succ by lia.
      change (replicate (S (S j - S i)) 0) with (0 :: replicate (S j - S i) 0).
      rewrite steps_cons, (step_PBefore _ _ _ _ _ m Hm), Ehook.
      cbv zeta in *. cbn [fst snd] in *.
      rewrite Htrace. cbn [logged trace fmap list_fmap].
      rewrite <- app_assoc. split; [done|]. exact Hend.
Qed.

(** From the After-hooks on: the hooks of the middlewares entered are called
    in the reverse order of the pipeline. *)
Lemma after_phase stop n j : forall stepErr s,
  j <= length pipeline ->
  let r := steps (replicate (S j) 0) (Walk stop n (PAfter j stepErr)) s in
  trace r.2 = trace s ++ ((fun x => EvAfter x n) <$> reverse (seq 0 j)) /\
  (r.1 = Walk stop n PNext \/ exists e, r.1 = Finished (Some e)).
Proof.
  induction j as [|j IH]; intros stepErr s Hj.
  - simpl. rewrite app_nil_r. destruct stepErr; simpl; eauto.
  - destruct (lookup_lt_is_Some_2 pipeline j ltac:(lia)) as [m Hm].
    rewrite seq_S, reverse_snoc.
    change (replicate (S (S j)) 0) with (0 :: replicate (S j) 0).
    cbv zeta. rewrite steps_cons, (step_PAfter _ _ _ _ _ _ m Hm).
    cbv zeta. cbn [fst snd].
    destruct (AfterStepContext m {| StepName := n |} stepErr (ctx s, world s))
      as [e env] eqn:Ehook.
    specialize (IH (match stepErr with Some _ => stepErr | None => e end)
                  (logged s env (EvAfter j n)) ltac:(lia)).
    cbv zeta in IH. destruct IH as [Htrace Hend]. cbn [fst snd].
    rewrite Htrace. cbn [logged trace fmap list_fmap plus].
    rewrite <- app_assoc. done.
Qed.

End Exploration.

(** *** The runs of the test graph *)

Import ComplexFlow.

Definition start0 : State World :=
  {| ctx := initialData; world := 0%Z; trace := [] |}.

Definition endedWell (t : thread) : bool :=
  match t with
  | Finished None => true
  | _ => false
  end.

Lemma endedWell_finished {W : Type} (check : thread * State W -> bool) :
  (forall r, check r = true -> endedWell r.1 = true) ->
  forall r, check r = true -> isFinished r.1 = true.
Proof. intros H r Hr. apply H in Hr. by destruct r.1 as [| |[]]. Qed.

(** The run of a schedule, from the walk it starts with. *)
Lemma run_steps join pipeline schedule :
  entry (graph join) = Some "counter" ->
  run join pipeline schedule
  = let r := steps (graph join) pipeline schedule
               (enter (graph join) None "counter") start0 in
    (match r.1 with Finished e => Some e | _ => None end, r.2).
Proof.
  intros He. unfold run, Run. rewrite He. fold start0.
  by destruct (steps _ _ _ _ _).
Qed.

(** The loop: three times the counter, then the gate, and no counter any
    more; the count is three. *)
Definition loopEvents : list Event :=
  [EvBody "counter"; EvBody "counter"; EvBody "counter"; EvBody "gate"].

Definition checkLoop (r : thread * State World) : bool :=
  endedWell r.1
  && bool_decide (take 4 (trace r.2) = loopEvents)
  && bool_decide (EvBody "counter" ∉ drop 4 (trace r.2))
  && bool_decide (getInt (ctx r.2) "count" = 3%Z).



(** *** The hooks of the pipeline *)



(** An instance of C7: two middlewares, the second of which refuses the
    step: its After-hook is not called, that of the first is. *)
Definition refusing : ContextMiddleware World :=
  {| BeforeStepContext := fun _ env => (Some (ErrFailed "refused"), env);
     AfterStepContext := fun _ _ env => (None, env) |}.


(** The events of the executor at a node. *)
Definition nodeOf (ev : Event) : string :=
  match ev with
  | EvBefore _ n => n
  | EvBody n => n
  | EvAfter _ n => n
  end.

Definition eventsAt (n : string) (l : list Event) : list Event :=
  filter (fun ev => nodeOf ev = n) l.

(** What two middlewares leave in the log at a node that is visited once. *)
Definition visit2 (n : string) : list Event :=
  [EvBefore 0 n; EvBefore 1 n; EvBody n; EvAfter 1 n; EvAfter 0 n].

Definition checkHooks (r : thread * State World) : bool :=
  endedWell r.1
  && bool_decide (eventsAt "counter" (trace r.2)
                  = visit2 "counter" ++ visit2 "counter" ++ visit2 "counter")
  && forallb (fun n => bool_decide (eventsAt n (trace r.2) = visit2 n))
       ["gate"; "fanout"; "left"; "right"; "done"].

(** On the test graph with a join and two middlewares, under every
    schedule, the log at each node, the parallel one among them, is that of
    the hooks in the order of the pipeline, the body, and the hooks in the
    reverse order. *)
Example test_graph_hooks_in_order schedule :
  80 <= length schedule ->
  checkHooks (steps (graph (Some "done")) [passive; passive] schedule
                (enter (graph (Some "done")) None "counter") start0) = true.
Proof.
  apply explore_sound.
  - vm_compute. reflexivity.
  - apply endedWell_finished. intros r Hr. unfold checkHooks in Hr.
    by repeat (apply andb_true_iff in Hr as [Hr _]).
Qed.

(** *** The join of the parallel branches *)

(** The log up to the first [ev], and after it. *)
Fixpoint splitAtFirst (ev : Event) (l : list Event)
  : option (list Event * list Event) :=
  match l with
  | [] => None
  | x :: rest =>
      if decide (x = ev) then Some ([], rest)
      else
        match splitAtFirst ev rest with
        | Some (before, after) => Some (x :: before, after)
        | None => None
        end
  end.

Lemma splitAtFirst_Some ev l : forall before after,
  splitAtFirst ev l = Some (before, after) ->
  l = before ++ ev :: after /\ ev ∉ before.
Proof.
  induction l as [|x rest IH]; intros before after; simpl; [done|].
  case_decide as Hx.
  - intros [= <- <-]. subst x. split; [done|]. apply not_elem_of_nil.
  - destruct (splitAtFirst ev rest) as [[b a]|]; [|done].
    intros [= <- <-]. destruct (IH b a eq_refl) as [-> Hb].
    split; [done|]. apply not_elem_of_cons. split; [congruence|done].
Qed.

Definition times (ev : Event) (l : list Event) : nat :=
  length (filter (fun x => x = ev) l).

Definition checkJoin (r : thread * State World) : bool :=
  endedWell r.1
  && bool_decide (world r.2 = 2%Z)
  && bool_decide (times (EvBody "left") (trace r.2) = 1)
  && bool_decide (times (EvBody "right") (trace r.2) = 1)
  && match splitAtFirst (EvBefore 0 "done") (trace r.2) with
     | Some (before, after) =>
         bool_decide (EvAfter 0 "left" ∈ before)
         && bool_decide (EvAfter 0 "right" ∈ before)
         && bool_decide (EvBefore 0 "done" ∉ after)
     | None => false
     end.

Definition checkBranches (r : thread * State World) : bool :=
  endedWell r.1
  && bool_decide (world r.2 = 2%Z)
  && bool_decide (times (EvBody "left") (trace r.2) = 1)
  && bool_decide (times (EvBody "right") (trace r.2) = 1).



End WorkflowFacts.

(** ** More on the tool registry *)

Module ToolMoreFacts.

Import Tool ToolRegistry.

Section RegistryMore.

Context {World : Type}.
Variable rangeTools : gmap string (Tool World) -> list (string * Tool World).
Hypothesis rangeTools_perm : forall m, rangeTools m ≡ₚ map_to_list m.

(** X1. [Register] succeeds exactly for a tool that is not nil, has a name
    and whose name is free; the tool is then found under its name by [Get],
    every other name finds what it found before, and the validator stays. *)
Theorem Register_then_Get (r : Registry World) (tool : option (Tool World)) :
  ((Register r tool).1 = None <->
   exists t, tool = Some t /\ Name t <> "" /\ tools r !! Name t = None) /\
  (forall t, tool = Some t -> (Register r tool).1 = None ->
     Get (Register r tool).2 (Name t) = (Some t, None) /\
     (forall name, name <> Name t -> Get (Register r tool).2 name = Get r name) /\
     validator (Register r tool).2 = validator r).
Proof.
  split.
  - unfold Register. destruct tool as [t|]; [|split; [done|by intros (?&?&?)]].
    case_decide as Hn.
    + split; [done|]. intros (t' & [= <-] & ? & ?). done.
    + destruct (tools r !! Name t) eqn:E.
      * split; [done|]. intros (t' & [= <-] & ? & ?). congruence.
      * split; [|done]. intros _. by exists t.
  - intros t -> Hok. unfold Register in *.
    case_decide; [done|]. destruct (tools r !! Name t) eqn:E; [done|].
    simpl. unfold Get. simpl. rewrite lookup_insert_eq. split; [done|].
    split; [|done]. intros name Hne. by rewrite lookup_insert_ne.
Qed.

(** X2. [List] gives every registered tool once, whatever the order of the
    map: a tool is listed exactly when some name finds it, the list is as
    long as the registry, and registering a tool adds it to the list. *)
Theorem List_is_the_registry (r : Registry World) :
  length (List rangeTools r) = size (tools r) /\
  (forall t, t ∈ List rangeTools r <-> exists name, Get r name = (Some t, None)) /\
  (forall t r', Register r (Some t) = (None, r') ->
     List rangeTools r' ≡ₚ t :: List rangeTools r).
Proof using rangeTools_perm.
  unfold List. split; [|split].
  - rewrite length_fmap, rangeTools_perm. apply length_map_to_list.
  - intros t. rewrite rangeTools_perm, list_elem_of_fmap. split.
    + intros ([name t'] & -> & Hin). apply elem_of_map_to_list in Hin.
      exists name. unfold Get. by rewrite Hin.
    + intros [name Hget]. unfold Get in Hget.
      destruct (tools r !! name) as [t'|] eqn:E; [|done].
      injection Hget as <-. exists (name, t'). split; [done|].
      by apply elem_of_map_to_list.
  - intros t r'. unfold Register. case_decide; [done|].
    destruct (tools r !! Name t) eqn:E; [done|]. intros [= <-]. simpl.
    rewrite !rangeTools_perm, map_to_list_insert by done. done.
Qed.

End RegistryMore.

(** An instance of X1: the file tool on a new registry. *)
Lemma Register_then_Get_witness :
  Get (Register (NewRegistry (fun _ _ => None)) (Some ToolFacts.writeTool)).2 "file"
  = (Some ToolFacts.writeTool, None).
Proof.
  exact (proj1 (proj2 (Register_then_Get (NewRegistry (fun _ _ => None))
           (Some ToolFacts.writeTool)) ToolFacts.writeTool eq_refl eq_refl)).
Defined.

(** An instance of X2: the registry with the file tool lists it. *)
Lemma List_is_the_registry_witness :
  List map_to_list ToolFacts.writeRegistry
  ≡ₚ ToolFacts.writeTool
     :: List map_to_list (NewRegistry
          (Validate map_to_list (fun _ => true) (fun _ => true))).
Proof.
  exact (proj2 (proj2 (List_is_the_registry map_to_list (fun m => reflexivity _)
           (NewRegistry (Validate map_to_list (fun _ => true) (fun _ => true)))))
           ToolFacts.writeTool ToolFacts.writeRegistry eq_refl).
Defined.

Section ValidatorMore.

Context {World : Type}.
Variable range : gmap string GoValue -> list (string * GoValue).
Hypothesis range_perm : forall m, range m ≡ₚ map_to_list m.
Variable parsesFloat64 : string -> bool.
Variable parsesInt64 : string -> bool.

Abbreviation conforms := (conforms parsesFloat64 parsesInt64).
Abbreviation validateType := (validateType parsesFloat64 parsesInt64).
Abbreviation checkProperties := (checkProperties parsesFloat64 parsesInt64).
Abbreviation Validate := (Validate range parsesFloat64 parsesInt64).

Lemma checkRequired_None params required :
  checkRequired params required = None <->
  forall field, field ∈ required -> is_Some (params !! field).
Proof.
  induction required as [|f rest IH]; simpl.
  - split; [|done]. intros _ field Hin. by apply elem_of_nil in Hin.
  - destruct (params !! f) eqn:E.
    + rewrite IH. split.
      * intros H field [->|Hin]%elem_of_cons; [by rewrite E|auto].
      * intros H field Hin. apply H. by right.
    + split; [done|]. intros H.
      destruct (H f ltac:(by left)) as [v Hv]. congruence.
Qed.

Lemma checkProperties_None properties entries :
  checkProperties properties entries = None <->
  forall key value def,
    (key, value) ∈ entries -> properties !! key = Some def ->
    extractExpectedType def <> "" -> conforms value (extractExpectedType def).
Proof.
  induction entries as [|[k v] rest IH]; simpl.
  - split; [|done]. intros _ key value def Hin. by apply elem_of_nil in Hin.
  - assert (Hrest : (forall key value def,
                        (key, value) ∈ (k, v) :: rest -> properties !! key = Some def ->
                        extractExpectedType def <> "" ->
                        conforms value (extractExpectedType def)) <->
                    (forall def, properties !! k = Some def ->
                        extractExpectedType def <> "" ->
                        conforms v (extractExpectedType def)) /\
                    (forall key value def,
                        (key, value) ∈ rest -> properties !! key = Some def ->
                        extractExpectedType def <> "" ->
                        conforms value (extractExpectedType def))).
    { split.
      - intros H. split.
        + intros def. apply H. by left.
        + intros key value def Hin. apply H. by right.
      - intros [H1 H2] key value def [[= -> ->]|Hin]%elem_of_cons; eauto. }
    rewrite Hrest, <- IH. clear Hrest IH.
    destruct (properties !! k) as [d|] eqn:E.
    + case_decide as Hty.
      * split; [|by intros [_ ?]]. intros H. split; [|done].
        intros def [= <-] Hne. done.
      * destruct (validateType v (extractExpectedType d)) as [e|] eqn:Ev.
        -- split; [done|]. intros [H _].
           specialize (H d eq_refl Hty).
           apply ToolFacts.validateType_accepts in H. congruence.
        -- split; [|by intros [_ ?]]. intros H. split; [|done].
           intros def [= <-] _. by apply ToolFacts.validateType_accepts.
    + split; [|by intros [_ ?]]. intros H. split; [|done]. done.
Qed.

(** X3. The default validator accepts the parameters exactly when every
    required field is there and every parameter whose property declares a
    type conforms to it, in whatever order the parameters are visited. *)
Theorem Validate_accepts_iff (params : Params) (schema : JSONSchema) :
  Validate params (Some schema) = None <->
  (forall field, field ∈ Required schema -> is_Some (default ∅ params !! field)) /\
  (forall key value def,
      default ∅ params !! key = Some value ->
      Properties schema !! key = Some def ->
      extractExpectedType def <> "" ->
      conforms value (extractExpectedType def)).
Proof using range_perm.
  unfold Tool.Validate.
  destruct (checkRequired (default ∅ params) (Required schema)) as [e|] eqn:Ereq.
  - split; [done|]. intros [H _].
    pose proof (proj2 (checkRequired_None _ _) H). congruence.
  - pose proof (proj1 (checkRequired_None _ _) Ereq) as Hreq. case_decide as Hsize.
    + split; [|done]. intros _. split; [done|].
      intros key value def _ Hd. apply map_size_empty_iff in Hsize.
      rewrite Hsize in Hd. by rewrite lookup_empty in Hd.
    + rewrite checkProperties_None. split.
      * intros H. split; [done|]. intros key value def Hp. apply H.
        rewrite range_perm. by apply elem_of_map_to_list.
      * intros [_ H] key value def Hin. apply H.
        rewrite range_perm in Hin. by apply elem_of_map_to_list in Hin.
Qed.

(** The seven names of types that [validateType] knows. *)
Definition supported : list string :=
  ["string"; "number"; "integer"; "boolean"; "object"; "array"; "null"].

Lemma conforms_supported value expected :
  conforms value expected -> expected ∈ supported.
Proof. destruct 1; unfold supported; set_solver. Qed.

(** X4. A property that declares a type outside the seven that the
    validator knows makes it reject every set of parameters that gives the
    property a value, whatever the value. *)
Theorem unsupported_type_rejects_all (params : Params) (schema : JSONSchema)
  (key : string) (value def : GoValue) :
  Properties schema !! key = Some def ->
  extractExpectedType def <> "" ->
  extractExpectedType def ∉ supported ->
  default ∅ params !! key = Some value ->
  is_Some (Validate params (Some schema)).
Proof using range_perm.
  intros Hd Hne Hun Hp.
  apply (ToolFacts.Validate_rejects range range_perm). right.
  exists key, value, def. repeat split; try done.
  intros Hc. by apply conforms_supported in Hc.
Qed.

(** X5. Whatever [validateType] accepts as an integer it accepts as a
    number, as long as [strconv] parses as a float what it parses as an
    integer. *)
Theorem integer_is_number (value : GoValue) :
  (forall s, parsesInt64 s = true -> parsesFloat64 s = true) ->
  validateType value "integer" = None -> validateType value "number" = None.
Proof.
  intros Hparse H. apply ToolFacts.validateType_accepts in H.
  apply ToolFacts.validateType_accepts.
  inversion H; subst; constructor. auto.
Qed.

(** X6. [Execute] runs the body of a tool exactly when the tool is
    registered and its schema is nil, or the validator is nil, or the
    validator accepts the parameters; the body then gets the parameters as
    they came. Otherwise nothing is run and the world stays as it was. *)
Theorem Execute_runs_iff (r : Registry World) (name : string) (params : Params)
  (w : World) :
  let allowed tool :=
    tools r !! name = Some tool /\
    (Schema tool = None \/ validator r = None \/
     exists v, validator r = Some v /\ v params (Schema tool) = None) in
  (forall tool, allowed tool ->
     Execute r name params w = ToolFacts.ran name tool params w) /\
  ((forall tool, ~ allowed tool) ->
     invoked (Execute r name params w) = [] /\
     world (Execute r name params w) = w /\
     result (Execute r name params w) = None /\
     is_Some (err (Execute r name params w))).
Proof.
  intros allowed. split.
  - intros tool [Hreg Hok]. unfold Execute, ToolFacts.ran, Get. rewrite Hreg.
    destruct (Run tool params w) as [[res e] w'] eqn:Erun. simpl.
    destruct (Schema tool) as [schema|]; [|done].
    destruct (validator r) as [v|]; [|done].
    destruct Hok as [?|[?|(v' & [= <-] & ->)]]; done.
  - intros Hno. unfold Execute, Get.
    destruct (tools r !! name) as [tool|] eqn:Hreg; [|simpl; eauto].
    destruct (Schema tool) as [schema|] eqn:Hs;
      [|exfalso; apply (Hno tool); split; [done|]; left; done].
    destruct (validator r) as [v|] eqn:Hv;
      [|exfalso; apply (Hno tool); split; [done|]; right; left; done].
    destruct (v params (Some schema)) as [e|] eqn:He; [simpl; eauto|].
    exfalso. apply (Hno tool). split; [done|]. right. right.
    exists v. rewrite Hs. done.
Qed.

End ValidatorMore.

(** An instance of X3: a path that is a string is accepted. *)
Lemma Validate_accepts_iff_witness :
  Tool.Validate map_to_list (fun _ => true) (fun _ => true)
    (Some {[ "path" := VString "notes.txt" ]}) (Some ToolFacts.pathSchema) = None.
Proof.
  apply (proj2 (Validate_accepts_iff map_to_list (fun m => reflexivity _)
                  (fun _ => true) (fun _ => true)
                  (Some {[ "path" := VString "notes.txt" ]}) ToolFacts.pathSchema)).
  split.
  - intros field Hin. apply list_elem_of_singleton in Hin as ->. by eexists.
  - intros key value def Hp Hd _. simpl in Hp, Hd.
    apply lookup_singleton_Some in Hp as [<- <-].
    apply lookup_singleton_Some in Hd as [_ <-]. constructor.
Defined.

(** An instance of X4: a property of type date. *)
Lemma unsupported_type_rejects_all_witness :
  is_Some (Tool.Validate map_to_list (fun _ => true) (fun _ => true)
             (Some {[ "when" := VString "today" ]})
             (Some {| Type_ := "object";
                      Properties := {[ "when" := VMap {[ "type" := VString "date" ]} ]};
                      Required := [] |})).
Proof.
  apply (unsupported_type_rejects_all map_to_list (fun m => reflexivity _)
           (fun _ => true) (fun _ => true) _ _ "when" (VString "today")
           (VMap {[ "type" := VString "date" ]})).
  - reflexivity.
  - discriminate.
  - change (extractExpectedType (VMap {[ "type" := VString "date" ]})) with "date".
    unfold supported. intros Hin.
    repeat (apply elem_of_cons in Hin as [Hin|Hin]; [discriminate|]).
    by apply elem_of_nil in Hin.
  - reflexivity.
Defined.

(** An instance of X5: a [json.Number] that parses. *)
Lemma integer_is_number_witness :
  Tool.validateType (fun _ => true) (fun _ => true) (VNumber "7") "number" = None.
Proof.
  apply (integer_is_number (fun _ => true) (fun _ => true) (VNumber "7"));
    [done|reflexivity].
Defined.

End ToolMoreFacts.

(** ** More on the in-memory session *)

Module SessionMoreFacts.

Import Session.

(** *** Copies *)

Lemma cloneMap_idem m : cloneMap (cloneMap m) = cloneMap m.
Proof. unfold cloneMap. repeat case_decide; try done. Qed.

Lemma cloneToolCall_idem c : cloneToolCall (cloneToolCall c) = cloneToolCall c.
Proof. unfold cloneToolCall. simpl. by rewrite !cloneMap_idem. Qed.

Lemma cloneToolCalls_map calls : cloneToolCalls calls = cloneToolCall <$> calls.
Proof. by destruct calls. Qed.

Lemma cloneMessage_idem m : cloneMessage (cloneMessage m) = cloneMessage m.
Proof.
  unfold cloneMessage. simpl. f_equal.
  rewrite !cloneToolCalls_map, <- list_fmap_compose.
  apply list_fmap_ext. intros _ c _. apply cloneToolCall_idem.
Qed.

Lemma cloneMessages_map msgs : cloneMessages msgs = cloneMessage <$> msgs.
Proof. by destruct msgs. Qed.

Lemma cloneMessages_idem msgs :
  cloneMessages (cloneMessages msgs) = cloneMessages msgs.
Proof.
  rewrite !cloneMessages_map, <- list_fmap_compose.
  apply list_fmap_ext. intros _ m _. apply cloneMessage_idem.
Qed.

(** *** The pages of [List] *)

(** Whether [List] lets a message through its filter: the role when one is
    asked for, and the two ends of the time window when they are set. *)
Definition keeps (filter : Filter) (msg : Message) : bool :=
  negb (bool_decide (GoStrings.TrimSpace (f_Role filter) <> "")
        && bool_decide (Role msg <> GoStrings.TrimSpace (f_Role filter)))
  && negb (match StartTime filter with
           | Some t => Before (Timestamp msg) (UTC t)
           | None => false
           end)
  && negb (match EndTime filter with
           | Some t => After (Timestamp msg) (UTC t)
           | None => false
           end).

(** A page: the first [limit] of a list when the limit is positive, all of
    it otherwise. *)
Definition page (limit : Z) {A : Type} (l : list A) : list A :=
  if (0 <? limit)%Z then take (Z.to_nat limit) l else l.

Lemma page_pos {A : Type} limit (l : list A) :
  (0 < limit)%Z -> page limit l = take (Z.to_nat limit) l.
Proof. intros H. unfold page. by rewrite (proj2 (Z.ltb_lt 0 limit) H). Qed.

Lemma page_nonpos {A : Type} limit (l : list A) :
  (limit <= 0)%Z -> page limit l = l.
Proof. intros H. unfold page. by rewrite (proj2 (Z.ltb_ge 0 limit) H). Qed.

Lemma listLoop_pages (filter : Filter) (offset limit : Z) msgs :
  forall skipped result,
    (0 <= skipped <= offset)%Z ->
    (limit <= 0 \/ Z.of_nat (length result) < limit)%Z ->
    listLoop (GoStrings.TrimSpace (f_Role filter)) (StartTime filter)
      (EndTime filter) offset limit msgs skipped result
    = result ++
      page (if (0 <? limit)%Z then limit - Z.of_nat (length result) else 0)%Z
        (cloneMessage <$>
           drop (Z.to_nat (offset - skipped))
             (List.filter (keeps filter) msgs)).
Proof.
  induction msgs as [|msg rest IH]; intros skipped result Hs Hl; simpl.
  - rewrite drop_nil. simpl. unfold page. case_match; by rewrite ?take_nil, app_nil_r.
  - unfold keeps at 1.
    destruct (bool_decide (GoStrings.TrimSpace (f_Role filter) <> "")
              && bool_decide (Role msg <> GoStrings.TrimSpace (f_Role filter))) eqn:Er;
      simpl; [by apply IH|].
    destruct (match StartTime filter with
              | Some t => Before (Timestamp msg) (UTC t)
              | None => false
              end) eqn:Eb; simpl; [by apply IH|].
    destruct (match EndTime filter with
              | Some t => After (Timestamp msg) (UTC t)
              | None => false
              end) eqn:Ea; simpl; [by apply IH|].
    destruct (skipped <? offset)%Z eqn:Esk.
    + rewrite IH by lia.
      replace (Z.to_nat (offset - skipped)) with (S (Z.to_nat (offset - (skipped + 1))))
        by lia.
      done.
    + replace (Z.to_nat (offset - skipped)) with 0 by lia.
      rewrite drop_0. rewrite length_app. simpl.
      destruct (0 <? limit)%Z eqn:Elim; simpl.
      * rewrite (page_pos (limit - Z.of_nat (length result))) by lia.
        replace (Z.to_nat (limit - Z.of_nat (length result)))
          with (S (Z.to_nat (limit - Z.of_nat (length result + 1)))) by lia.
        simpl.
        destruct (limit <=? Z.of_nat (length result + 1))%Z eqn:Efull;
          [apply Z.leb_le in Efull|apply Z.leb_gt in Efull];
          apply Z.ltb_lt in Elim; apply Z.ltb_ge in Esk.
        -- replace (Z.to_nat (limit - Z.of_nat (length result + 1))) with 0 by lia.
           by rewrite take_0.
        -- rewrite IH by (rewrite ?length_app; simpl; lia).
           rewrite length_app. simpl.
           replace (Z.to_nat (offset - skipped)) with 0 by lia. rewrite drop_0.
           rewrite page_pos by lia. by rewrite <- app_assoc.
      * apply Z.ltb_ge in Elim, Esk.
        rewrite IH by (rewrite ?length_app; simpl; lia).
        replace (Z.to_nat (offset - skipped)) with 0 by lia. rewrite drop_0.
        rewrite !page_nonpos by lia. by rewrite <- app_assoc.
Qed.

(** X7. On an open session [List] gives a page of the messages that the
    filter keeps, in their order: it skips the first [Offset] of them (none
    when the offset is negative) and gives the next [Limit] (all of them
    when the limit is zero or negative), each as a copy. *)
Theorem List_pages (s : MemorySession) (filter : Filter) :
  closed s = false ->
  List s filter
  = (page (Limit filter)
       (cloneMessage <$>
          drop (Z.to_nat (Offset filter)) (List.filter (keeps filter) (messages s))),
     None).
Proof.
  intros Hopen. unfold List. rewrite Hopen. f_equal.
  rewrite listLoop_pages by (repeat case_match; simpl; lia).
  simpl. rewrite !Z.sub_0_r.
  assert (Hoff : Z.to_nat (if (Offset filter <? 0)%Z then 0%Z else Offset filter)
                 = Z.to_nat (Offset filter)) by (case_match; lia).
  rewrite Hoff. clear Hoff.
  destruct (Limit filter <? 0)%Z eqn:El; simpl.
  - by rewrite !page_nonpos by lia.
  - destruct (0 <? Limit filter)%Z eqn:Ep; [done|].
    by rewrite !page_nonpos by lia.
Qed.

(** An instance of X7, as in the session's test of [List]: two messages of
    three. *)
Lemma List_pages_witness :
  let say c := {| ID := c; Role := "user"; Content := c; ToolCalls := [];
                  Timestamp := 5%Z |} in
  let s := {| id := "chat"; messages := [say "a"; say "b"; say "c"];
              checkpoints := Some ∅; seq := 3; closed := false |} in
  let f := {| StartTime := None; EndTime := None; f_Role := ""; Limit := 1%Z;
              Offset := 1%Z |} in
  List s f = ([say "b"], None).
Proof. intros say s f. exact (List_pages s f eq_refl). Defined.

(** *** Sequences of operations *)

(** One of the operations that change a session. *)
Inductive Op : Type :=
| OpAppend (now : Time) (msg : Message)
| OpCheckpoint (name : string)
| OpResume (name : string)
| OpClose.

(** The session after an operation, whatever error it returned, or the
    panic of the operation. *)
Definition apply (s : MemorySession) (op : Op) : outcome MemorySession :=
  match op with
  | OpAppend now msg => Returns (Append s now msg).2
  | OpCheckpoint name =>
      match Checkpoint s name with
      | Returns r => Returns r.2
      | Panics => Panics
      end
  | OpResume name => Returns (Resume s name).2
  | OpClose => Returns (Close s).2
  end.

(** The session after the operations of a list; a panic ends it. *)
Fixpoint run (ops : list Op) (s : MemorySession) : outcome MemorySession :=
  match ops with
  | [] => Returns s
  | op :: rest =>
      match apply s op with
      | Returns s' => run rest s'
      | Panics => Panics
      end
  end.

(** An open session has its map of checkpoints. *)
Definition sound (s : MemorySession) : Prop :=
  closed s = false -> is_Some (checkpoints s).

Lemma apply_sound s op : sound s -> exists s', apply s op = Returns s' /\ sound s'.
Proof.
  intros Hs. destruct op as [now msg|name|name|]; simpl.
  - eexists. split; [done|]. unfold Append.
    case_decide; [done|]. destruct (closed s) eqn:Ec; [done|].
    unfold sound. simpl. intros _. by apply Hs.
  - unfold Checkpoint. destruct (normalizeCheckpointName name) as [n [e|]]; [eauto|].
    destruct (closed s) eqn:Ec; [eauto|].
    destruct (Hs Ec) as [cps ->]. eexists. split; [done|]. intros _. by eexists.
  - eexists. split; [done|]. unfold Resume.
    destruct (normalizeCheckpointName name) as [n [e|]]; [done|].
    destruct (closed s) eqn:Ec; [done|].
    destruct (checkpoints s ≫= _); [|done]. simpl. intros _. by apply Hs.
  - eexists. split; [done|]. unfold Close.
    destruct (closed s) eqn:Ec; [done|]. simpl. by intros.
Qed.

Lemma run_sound ops : forall s, sound s -> exists s', run ops s = Returns s' /\ sound s'.
Proof.
  induction ops as [|op rest IH]; intros s Hs; simpl; [eauto|].
  destruct (apply_sound s op Hs) as (s' & -> & Hs'). by apply IH.
Qed.

(** X8. A session made by [NewMemorySession] or by [Fork] never panics:
    whatever operations are run on it, each returns, and [Checkpoint] never
    writes into a nil map. *)
Theorem sessions_never_panic (s : MemorySession) (ops : list Op) :
  (exists id', NewMemorySession id' = (Some s, None)) \/
  (exists parent id', Fork parent id' = (Some s, None)) ->
  exists s', run ops s = Returns s' /\
             forall name, Checkpoint s' name <> Panics.
Proof.
  intros Hmade.
  assert (Hs : sound s).
  { destruct Hmade as [[id' H]|(parent & id' & H)].
    - unfold NewMemorySession in H. case_decide; [done|].
      injection H as <-. intros _. by eexists.
    - unfold Fork in H. case_decide; [done|].
      destruct (closed parent); [done|]. injection H as <-. intros _. by eexists. }
  destruct (run_sound ops s Hs) as (s' & Hrun & Hs'). exists s'. split; [done|].
  intros name. destruct (apply_sound s' (OpCheckpoint name) Hs') as (s'' & H & _).
  simpl in H. by destruct (Checkpoint s' name).
Qed.

(** An instance of X8: a checkpoint of a new session. *)
Lemma sessions_never_panic_witness :
  exists s', run [OpCheckpoint "start"] SessionFacts.chat = Returns s' /\
             forall name, Checkpoint s' name <> Panics.
Proof.
  apply sessions_never_panic. left. exists "chat". reflexivity.
Defined.

(** *** Checkpoints *)

(** The operations that leave the checkpoint [name] as it is: everything
    but a close and a checkpoint under the same name. *)
Definition spares (name : string) (op : Op) : Prop :=
  match op with
  | OpCheckpoint name' => GoStrings.TrimSpace name' <> GoStrings.TrimSpace name
  | OpClose => False
  | _ => True
  end.

Lemma apply_spares name op s snapshot :
  spares name op -> closed s = false ->
  checkpoints s ≫= (.!! GoStrings.TrimSpace name) = Some snapshot ->
  exists s', apply s op = Returns s' /\ closed s' = false /\
             checkpoints s' ≫= (.!! GoStrings.TrimSpace name) = Some snapshot.
Proof.
  intros Hop Hopen Hcp. destruct op as [now msg|name'|name'|]; simpl in *.
  - eexists. split; [done|]. unfold Append.
    case_decide; [done|]. rewrite Hopen. done.
  - unfold Checkpoint, normalizeCheckpointName. case_decide; [eauto|].
    rewrite Hopen. destruct (checkpoints s) as [cps|]; [|done].
    eexists. split; [done|]. simpl in *. split; [done|].
    by rewrite lookup_insert_ne.
  - eexists. split; [done|]. unfold Resume, normalizeCheckpointName.
    case_decide; [done|]. rewrite Hopen.
    destruct (checkpoints s ≫= (.!! GoStrings.TrimSpace name')); done.
  - done.
Qed.

(** X9. A checkpoint is found again: after [Checkpoint] has succeeded under
    a name, and whatever has been appended, resumed or saved under other
    names since, [Resume] under that name succeeds and puts back the
    messages that the session had at the checkpoint, as copies. *)
Theorem Resume_restores_checkpoint (s s1 : MemorySession) (name : string)
  (ops : list Op) :
  Checkpoint s name = Returns (None, s1) ->
  Forall (spares name) ops ->
  exists s2 s3,
    run ops s1 = Returns s2 /\
    Resume s2 name = (None, s3) /\
    messages s3 = cloneMessages (messages s) /\
    checkpoints s3 = checkpoints s2.
Proof.
  intros Hcp Hops.
  assert (H1 : closed s1 = false /\
               checkpoints s1 ≫= (.!! GoStrings.TrimSpace name)
               = Some (cloneMessages (messages s)) /\
               GoStrings.TrimSpace name <> "").
  { unfold Checkpoint, normalizeCheckpointName in Hcp. case_decide; [done|].
    destruct (closed s) eqn:Ec; [done|]. destruct (checkpoints s); [|done].
    injection Hcp as <-. simpl. by rewrite lookup_insert_eq. }
  destruct H1 as (Hopen & Hsnap & Hname). clear Hcp.
  revert s1 Hopen Hsnap. induction Hops as [|op rest Hop Hrest IH]; intros s1 Hopen Hsnap.
  - exists s1. eexists. split; [done|].
    unfold Resume, normalizeCheckpointName. case_decide; [done|].
    rewrite Hopen, Hsnap. simpl. split; [done|]. split; [|done].
    apply cloneMessages_idem.
  - destruct (apply_spares name op s1 _ Hop Hopen Hsnap) as (s' & Happ & Ho & Hs).
    destruct (IH s' Ho Hs) as (s2 & s3 & Hrun & H).
    exists s2, s3. simpl. by rewrite Happ.
Qed.

(** An instance of X9: a message comes after the checkpoint and is gone
    after the resume. *)
Lemma Resume_restores_checkpoint_witness :
  exists s2 s3,
    run [OpAppend 1700%Z SessionFacts.hello]
      {| id := "chat"; messages := [];
         checkpoints := Some {[ "start" := [] ]}; seq := 0; closed := false |}
    = Returns s2 /\
    Resume s2 " start " = (None, s3) /\
    messages s3 = cloneMessages (messages SessionFacts.chat) /\
    checkpoints s3 = checkpoints s2.
Proof.
  apply (Resume_restores_checkpoint SessionFacts.chat _ " start "
           [OpAppend 1700%Z SessionFacts.hello] eq_refl).
  repeat constructor.
Defined.

(** *** Forks *)

Lemma filter_keeps_clone filter msgs :
  List.filter (keeps filter) (cloneMessage <$> msgs)
  = cloneMessage <$> List.filter (keeps filter) msgs.
Proof.
  induction msgs as [|m rest IH]; [done|].
  rewrite fmap_cons. cbn [List.filter].
  change (keeps filter (cloneMessage m)) with (keeps filter m).
  destruct (keeps filter m); by rewrite ?fmap_cons, IH.
Qed.

(** X10. A fork of an open session is an open session under the trimmed
    identifier that lists, under every filter, what its parent lists, and
    that resumes every checkpoint of its parent to the same messages; its
    count of messages restarts at the length of the transcript. *)
Theorem Fork_copies_the_transcript (s child : MemorySession) (id' : string) :
  Fork s id' = (Some child, None) ->
  id child = GoStrings.TrimSpace id' /\ id child <> "" /\
  closed child = false /\
  seq child = (N.of_nat (length (messages s)) mod 2 ^ 64)%N /\
  (forall filter, List child filter = List s filter) /\
  (forall name, (Resume s name).1 = None ->
                (Resume child name).1 = None /\
                messages (Resume child name).2 = messages (Resume s name).2).
Proof.
  unfold Fork. case_decide as Hid; [done|].
  destruct (closed s) eqn:Hopen; [done|]. intros [= <-]. simpl.
  do 4 (split; [done|]). split.
  - intros filter. rewrite !List_pages by done. simpl.
    rewrite cloneMessages_map, filter_keeps_clone, <- fmap_drop.
    rewrite <- list_fmap_compose. do 2 f_equal.
    apply list_fmap_ext. intros _ m _. apply cloneMessage_idem.
  - intros name. unfold Resume, normalizeCheckpointName.
    case_decide; [done|]. simpl. rewrite Hopen.
    unfold cloneCheckpointMap.
    destruct (checkpoints s) as [cps|] eqn:Ecp; simpl; [|done].
    destruct (cps !! GoStrings.TrimSpace name) as [snapshot|] eqn:El; simpl; [|done].
    intros _. case_decide as Hsize.
    + apply map_size_empty_iff in Hsize. subst cps. by rewrite lookup_empty in El.
    + rewrite lookup_fmap, El. simpl. by rewrite cloneMessages_idem.
Qed.

(** An instance of X10: a fork of the session of the tests. *)
Lemma Fork_copies_the_transcript_witness :
  forall filter,
    List {| id := "child"; messages := []; checkpoints := Some ∅;
            seq := 0; closed := false |} filter
    = List SessionFacts.chat filter.
Proof.
  exact (proj1 (proj2 (proj2 (proj2 (proj2
           (Fork_copies_the_transcript SessionFacts.chat _ " child" eq_refl)))))).
Defined.

(** *** The identifiers that [Append] gives *)

(** The number that a string of digits writes, with zeros in front or
    not. *)
Definition readNumber (s : string) : option N :=
  N.of_uint <$> NilEmpty.uint_of_string s.

Lemma readNumber_zeros k s : readNumber (zeros k ++ s) = readNumber s.
Proof.
  induction k as [|k IH]; [done|]. unfold readNumber in *. simpl.
  destruct (NilEmpty.uint_of_string (zeros k ++ s)) as [d|],
           (NilEmpty.uint_of_string s) as [d'|]; simpl in *; try done.
Qed.

Lemma readNumber_sprintf06d n : readNumber (sprintf06d n) = Some n.
Proof.
  unfold sprintf06d. rewrite readNumber_zeros. unfold readNumber.
  assert (H : NilZero.string_of_uint (N.to_uint n)
              = NilEmpty.string_of_uint (N.to_uint n)).
  { destruct n as [|p]; [done|]. simpl.
    pose proof (DecimalPos.Unsigned.to_uint_nonnil p).
    by destruct (Pos.to_uint p). }
  rewrite H, NilEmpty.usu. simpl. by rewrite DecimalN.Unsigned.of_to.
Qed.

Lemma append_inj_l (p a b : string) : (p ++ a = p ++ b)%string -> a = b.
Proof. induction p as [|c p IH]; simpl; [done|]. intros [= H]. auto. Qed.

Lemma apply_seq s op s' :
  apply s op = Returns s' ->
  id s' = id s /\ (seq s' = seq s \/ seq s' = ((seq s + 1) mod 2 ^ 64)%N).
Proof.
  destruct op as [now msg|name|name|]; simpl.
  - intros [= <-]. unfold Append. case_decide; [auto|].
    destruct (closed s); simpl; auto.
  - unfold Checkpoint. destruct (normalizeCheckpointName name) as [n [e|]].
    + intros [= <-]. auto.
    + destruct (closed s); [intros [= <-]; auto|].
      destruct (checkpoints s); [|done]. intros [= <-]. auto.
  - intros [= <-]. unfold Resume.
    destruct (normalizeCheckpointName name) as [n [e|]]; [auto|].
    destruct (closed s); [auto|]. destruct (checkpoints s ≫= _); auto.
  - intros [= <-]. unfold Close. destruct (closed s); auto.
Qed.

Lemma run_seq ops : forall s s',
  run ops s = Returns s' ->
  (seq s + N.of_nat (length ops) < 2 ^ 64)%N ->
  id s' = id s /\ (seq s <= seq s' <= seq s + N.of_nat (length ops))%N.
Proof.
  induction ops as [|op rest IH]; intros s s'; simpl.
  - intros [= <-] _. split; [done|]. lia.
  - destruct (apply s op) as [s1|] eqn:E; [|done]. intros Hrun Hb.
    apply apply_seq in E as [Hid Hseq].
    assert (Hs1 : (seq s <= seq s1 <= seq s + 1)%N).
    { destruct Hseq as [->| ->]; [lia|]. rewrite N.mod_small by lia. lia. }
    destruct (IH s1 s' Hrun ltac:(lia)) as [Hid' Hb']. split; [congruence|]. lia.
Qed.

(** X11. As long as the count of a session does not reach 2^64, an
    identifier that [Append] gives to a message without one is the
    identifier of the session, a dash and the count in six digits or more,
    and differs from every identifier that [Append] has given before on
    that session. *)
Theorem generated_ids_differ (s s2 : MemorySession) (ops : list Op)
  (now now' : Time) (msg msg' : Message) :
  closed s = false -> closed s2 = false ->
  GoStrings.TrimSpace (Role msg) <> "" -> GoStrings.TrimSpace (Role msg') <> "" ->
  ID msg = "" -> ID msg' = "" ->
  (seq s + N.of_nat (length ops) + 2 < 2 ^ 64)%N ->
  run ops (Append s now msg).2 = Returns s2 ->
  exists m m',
    last (messages (Append s now msg).2) = Some m /\
    last (messages (Append s2 now' msg').2) = Some m' /\
    ID m = (id s ++ "-" ++ sprintf06d (seq s + 1))%string /\
    ID m <> ID m'.
Proof.
  intros Hopen Hopen2 Hr Hr' Hid Hid' Hbound Hrun.
  assert (Hs1 : seq (Append s now msg).2 = (seq s + 1)%N /\
                id (Append s now msg).2 = id s).
  { unfold Append. case_decide; [done|]. rewrite Hopen. simpl.
    rewrite N.mod_small by lia. done. }
  destruct Hs1 as [Hseq1 Hid1].
  apply run_seq in Hrun as [Hid2 Hseq2]; [|lia].
  rewrite Hseq1 in Hseq2. rewrite Hid1 in Hid2.
  unfold Append. repeat case_decide; try done. rewrite Hopen, Hopen2. simpl.
  rewrite !last_snoc. eexists. eexists. split; [done|]. split; [done|]. simpl.
  repeat case_decide; try done.
  rewrite !N.mod_small by lia. split; [done|].
  rewrite Hid2. intros Heq. apply append_inj_l, append_inj_l in Heq.
  apply (f_equal readNumber) in Heq. rewrite !readNumber_sprintf06d in Heq.
  injection Heq as Heq. lia.
Qed.

(** An instance of X11: the first two messages of the session of the
    tests. *)
Lemma generated_ids_differ_witness :
  exists m m',
    last (messages (Append SessionFacts.chat 1700%Z SessionFacts.hello).2) = Some m /\
    last (messages (Append (Append SessionFacts.chat 1700%Z SessionFacts.hello).2
                      1701%Z SessionFacts.hello).2) = Some m' /\
    ID m = "chat-000001" /\ ID m <> ID m'.
Proof.
  apply (generated_ids_differ SessionFacts.chat _ [] 1700%Z 1701%Z
           SessionFacts.hello SessionFacts.hello); try done.
Defined.

End SessionMoreFacts.

(** ** pkg/session: the composite backend *)

Module SessionBackendFacts.
Import SessionBackend.

Lemma prefix_same_length (a b s : string) :
  String.prefix a s = true -> String.prefix b s = true ->
  String.length a = String.length b -> a = b.
Proof.
  revert b s. induction a as [|c a IH]; intros [|d b] [|e s]; simpl; try done.
  destruct (ascii_dec c e) as [->|]; [|done].
  destruct (ascii_dec d e) as [->|]; [|done].
  intros Ha Hb [= Hl]. f_equal. eauto.
Qed.

Lemma prefix_length (a s : string) :
  String.prefix a s = true -> String.length a <= String.length s.
Proof.
  revert s. induction a as [|c a IH]; intros [|e s]; simpl; try done; try lia.
  destruct (ascii_dec c e); [|done]. intros H%IH. lia.
Qed.

Lemma prefix_refl (s : string) : String.prefix s s = true.
Proof. induction s as [|c s IH]; simpl; [done|]. by destruct (ascii_dec c c). Qed.

Section Composite.

Context {World : Type}.
Variable Clean : string -> string.
Variable range : gmap string (Backend World) -> list (string * Backend World).
Hypothesis range_perm : forall m, range m ≡ₚ map_to_list m.

Local Abbreviation normalizePath := (normalizePath Clean).
Local Abbreviation normalizePrefix := (normalizePrefix Clean).
Local Abbreviation AddRoute := (AddRoute Clean).
Local Abbreviation Route := (Route Clean range).
Local Abbreviation routeOrErr := (routeOrErr Clean range).
Local Abbreviation Read := (Read Clean range).
Local Abbreviation Write := (Write Clean range).
Local Abbreviation List := (List Clean range).
Local Abbreviation Delete := (Delete Clean range).

Lemma normalizePath_rooted p : HasPrefix (normalizePath p) "/" = true.
Proof.
  unfold normalizePath. repeat case_decide; try done.
  destruct (HasPrefix (Clean p) "/") eqn:E; simpl; [done|].
  unfold HasPrefix. cbn. by destruct (Clean p).
Qed.

Lemma normalizePrefix_is_normalizePath p : normalizePrefix p = normalizePath p.
Proof.
  unfold normalizePrefix. case_decide; [done|].
  by destruct (negb (HasSuffix (normalizePath p) "/")).
Qed.

Lemma normalizePath_nonempty p : normalizePath p <> "".
Proof.
  intros H. pose proof (normalizePath_rooted p) as Hr. by rewrite H in Hr.
Qed.

(** [k] is a longest non-empty prefix of [path] among the keys of the
    routes [l]. *)
Definition longest (path : string) (l : list (string * Backend World))
    (k : string) : Prop :=
  k <> "" /\ HasPrefix path k = true /\
  forall k' be', (k', be') ∈ l -> HasPrefix path k' = true ->
                 String.length k' <= String.length k.

Definition best (path : string) (l : list (string * Backend World))
    (acc : option (Backend World) * nat) : Prop :=
  match acc.1 with
  | None => acc.2 = 0 /\
      forall k be, (k, be) ∈ l -> HasPrefix path k = true -> k = ""
  | Some be => exists k, (k, be) ∈ l /\ acc.2 = String.length k /\ longest path l k
  end.

Lemma routeStep_best path done acc route :
  best path done acc -> best path (done ++ [route]) (routeStep path acc route).
Proof.
  destruct route as [prefix backend], acc as [matched maxLen].
  unfold best, routeStep, longest. simpl.
  destruct (HasPrefix path prefix) eqn:Hp; simpl.
  - destruct (maxLen <? String.length prefix) eqn:Hl; simpl.
    + apply Nat.ltb_lt in Hl. intros H. exists prefix.
      split; [set_solver|]. split; [done|]. split; [by intros ->; simpl in Hl; lia|].
      split; [done|]. intros k' be' [Hin|Hin%list_elem_of_singleton]%elem_of_app Hk'.
      * destruct matched as [be|].
        -- destruct H as (k & _ & -> & _ & _ & Hmax). specialize (Hmax _ _ Hin Hk'). lia.
        -- destruct H as [-> H]. rewrite (H _ _ Hin Hk'). simpl. lia.
      * by injection Hin as -> ->.
    + apply Nat.ltb_ge in Hl. destruct matched as [be|].
      * intros (k & Hin & -> & Hne & Hk & Hmax). exists k.
        split; [set_solver|]. split; [done|]. split; [done|]. split; [done|].
        intros k' be' [Hin'|Hin'%list_elem_of_singleton]%elem_of_app Hk'; [eauto|].
        by injection Hin' as -> ->.
      * intros [-> H]. split; [done|].
        intros k be [Hin|Hin%list_elem_of_singleton]%elem_of_app Hk; [eauto|].
        injection Hin as -> ->. destruct prefix; [done|simpl in Hl; lia].
  - destruct matched as [be|].
    + intros (k & Hin & -> & Hne & Hk & Hmax). exists k.
      split; [set_solver|]. split; [done|]. split; [done|]. split; [done|].
      intros k' be' [Hin'|Hin'%list_elem_of_singleton]%elem_of_app Hk'; [eauto|].
      injection Hin' as -> ->. congruence.
    + intros [-> H]. split; [done|].
      intros k be [Hin|Hin%list_elem_of_singleton]%elem_of_app Hk; [eauto|].
      injection Hin as -> ->. congruence.
Qed.

Lemma foldl_best path l : forall done acc,
  best path done acc -> best path (done ++ l) (foldl (routeStep path) acc l).
Proof.
  induction l as [|route l IH]; intros done acc H; simpl.
  - by rewrite app_nil_r.
  - rewrite (assoc_L (++) done [route] l : done ++ route :: l = (done ++ [route]) ++ l).
    apply IH. by apply routeStep_best.
Qed.

Lemma Route_best b p :
  best (normalizePath p) (map_to_list (routes b))
       (foldl (routeStep (normalizePath p)) (None, 0) (range (routes b))).
Proof using range_perm.
  pose proof (foldl_best (normalizePath p) (range (routes b)) [] (None, 0)) as H.
  simpl in H.
  assert (Hin : forall kv, kv ∈ range (routes b) <-> kv ∈ map_to_list (routes b))
    by (intros kv; by rewrite (range_perm (routes b))).
  specialize (H ltac:(split; [done|]; intros ? ? ?%elem_of_nil; done)).
  unfold best, longest in *.
  destruct (foldl _ _ _).1 as [be|].
  - destruct H as (k & Hk & Hl & Hne & Hp & Hmax). exists k.
    split; [by apply Hin|]. split; [done|]. split; [done|]. split; [done|].
    intros k' be' Hk'. apply (Hmax k' be'). by apply Hin.
  - destruct H as [H0 H]. split; [done|]. intros k be Hk. apply (H k be). by apply Hin.
Qed.

(** X12. [Route] answers with the backend of the longest registered prefix
    that is not empty and is a prefix of the normalised path, in whatever
    order the map of routes is visited; it answers nil exactly when no such
    prefix is registered, and always on a nil receiver. *)
Theorem Route_longest_prefix (b : CompositeBackend World) (p : string)
    (backend : Backend World) :
  (Route (Some b) p = Some backend <->
     exists k, routes b !! k = Some backend /\ k <> "" /\
       HasPrefix (normalizePath p) k = true /\
       forall k', is_Some (routes b !! k') -> HasPrefix (normalizePath p) k' = true ->
                  String.length k' <= String.length k) /\
  (Route (Some b) p = None <->
     forall k, is_Some (routes b !! k) -> HasPrefix (normalizePath p) k = true ->
               k = "") /\
  Route None p = None.
Proof using range_perm.
  pose proof (Route_best b p) as H. unfold Route, best, longest in *.
  set (path := normalizePath p) in *.
  destruct (foldl _ _ _).1 as [be|]; simpl.
  - destruct H as (k & Hk%elem_of_map_to_list & _ & Hne & Hp & Hmax).
    assert (Hmax' : forall k', is_Some (routes b !! k') -> HasPrefix path k' = true ->
                               String.length k' <= String.length k).
    { intros k' [be' Hk'] Hp'. apply (Hmax k' be'); [|done]. by apply elem_of_map_to_list. }
    split; [|split; [|done]].
    + split.
      * intros [= <-]. by exists k.
      * intros (k2 & Hk2 & Hne2 & Hp2 & Hmax2).
        assert (k2 = k) as ->.
        { apply (prefix_same_length _ _ path); [done|done|].
          apply Nat.le_antisymm; [by apply Hmax'|by apply Hmax2]. }
        congruence.
    + split; [done|]. intros Hnone. by destruct Hne; apply Hnone.
  - destruct H as [_ H]. split; [|split; [|done]].
    + split; [done|]. intros (k & Hk & Hne & Hp & _).
      destruct Hne. apply (H k backend); [|done]. by apply elem_of_map_to_list.
    + split; [|done]. intros _ k [be Hk] Hp. apply (H k be); [|done].
      by apply elem_of_map_to_list.
Qed.

(** X13. [AddRoute] fails for a nil backend only, and then changes nothing:
    a normalised prefix starts with a slash, so the empty-prefix error
    never arises. After it succeeds, [Route] on the same prefix answers
    with the backend just added, and a path that the normalised prefix is
    no prefix of is routed as before. *)
Theorem AddRoute_then_Route (b : CompositeBackend World) (prefix : string)
    (backend : option (Backend World)) :
  match backend with
  | None => AddRoute b prefix backend = (b, Some (New "session: backend cannot be nil"))
  | Some be =>
      (AddRoute b prefix backend).2 = None /\
      routes (AddRoute b prefix backend).1 = <[normalizePath prefix := be]> (routes b) /\
      Route (Some (AddRoute b prefix backend).1) prefix = Some be /\
      forall p, HasPrefix (normalizePath p) (normalizePath prefix) = false ->
                Route (Some (AddRoute b prefix backend).1) p = Route (Some b) p
  end.
Proof using range_perm.
  destruct backend as [be|]; [|done].
  unfold AddRoute. rewrite normalizePrefix_is_normalizePath.
  case_decide as Hempty; [by destruct (normalizePath_nonempty prefix)|].
  cbn [fst snd].
  set (b' := {| routes := <[normalizePath prefix:=be]> (routes b) |}).
  split; [done|]. split; [done|]. split.
  - apply (proj2 (proj1 (Route_longest_prefix b' prefix be))).
    exists (normalizePath prefix). simpl. rewrite lookup_insert_eq.
    split; [done|]. split; [done|]. split; [apply prefix_refl|].
    intros k' _. apply prefix_length.
  - intros p Hp.
    destruct (Route (Some b) p) as [be0|] eqn:E.
    + apply (proj1 (proj1 (Route_longest_prefix b p be0))) in E.
      destruct E as (k & Hk & Hne & Hpk & Hmax).
      apply (proj2 (proj1 (Route_longest_prefix b' p be0))). exists k. simpl.
      assert (k <> normalizePath prefix) by congruence.
      rewrite lookup_insert_ne by done. split; [done|]. split; [done|]. split; [done|].
      intros k' Hk' Hpk'. apply Hmax; [|done].
      rewrite lookup_insert_ne in Hk' by congruence. done.
    + pose proof (proj1 (proj1 (proj2 (Route_longest_prefix b p be))) E) as E'.
      apply (proj2 (proj1 (proj2 (Route_longest_prefix b' p be)))).
      intros k Hk Hpk. simpl in Hk. apply E'; [|done].
      rewrite lookup_insert_ne in Hk by congruence. done.
Qed.

(** X14. [Read], [Write], [List] and [Delete] on a path that no registered
    prefix matches fail with an error that is [ErrNoBackendRoute] and
    leave every backend as it was; on a path that [Route] finds a backend
    for, each is the call of that backend on the normalised path. *)
Theorem operations_follow_the_route (b : CompositeBackend World) (p : string)
    (data : list Byte.byte) (w : World) :
  match Route (Some b) p with
  | None =>
      exists e, errorsIs e ErrNoBackendRoute /\
        Read b p w = (([], Some e), w) /\ Write b p data w = (Some e, w) /\
        List b p w = (([], Some e), w) /\ Delete b p w = (Some e, w)
  | Some backend =>
      Read b p w = b_Read backend (normalizePath p) w /\
      Write b p data w = b_Write backend (normalizePath p) data w /\
      List b p w = b_List backend (normalizePath p) w /\
      Delete b p w = b_Delete backend (normalizePath p) w
  end.
Proof.
  unfold Read, Write, List, Delete, routeOrErr.
  destruct (Route (Some b) p) as [backend|]; [done|].
  eexists. split; [|done]. simpl. auto.
Qed.

End Composite.

(** A backend that holds nothing, and one that refuses every call. *)
Definition hollow : Backend unit := {|
  b_Read := fun _ w => (([], Some (New "not found")), w);
  b_Write := fun _ _ w => (None, w);
  b_List := fun _ w => (([], None), w);
  b_Delete := fun _ w => (None, w);
|}.

Definition refusing : Backend unit := {|
  b_Read := fun _ w => (([], Some (New "refused")), w);
  b_Write := fun _ _ w => (Some (New "refused"), w);
  b_List := fun _ w => (([], Some (New "refused")), w);
  b_Delete := fun _ w => (Some (New "refused"), w);
|}.

(** Two routes, one under the other; the paths are clean already. *)
Definition nested : CompositeBackend unit :=
  {| routes := <["/a/b" := refusing]> (<["/a" := hollow]> ∅) |}.

(** An instance of X12: the longer of two matching prefixes wins. *)
Lemma Route_longest_prefix_witness :
  Route (fun p => p) map_to_list (Some nested) "/a/b/c" = Some refusing.
Proof.
  apply (proj2 (proj1 (Route_longest_prefix (fun p => p) map_to_list
                         (fun m => reflexivity _) nested "/a/b/c" refusing))).
  exists "/a/b". split; [reflexivity|]. split; [discriminate|]. split; [reflexivity|].
  intros k' [be Hk] _. unfold nested in Hk. simpl in Hk.
  apply lookup_insert_Some in Hk as [[<- _]|[_ Hk]]; [simpl; lia|].
  apply lookup_insert_Some in Hk as [[<- _]|[_ Hk]]; [simpl; lia|].
  by rewrite lookup_empty in Hk.
Defined.

(** An instance of X13: a route added is the route found. *)
Lemma AddRoute_then_Route_witness :
  Route (fun p => p) map_to_list
    (Some (AddRoute (fun p => p) nested "/a/b/c" (Some hollow)).1) "/a/b/c"
  = Some hollow.
Proof.
  exact (proj1 (proj2 (proj2 (AddRoute_then_Route (fun p => p) map_to_list
           (fun m => reflexivity _) nested "/a/b/c" (Some hollow))))).
Defined.

End SessionBackendFacts.

(** ** pkg/event: bookmarks *)

Module EventFacts.
Import Event.

Section Bookmark.

Context {Value MarshalError Target UnmarshalError : Type}.
Variable Marshal : Value -> list Byte.byte + MarshalError.
Variable Unmarshal : list Byte.byte -> Target -> Target * option UnmarshalError.

Local Abbreviation error := (@error MarshalError UnmarshalError).
Local Abbreviation NewBookmark := (@NewBookmark _ _ Marshal UnmarshalError).
Local Abbreviation Snapshot := (@Snapshot _ _ Marshal UnmarshalError).
Local Abbreviation Advance := (@Advance MarshalError UnmarshalError).
Local Abbreviation Restore := (@Restore MarshalError _ _ Unmarshal).

(** The calls that change a bookmark. *)
Inductive Op : Type :=
| OpAdvance (position : Z)
| OpSnapshot (state : State Value).

(** A call on a bookmark, its error dropped. *)
Definition apply (b : Bookmark) (op : Op) : Bookmark :=
  match op with
  | OpAdvance position => default b (Advance (Some b) position).1
  | OpSnapshot state => default b (Snapshot (Some b) state).1
  end.

Definition run (ops : list Op) (b : Bookmark) : Bookmark := foldl apply b ops.

Lemma apply_keeps b op :
  ID (apply b op) = ID b /\ (Position b <= Position (apply b op))%Z.
Proof.
  destruct op as [position|state]; simpl.
  - destruct (position <? Position b)%Z eqn:E; simpl; (split; [done|]); [lia|].
    by apply Z.ltb_ge in E.
  - destruct (encodeState Marshal state) as [snapshot [err|]]; simpl;
      (split; [done|lia]).
Qed.

Lemma run_keeps ops : forall b,
  ID (run ops b) = ID b /\ (Position b <= Position (run ops b))%Z.
Proof.
  induction ops as [|op ops IH]; intros b; simpl; [split; [done|lia]|].
  destruct (IH (apply b op)) as [-> ?], (apply_keeps b op) as [-> ?].
  split; [done|lia].
Qed.

Lemma run_app earlier later b : run (earlier ++ later) b = run later (run earlier b).
Proof. apply foldl_app. Qed.

(** X15. The position of a bookmark never rolls back. A bookmark that
    [NewBookmark] returns has the trimmed identifier, which is not empty,
    and the position given, which is not negative; whatever [Advance] and
    [Snapshot] calls follow, the identifier stays and the position at any
    moment is at most the position at any later moment. [Advance] fails
    exactly on a position below the current one, and then changes
    nothing; otherwise the position is the one given. *)
Theorem position_never_rolls_back (id : string) (position : Z)
    (state : State Value) (b : Bookmark) (earlier later : list Op) :
  NewBookmark id position state = (Some b, None) ->
  let b1 := run earlier b in
  let b2 := run (earlier ++ later) b in
  ID b2 = GoStrings.TrimSpace id /\ ID b2 <> "" /\
  (0 <= position)%Z /\ Position b = position /\
  (Position b1 <= Position b2)%Z /\
  forall p,
    if (p <? Position b2)%Z
    then Advance (Some b2) p = (Some b2, Some (ErrRollback (Position b2) p))
    else exists b3, Advance (Some b2) p = (Some b3, None) /\
                    Position b3 = p /\ ID b3 = ID b2 /\ State_ b3 = State_ b2.
Proof.
  unfold NewBookmark. case_decide as Hid; [done|].
  destruct (position <? 0)%Z eqn:Hpos; [done|]. apply Z.ltb_ge in Hpos.
  destruct (encodeState Marshal state) as [snapshot [err|]]; [done|].
  intros [= <-]. cbv zeta. rewrite run_app.
  set (b0 := {| ID := _ |}).
  destruct (run_keeps earlier b0) as [Hid1 Hp1].
  destruct (run_keeps later (run earlier b0)) as [Hid2 Hp2].
  split; [by rewrite Hid2, Hid1|]. split; [by rewrite Hid2, Hid1|].
  split; [done|]. split; [done|]. split; [done|].
  intros p. unfold Event.Advance. destruct (p <? _)%Z; [done|]. by eexists.
Qed.

End Bookmark.

(** An instance of X15: a bookmark at 3, advanced to 5, refuses 4. *)
Lemma position_never_rolls_back_witness :
  Advance (MarshalError := Empty_set) (UnmarshalError := Empty_set)
    (Some {| ID := "wal"; Position := 5%Z; State_ := [] |}) 4%Z
  = (Some {| ID := "wal"; Position := 5%Z; State_ := [] |},
     Some (ErrRollback 5%Z 4%Z)).
Proof.
  exact (proj2 (proj2 (proj2 (proj2 (proj2
    (position_never_rolls_back (Value := Empty_set) (MarshalError := Empty_set)
       (UnmarshalError := Empty_set) (fun v => match v with end)
       " wal " 3%Z StateNil {| ID := "wal"; Position := 3%Z; State_ := [] |}
       [] [OpAdvance 5%Z] eq_refl))))) 4%Z).
Defined.

End EventFacts.

(** ** pkg/agent: run contexts *)

Module AgentFacts.
Import Agent.

(** [Merge] before it normalises: every field that the override sets. *)
Definition overridden (c o : RunContext) : RunContext := {|
  SessionID := if decide (SessionID o <> "") then SessionID o else SessionID c;
  WorkDir := if decide (WorkDir o <> "") then WorkDir o else WorkDir c;
  MaxIterations := if (0 <? MaxIterations o)%Z then MaxIterations o else MaxIterations c;
  MaxTokens := if (0 <? MaxTokens o)%Z then MaxTokens o else MaxTokens c;
  Timeout := if (0 <? Timeout o)%Z then Timeout o else Timeout c;
  ApprovalMode_ := if negb (ApprovalMode_ o =? 0)%Z then ApprovalMode_ o
                   else ApprovalMode_ c;
  Temperature := if negb (isZero (Temperature o)) then Temperature o
                 else Temperature c;
|}.

Lemma Merge_overridden c o : Merge c o = Normalize (overridden c o).
Proof.
  unfold Merge, overridden. f_equal.
  destruct c as [s d mi mt to am t], o as [s' d' mi' mt' to' am' t']; simpl.
  destruct (decide (s' <> "")); simpl; destruct (decide (d' <> "")); simpl;
    destruct (0 <? mi')%Z; simpl; destruct (0 <? mt')%Z; simpl;
    destruct (0 <? to')%Z; simpl; destruct (am' =? 0)%Z; simpl;
    destruct (isZero t'); reflexivity.
Qed.

Lemma Normalize_fields c :
  Normalize c = {|
    SessionID := SessionID c;
    WorkDir := WorkDir c;
    MaxIterations := if (MaxIterations c <=? 0)%Z then 1%Z else MaxIterations c;
    MaxTokens := if (MaxTokens c <? 0)%Z then 0%Z else MaxTokens c;
    Timeout := if (Timeout c <? 0)%Z then 0%Z else Timeout c;
    ApprovalMode_ := ApprovalMode_ c;
    Temperature := if isZero (Temperature c) then defaultTemperature
                   else Temperature c;
  |}.
Proof.
  unfold Normalize. destruct c as [s d mi mt to am t]; simpl.
  destruct (mi <=? 0)%Z; simpl; destruct (mt <? 0)%Z; simpl;
    destruct (to <? 0)%Z; simpl; destruct (isZero t); reflexivity.
Qed.

Ltac atomic t :=
  lazymatch t with
  | context [if _ then _ else _] => fail
  | _ => idtac
  end.

Ltac order_cases :=
  repeat (match goal with
          | |- context [(?a <=? ?b)%Z] =>
              atomic a; atomic b; destruct (Z.leb_spec a b)
          | |- context [(?a <? ?b)%Z] =>
              atomic a; atomic b; destruct (Z.ltb_spec a b)
          end; simpl).

(** X16. [Normalize] leaves at least one iteration, no negative token
    budget or timeout and a temperature that is not zero, touches no other
    field, changes nothing in a context that is in range already, and is
    idempotent. *)
Theorem Normalize_puts_in_range (c : RunContext) :
  (1 <= MaxIterations (Normalize c))%Z /\
  (0 <= MaxTokens (Normalize c))%Z /\
  (0 <= Timeout (Normalize c))%Z /\
  isZero (Temperature (Normalize c)) = false /\
  SessionID (Normalize c) = SessionID c /\
  WorkDir (Normalize c) = WorkDir c /\
  ApprovalMode_ (Normalize c) = ApprovalMode_ c /\
  Normalize (Normalize c) = Normalize c /\
  ((1 <= MaxIterations c)%Z /\ (0 <= MaxTokens c)%Z /\ (0 <= Timeout c)%Z /\
   isZero (Temperature c) = false -> Normalize c = c).
Proof.
  rewrite !Normalize_fields. simpl.
  repeat split; try (order_cases; lia).
  - by destruct (isZero (Temperature c)) eqn:E.
  - f_equal; try (order_cases; lia).
    destruct (isZero (Temperature c)) eqn:E; [done|]. by rewrite E.
  - intros (H1 & H2 & H3 & H4). destruct c; simpl in *. rewrite H4.
    f_equal; order_cases; lia.
Qed.

(** X17. [Merge] takes from the override the strings that are not empty,
    the iterations, token budget and timeout that are positive (a negative
    one is passed over like a zero), the approval mode and the temperature
    that are not zero, and every other field from the receiver, then
    normalises: the result is in range, merging the zero context is
    normalising, and normalising the receiver first changes nothing. *)
Theorem Merge_takes_what_is_set (c o : RunContext) :
  let m := Merge c o in
  SessionID m = (if decide (SessionID o = "") then SessionID c else SessionID o) /\
  WorkDir m = (if decide (WorkDir o = "") then WorkDir c else WorkDir o) /\
  MaxIterations m = (if (0 <? MaxIterations o)%Z then MaxIterations o
                     else MaxIterations (Normalize c)) /\
  MaxTokens m = (if (0 <? MaxTokens o)%Z then MaxTokens o
                 else MaxTokens (Normalize c)) /\
  Timeout m = (if (0 <? Timeout o)%Z then Timeout o else Timeout (Normalize c)) /\
  ApprovalMode_ m = (if (ApprovalMode_ o =? 0)%Z then ApprovalMode_ c
                     else ApprovalMode_ o) /\
  Temperature m = (if isZero (Temperature o) then Temperature (Normalize c)
                   else Temperature o) /\
  Normalize m = m /\
  Merge c zeroRunContext = Normalize c /\
  Merge (Normalize c) o = m.
Proof.
  cbv zeta. rewrite !Merge_overridden, !Normalize_fields. simpl.
  repeat split.
  - by repeat case_decide.
  - by repeat case_decide.
  - order_cases; lia.
  - order_cases; lia.
  - order_cases; lia.
  - by destruct (ApprovalMode_ o =? 0)%Z.
  - destruct (isZero (Temperature o)) eqn:E; simpl; [done|]. by rewrite E.
  - f_equal; try (order_cases; lia).
    destruct (isZero (Temperature o)) eqn:E; simpl.
    + destruct (isZero (Temperature c)) eqn:E'; [done|]. by rewrite E'.
    + by rewrite !E.
  - f_equal; try (order_cases; lia).
    destruct (isZero (Temperature o)) eqn:E; simpl; [|done].
    destruct (isZero (Temperature c)) eqn:E'; [done|]. by rewrite E'.
Qed.

(** X18. What a run resolves, as [Run] does it: without a run context in
    the [context.Context] it is the normalised default of the
    configuration; with one put there by [WithRunContext], which
    normalises it, the iterations and the temperature of the
    configuration are never used, while its session, directory, token
    budget, timeout and approval mode stand in for what the run context
    leaves unset. *)
Theorem injected_context_hides_defaults (config : Config) (ctx : option Context)
    (rc : RunContext) :
  let resolved :=
    ResolveContext config (GetRunContext (Some (WithRunContext ctx rc))).1 in
  ResolveContext config (GetRunContext (Some Background)).1
    = Normalize (DefaultContext config) /\
  ResolveContext config (GetRunContext None).1 = Normalize (DefaultContext config) /\
  MaxIterations resolved = MaxIterations (Normalize rc) /\
  Temperature resolved = Temperature (Normalize rc) /\
  SessionID resolved = (if decide (SessionID rc = "")
                        then SessionID (DefaultContext config) else SessionID rc) /\
  WorkDir resolved = (if decide (WorkDir rc = "")
                      then WorkDir (DefaultContext config) else WorkDir rc) /\
  MaxTokens resolved = (if (0 <? MaxTokens rc)%Z then MaxTokens rc
                        else MaxTokens (Normalize (DefaultContext config))) /\
  Timeout resolved = (if (0 <? Timeout rc)%Z then Timeout rc
                      else Timeout (Normalize (DefaultContext config))) /\
  ApprovalMode_ resolved = (if (ApprovalMode_ rc =? 0)%Z
                            then ApprovalMode_ (DefaultContext config)
                            else ApprovalMode_ rc).
Proof.
  cbv zeta. unfold ResolveContext, GetRunContext, WithRunContext. simpl.
  rewrite !Merge_overridden, !Normalize_fields. simpl.
  repeat split.
  - order_cases; lia.
  - destruct (isZero (Temperature rc)) eqn:E; simpl; [done|].
    rewrite !E. simpl. by rewrite E.
  - by repeat case_decide.
  - by repeat case_decide.
  - order_cases; lia.
  - order_cases; lia.
  - by destruct (ApprovalMode_ rc =? 0)%Z.
Qed.

(** An instance of X16: a context out of range in every field. *)
Lemma Normalize_puts_in_range_witness :
  Normalize {| SessionID := "s"; WorkDir := "/w"; MaxIterations := 3%Z;
               MaxTokens := 0%Z; Timeout := 5%Z; ApprovalMode_ := ApprovalAuto;
               Temperature := defaultTemperature |}
  = {| SessionID := "s"; WorkDir := "/w"; MaxIterations := 3%Z;
       MaxTokens := 0%Z; Timeout := 5%Z; ApprovalMode_ := ApprovalAuto;
       Temperature := defaultTemperature |}.
Proof.
  apply (Normalize_puts_in_range
           {| SessionID := "s"; WorkDir := "/w"; MaxIterations := 3%Z;
              MaxTokens := 0%Z; Timeout := 5%Z; ApprovalMode_ := ApprovalAuto;
              Temperature := defaultTemperature |}).
  repeat split; simpl; lia.
Defined.

(** *** Hooks and tool calls *)

Section Hooks.

Context {World HookError : Type}.
Variable now : World -> Z.
Variable hookErrorText : HookError -> string.
Variable toolErrorText : Tool.error -> string.

Local Abbreviation error := (error HookError).
Local Abbreviation Hook := (Hook World HookError).
Local Abbreviation basicAgent := (basicAgent World HookError).

(** A function of [runHooks] that writes down, in a log beside the world,
    each hook it is called on and what the hook returned. *)
Definition logged {H L : Type} (entry : H -> option error -> L)
    (fn : H -> World -> option error * World)
    : H -> World * list L -> option error * (World * list L) :=
  fun hook wl =>
    let '(err, w') := fn hook wl.1 in (err, (w', wl.2 ++ [entry hook err])).

Lemma logged_eq {H L : Type} (entry : H -> option error -> L)
    (fn : H -> World -> option error * World) hook w log :
  logged entry fn hook (w, log)
  = ((fn hook w).1, ((fn hook w).2, log ++ [entry hook (fn hook w).1])).
Proof. unfold logged. simpl. by destruct (fn hook w). Qed.

Lemma errorsIs_refl (e : error) : errorsIs e e.
Proof. destruct e; simpl; auto. Qed.

Lemma errorsJoin_None (a b : option error) :
  errorsJoin [a; b] = None <-> a = None /\ b = None.
Proof. destruct a, b; unfold errorsJoin; simpl; split; intros; try done; by destruct H. Qed.

Lemma errorsJoin_Is (a b : option error) (target : error) :
  ((exists e, a = Some e /\ errorsIs e target) \/
   (exists e, b = Some e /\ errorsIs e target)) ->
  exists e, errorsJoin [a; b] = Some e /\ errorsIs e target.
Proof.
  intros [(e & Ha & He)|(e & Hb & He)]; subst; [destruct b|destruct a];
    unfold errorsJoin; simpl; eexists; (split; [reflexivity|]); simpl; auto.
Qed.

(** What the log of a run of [runHooks] looks like, from a value of
    [joined] and a log so far. *)
Lemma runHooksFrom_logged {H L : Type} (entry : H -> option error -> L)
    (fn : H -> World -> option error * World) (collect : bool) (hooks : list H) :
  forall (joined : option error) (w : World) (log0 : list L),
  exists (outcomes : list (option error)),
    let r := runHooksFrom hooks collect (logged entry fn) joined (w, log0) in
    let called := take (length outcomes) hooks in
    length outcomes <= length hooks /\
    r.2.2 = log0 ++ zip_with entry called outcomes /\
    runHooksFrom hooks collect fn joined w = (r.1, r.2.1) /\
    (if collect
     then length outcomes = length hooks /\
          (r.1 = None <-> joined = None /\ Forall (fun o => o = None) outcomes) /\
          (forall target,
             (exists e, joined = Some e /\ errorsIs e target) \/
             (exists e, Some e ∈ outcomes /\ errorsIs e target) ->
             exists e, r.1 = Some e /\ errorsIs e target)
     else (length outcomes = length hooks /\
           Forall (fun o => o = None) outcomes /\ r.1 = joined) \/
          (exists before err, outcomes = before ++ [Some err] /\
             Forall (fun o => o = None) before /\ r.1 = Some err)).
Proof.
  induction hooks as [|hook rest IH]; intros joined w log0.
  - exists []. simpl. rewrite app_nil_r. split; [lia|]. split; [done|]. split; [done|].
    destruct collect.
    + split; [done|]. split.
      * split; [by intros ->|by intros [-> _]].
      * intros target [(e & Hj & He)|(e & Hin & _)]; [by exists e|].
        by apply elem_of_nil in Hin.
    + left. by split.
  - simpl. rewrite !logged_eq. destruct (fn hook w) as [[err|] w'] eqn:Efn; simpl.
    + destruct collect; simpl.
      * destruct (IH (errorsJoin [joined; Some err]) w' (log0 ++ [entry hook (Some err)]))
          as (outcomes & Hlen & Hlog & Hrun & Hlen' & Hnone & His).
        exists (Some err :: outcomes). simpl.
        split; [lia|]. split; [by rewrite Hlog, <- app_assoc|]. split; [done|].
        split; [lia|]. split.
        -- split.
           ++ intros Hr. apply Hnone in Hr as [Hj _].
              apply errorsJoin_None in Hj as [_ ?]. done.
           ++ intros [_ Hall]. by apply Forall_cons in Hall as [? _].
        -- intros target Ht. apply His.
           destruct Ht as [(e & -> & He)|(e & Hin & He)].
           ++ left. apply errorsJoin_Is. left. eauto.
           ++ apply elem_of_cons in Hin as [[= <-]|Hin].
              ** left. apply errorsJoin_Is. right. eauto.
              ** right. eauto.
      * exists [Some err]. simpl.
        split; [lia|]. split; [done|]. split; [done|].
        right. exists [], err. by split.
    + destruct (IH joined w' (log0 ++ [entry hook None]))
        as (outcomes & Hlen & Hlog & Hrun & Hshape).
      exists (None :: outcomes). simpl.
      split; [lia|]. split; [by rewrite Hlog, <- app_assoc|]. split; [done|].
      destruct collect.
      * destruct Hshape as (Hlen' & Hnone & His). split; [lia|]. split.
        -- rewrite Hnone. split; intros [Hj Hall]; (split; [done|]).
           ++ by apply Forall_cons.
           ++ by apply Forall_cons in Hall as [_ ?].
        -- intros target Ht. apply His.
           destruct Ht as [?|(e & Hin & He)]; [by left|].
           apply elem_of_cons in Hin as [[=]|Hin]. right. eauto.
      * destruct Hshape as [(Hlen' & Hall & Hr)|(before & err & -> & Hall & Hr)].
        -- left. split; [lia|]. split; [by apply Forall_cons|done].
        -- right. exists (None :: before), err. split; [done|].
           split; [by apply Forall_cons|done].
Qed.

(** X19. [runHooks] calls the hooks in the order of the list. Without
    [collect] it stops at the first hook that fails and returns that
    error: the hooks after it are not called. With [collect] it calls
    every hook, returns nil exactly when every hook did, and otherwise an
    error that [errors.Is] each error a hook returned. Logging the calls
    changes neither the error nor the world. *)
Theorem runHooks_stops_or_collects {H L : Type} (entry : H -> option error -> L)
    (fn : H -> World -> option error * World) (collect : bool) (hooks : list H)
    (w : World) :
  exists (outcomes : list (option error)),
    let r := runHooks hooks collect (logged entry fn) (w, []) in
    r.2.2 = zip_with entry (take (length outcomes) hooks) outcomes /\
    length outcomes <= length hooks /\
    runHooks hooks collect fn w = (r.1, r.2.1) /\
    (if collect
     then length outcomes = length hooks /\
          (r.1 = None <-> Forall (fun o => o = None) outcomes) /\
          (forall e, Some e ∈ outcomes -> exists e', r.1 = Some e' /\ errorsIs e' e)
     else (length outcomes = length hooks /\
           Forall (fun o => o = None) outcomes /\ r.1 = None) \/
          (exists before err, outcomes = before ++ [Some err] /\
             Forall (fun o => o = None) before /\ r.1 = Some err)).
Proof.
  destruct (runHooksFrom_logged entry fn collect hooks None w [])
    as (outcomes & Hlen & Hlog & Hrun & Hshape).
  exists outcomes. unfold runHooks. cbv zeta in *. simpl in Hlog.
  split; [done|]. split; [done|]. split; [done|].
  destruct collect; [|done].
  destruct Hshape as (Hlen' & Hnone & His). split; [done|]. split.
  - rewrite Hnone. split; [by intros [_ ?]|by split].
  - intros e Hin. apply His. right. exists e. split; [done|]. apply errorsIs_refl.
Qed.

Lemma runHooksFrom_fmap {H H' : Type} (f : H -> H') {W : Type}
    (fn : H' -> W -> option error * W) (collect : bool) (hooks : list H) :
  forall joined w,
    runHooksFrom (f <$> hooks) collect fn joined w
    = runHooksFrom hooks collect (fun h => fn (f h)) joined w.
Proof.
  induction hooks as [|hook rest IH]; intros joined w; simpl; [done|].
  destruct (fn (f hook) w) as [[err|] w']; [destruct collect; simpl|]; auto.
Qed.

Lemma zip_with_none {H L : Type} (entry : H -> option error -> L)
    (hooks : list H) : forall (outcomes : list (option error)),
  Forall (fun o => o = None) outcomes ->
  zip_with entry (take (length outcomes) hooks) outcomes
  = (fun h => entry h None) <$> take (length outcomes) hooks.
Proof.
  induction hooks as [|hook rest IH]; intros [|o outcomes] Hall; simpl; try done.
  apply Forall_cons in Hall as [-> Hall]. by rewrite IH.
Qed.

Lemma zip_with_stopped {H L : Type} (entry : H -> option error -> L)
    (hooks : list H) : forall (before : list (option error)) (err : error),
  Forall (fun o => o = None) before ->
  length (before ++ [Some err]) <= length hooks ->
  exists hook,
    hooks !! length before = Some hook /\
    zip_with entry (take (length (before ++ [Some err])) hooks) (before ++ [Some err])
    = ((fun h => entry h None) <$> take (length before) hooks)
      ++ [entry hook (Some err)].
Proof.
  induction hooks as [|hook rest IH]; intros [|o before] err Hall Hlen; simpl in *;
    try lia.
  - by exists hook.
  - apply Forall_cons in Hall as [-> Hall].
    destruct (IH before err Hall ltac:(lia)) as (h & Hh & Hzip).
    exists h. split; [done|]. by rewrite Hzip.
Qed.

(** The calls that [executeTool] makes, with what each returned. *)
Inductive Called : Type :=
| CalledPre (hook : Hook) (err : option error)
| CalledTool (impl : Tool.Tool World) (err : option Tool.error)
| CalledPost (hook : Hook) (err : option error).

(** A hook, a tool and an agent that write each call down in a log beside
    the world, and the clock beside a log. *)
Definition tracedHook (hook : Hook) : Agent.Hook (World * list Called) HookError := {|
  PreToolCall name params :=
    logged CalledPre (fun h => PreToolCall h name params) hook;
  PostToolCall name call :=
    logged CalledPost (fun h => PostToolCall h name call) hook;
|}.

Definition tracedTool (impl : Tool.Tool World) : Tool.Tool (World * list Called) := {|
  Tool.Name := Tool.Name impl;
  Tool.Schema := Tool.Schema impl;
  Tool.Run params wl :=
    let '(r, w') := Tool.Run impl params wl.1 in
    (r, (w', wl.2 ++ [CalledTool impl r.2]));
|}.

Definition traced (a : basicAgent) : Agent.basicAgent (World * list Called) HookError := {|
  cfg := cfg a;
  hooks := tracedHook <$> hooks a;
  tools := (fun m : gmap string (Tool.Tool World) => tracedTool <$> m) <$> tools a;
|}.

Definition tracedNow (wl : World * list Called) : Z := now wl.1.

Lemma traced_lookup a name :
  tools (traced a) ≫= (.!! name) = tracedTool <$> (tools a ≫= (.!! name)).
Proof. simpl. destruct (tools a) as [m|]; simpl; [|done]. by rewrite lookup_fmap. Qed.

(** X20. What [executeTool] calls, in order. For a name that is not
    registered: nothing, and the error says so. Otherwise the
    [PreToolCall] hooks in the order of registration; when one of them
    fails, the hooks after it, the tool and the [PostToolCall] hooks are
    not called, and its error is returned. When none fails: the tool,
    once, then every [PostToolCall] hook in the order of registration,
    whether the tool or an earlier hook failed or not; the error is nil
    exactly when the tool and every such hook returned nil, and otherwise
    [errors.Is] each of their errors. Logging the calls changes neither
    the results nor the world. *)
Theorem executeTool_calls (a : basicAgent) (name : string) (params : Tool.Params)
    (w : World) :
  let r := executeTool tracedNow hookErrorText toolErrorText (traced a) name params
             (w, []) in
  executeTool now hookErrorText toolErrorText a name params w = (r.1, r.2.1) /\
  match tools a ≫= (.!! name) with
  | None =>
      r.2.2 = [] /\ r.2.1 = w /\ r.1.2 = Some (ErrToolNotRegistered name)
  | Some impl =>
      (exists n hook err,
         hooks a !! n = Some hook /\
         r.2.2 = ((fun h => CalledPre h None) <$> take n (hooks a))
                 ++ [CalledPre hook (Some err)] /\
         r.1.2 = Some err /\ tc_Output r.1.1 = None) \/
      (exists (toolErr : option Tool.error) (posts : list (option error)),
         length posts = length (hooks a) /\
         r.2.2 = ((fun h => CalledPre h None) <$> hooks a)
                 ++ [CalledTool impl toolErr]
                 ++ zip_with CalledPost (hooks a) posts /\
         (r.1.2 = None <-> toolErr = None /\ Forall (fun o => o = None) posts) /\
         (forall e, toolErr = Some e ->
                    exists e', r.1.2 = Some e' /\ errorsIs e' (OfTool e)) /\
         (forall e, Some e ∈ posts -> exists e', r.1.2 = Some e' /\ errorsIs e' e))
  end.
Proof.
  cbv zeta. unfold executeTool. rewrite traced_lookup.
  destruct (tools a ≫= (.!! name)) as [impl|]; simpl; [|done].
  unfold runHooks, invokePostToolHooks, runHooks. simpl.
  rewrite !runHooksFrom_fmap. simpl.
  set (p := default ∅ params).
  destruct (runHooksFrom_logged CalledPre (fun h => PreToolCall h name p) false
              (hooks a) None w []) as (pres & Hlen & Hlog & Hrun & Hshape).
  cbv zeta in *. simpl in Hlog.
  change (fun h => logged CalledPre (fun h0 => PreToolCall h0 name p) h)
    with (logged CalledPre (fun h => PreToolCall h name p)).
  destruct (runHooksFrom (hooks a) false (logged CalledPre _) None (w, []))
    as [e1 [w1 log1]] eqn:Epre.
  simpl in *. rewrite Hrun. subst log1.
  destruct Hshape as [(Hall & Hnone & ->)|(before & err & -> & Hnone & ->)].
  - rewrite zip_with_none, Hall, firstn_all by done.
    unfold tracedNow. simpl.
    destruct (Tool.Run impl (Some p) w1) as [[output toolErr] w2] eqn:Erun. simpl.
    set (call := {| tc_Name := name; tc_Output := output |}).
    set (log2 := _ ++ [CalledTool impl toolErr]).
    rewrite !runHooksFrom_fmap. simpl.
    change (fun h => logged CalledPost (fun h0 => PostToolCall h0 name call) h)
      with (logged CalledPost (fun h => PostToolCall h name call)).
    destruct (runHooksFrom_logged CalledPost (fun h => PostToolCall h name call) true
                (hooks a) None w2 log2) as (posts & Hlen2 & Hlog2 & Hrun2 & Hshape2).
    cbv zeta in *.
    destruct (runHooksFrom (hooks a) true (logged CalledPost _) None (w2, log2))
      as [e3 [w3 log3]] eqn:Epost.
    simpl in *. rewrite Hrun2. subst log3.
    destruct Hshape2 as (Hall2 & Hnone2 & His2).
    rewrite Hall2, firstn_all. subst log2.
    split; [by destruct e3|]. right. exists toolErr, posts.
    split; [done|]. split; [by destruct e3; rewrite <- app_assoc|].
    split; [|split].
    + destruct e3 as [hookErr|]; simpl.
      * rewrite errorsJoin_None. split; [by intros [_ ?]|].
        intros [_ Hp]. by pose proof (proj2 Hnone2 (conj eq_refl Hp)).
      * split; [intros Ht; split; [by destruct toolErr|by apply Hnone2]|].
        by intros [-> _].
    + intros e ->. destruct e3 as [hookErr|]; simpl.
      * apply errorsJoin_Is. left. eexists. split; [done|]. apply errorsIs_refl.
      * eexists. split; [done|]. apply errorsIs_refl.
    + intros e Hin. destruct (His2 e) as (e' & -> & He').
      { right. exists e. split; [done|]. apply errorsIs_refl. }
      simpl. apply errorsJoin_Is. right. eauto.
  - destruct (zip_with_stopped CalledPre (hooks a) before err Hnone Hlen)
      as (hook & Hhook & ->).
    split; [done|]. left. by exists (length before), hook, err.
Qed.

(** X21. [AddTool] registers a tool under its name without the white
    space around it. It fails for a nil tool and for a name that is blank,
    and changes nothing; it fails for a name that is taken, and every name
    still finds what it found; otherwise the trimmed name finds the tool
    and every other name what it found before. Hooks and configuration
    stay. *)
Theorem AddTool_registers_trimmed (a : basicAgent) (t : Tool.Tool World) :
  let name := GoStrings.TrimSpace (Tool.Name t) in
  let r := AddTool a (Some t) in
  AddTool a None = (a, Some (ErrorsNew "tool is nil")) /\
  cfg r.1 = cfg a /\ hooks r.1 = hooks a /\
  if decide (name = "") then r = (a, Some (ErrorsNew "tool name is empty"))
  else
    match tools a ≫= (.!! name) with
    | Some first =>
        r.2 = Some (ErrToolAlreadyRegistered name) /\
        forall other, tools r.1 ≫= (.!! other) = tools a ≫= (.!! other)
    | None =>
        r.2 = None /\
        tools r.1 ≫= (.!! name) = Some t /\
        forall other, other <> name ->
                      tools r.1 ≫= (.!! other) = tools a ≫= (.!! other)
    end.
Proof.
  cbv zeta. unfold AddTool. split; [done|].
  case_decide as Hname; [done|].
  destruct (tools a) as [m|] eqn:Etools; simpl.
  - destruct (m !! GoStrings.TrimSpace (Tool.Name t)) as [first|] eqn:Efirst; simpl.
    + done.
    + split; [done|]. split; [done|]. split; [done|].
      rewrite lookup_insert_eq. split; [done|].
      intros other Hother. by rewrite lookup_insert_ne.
  - rewrite lookup_empty. simpl. split; [done|]. split; [done|]. split; [done|].
    rewrite lookup_insert_eq. split; [done|].
    intros other Hother. by rewrite lookup_insert_ne, lookup_empty.
Qed.

End Hooks.

End AgentFacts.

(** ** pkg/tool/builtin: the todo list tool *)

Module TodoWriteFacts.
Import Tool TodoWrite.

(** The three states of a todo. *)
Definition statuses : list string := ["pending"; "in_progress"; "completed"].

(** How many of the items are in a state. *)
Definition count (status : string) (items : list TodoItem) : nat :=
  length (filter (fun item => Status item = status) items).

Lemma in_statuses s :
  s ∈ statuses <-> s = "pending" \/ s = "in_progress" \/ s = "completed".
Proof. unfold statuses. rewrite !elem_of_cons, elem_of_nil. tauto. Qed.

Lemma cloneTodos_id items : cloneTodos items = items.
Proof. unfold cloneTodos. case_decide; [|done]. by destruct items. Qed.

Lemma count_cons status item items :
  count status (item :: items)
  = (if decide (Status item = status) then 1 else 0) + count status items.
Proof. unfold count. rewrite filter_cons. by case_decide. Qed.

Lemma count_le status items : count status items <= length items.
Proof. apply length_filter. Qed.

Lemma wrapInt_small z : (- 2 ^ 63 <= z < 2 ^ 63)%Z -> wrapInt z = z.
Proof. intros H. unfold wrapInt. rewrite Z.mod_small; lia. Qed.

(** The loop of [countByStatus], from any map of counts that leaves room
    for the items. *)
Lemma counting items : forall (counts0 : gmap string Z),
  (forall s, (0 <= default 0 (counts0 !! s))%Z /\
             (default 0 (counts0 !! s) + Z.of_nat (length items) < 2 ^ 63)%Z) ->
  let counts :=
    foldl (fun counts item =>
             <[Status item := wrapInt (default 0%Z (counts !! Status item) + 1)]> counts)
          counts0 items in
  forall s,
    default 0%Z (counts !! s)
    = (default 0 (counts0 !! s) + Z.of_nat (count s items))%Z /\
    (is_Some (counts !! s) <-> is_Some (counts0 !! s) \/ 0 < count s items).
Proof.
  induction items as [|item rest IH]; intros counts0 Hroom; simpl.
  - intros s. split; [unfold count; simpl; lia|]. split; [by left|].
    intros [?|?]; [done|]. unfold count in *. simpl in *. lia.
  - set (counts1 := <[Status item := _]> counts0).
    assert (H1 : forall s, default 0%Z (counts1 !! s)
                           = (default 0 (counts0 !! s)
                              + (if decide (Status item = s) then 1 else 0))%Z).
    { intros s. unfold counts1. case_decide as Hs.
      - subst s. rewrite lookup_insert_eq. simpl. apply wrapInt_small.
        destruct (Hroom (Status item)). simpl in *. lia.
      - rewrite lookup_insert_ne by done. lia. }
    assert (Hroom1 : forall s, (0 <= default 0 (counts1 !! s))%Z /\
                               (default 0 (counts1 !! s) + Z.of_nat (length rest)
                                < 2 ^ 63)%Z).
    { intros s. rewrite H1. destruct (Hroom s). simpl in *. case_decide; lia. }
    intros s. destruct (IH counts1 Hroom1 s) as [Hv Hsome]. cbv zeta in *.
    rewrite Hv, Hsome, H1, count_cons. split; [case_decide; lia|].
    unfold counts1. case_decide as Hs.
    + subst s. rewrite lookup_insert_eq. split; [intros _; right; simpl; lia|].
      intros _. left. done.
    + rewrite lookup_insert_ne by done. simpl. done.
Qed.

Lemma count_partition items :
  Forall (fun item => Status item ∈ statuses) items ->
  count "pending" items + count "in_progress" items + count "completed" items
  = length items.
Proof.
  induction 1 as [|item rest Hin _ IH]; [done|].
  rewrite !count_cons. simpl. rewrite <- IH.
  apply in_statuses in Hin as [Hs|[Hs|Hs]];
    rewrite Hs; repeat case_decide; try done; lia.
Qed.

(** X22. [countByStatus] counts: on fewer than 2^63 items the count under
    each state is the number of the items in that state, the map has an
    entry for the three states and for every other state that an item is
    in, and no other; when every item is in one of the three states, the
    three counts add up to the number of the items. *)
Theorem countByStatus_counts (items : list TodoItem) :
  (Z.of_nat (length items) < 2 ^ 63)%Z ->
  (forall status,
     default 0%Z (countByStatus items !! status) = Z.of_nat (count status items) /\
     (is_Some (countByStatus items !! status) <->
        status ∈ statuses \/ 0 < count status items)) /\
  (Forall (fun item => Status item ∈ statuses) items ->
   (default 0 (countByStatus items !! "pending")
    + default 0 (countByStatus items !! "in_progress")
    + default 0 (countByStatus items !! "completed"))%Z
   = Z.of_nat (length items)).
Proof.
  intros Hlen.
  set (counts0 := ({[ "pending" := 0%Z; "in_progress" := 0%Z; "completed" := 0%Z ]}
                   : gmap string Z)).
  assert (H0 : forall s, default 0%Z (counts0 !! s) = 0%Z).
  { intros s. unfold counts0.
    destruct (decide (s = "pending")) as [->|]; [done|].
    rewrite lookup_insert_ne by done.
    destruct (decide (s = "in_progress")) as [->|]; [done|].
    rewrite lookup_insert_ne by done.
    destruct (decide (s = "completed")) as [->|]; [done|].
    by rewrite lookup_singleton_ne. }
  assert (Hs0 : forall s, is_Some (counts0 !! s) <-> s ∈ statuses).
  { intros s. unfold counts0.
    rewrite in_statuses, !lookup_insert_is_Some, lookup_singleton_is_Some.
    destruct (decide ("pending" = s)), (decide ("in_progress" = s));
      intuition congruence. }
  assert (Hall : forall status,
     default 0%Z (countByStatus items !! status) = Z.of_nat (count status items) /\
     (is_Some (countByStatus items !! status) <->
        status ∈ statuses \/ 0 < count status items)).
  { intros s.
    destruct (counting items counts0 ltac:(intros s'; rewrite H0; lia) s) as [Hv Hsome].
    cbv zeta in *. unfold countByStatus. fold counts0.
    rewrite Hv, Hsome, H0, Hs0. split; [lia|done]. }
  split; [done|]. intros Hclean.
  rewrite !(proj1 (Hall _)). rewrite <- (count_partition items Hclean). lia.
Qed.

(** An instance of X22: two items, one of them pending. *)
Lemma countByStatus_counts_witness :
  default 0%Z (countByStatus [ {| Content := "a"; Status := "pending"; ActiveForm := "f" |};
                               {| Content := "b"; Status := "completed"; ActiveForm := "g" |} ]
               !! "pending") = 1%Z.
Proof.
  exact (proj1 (proj1 (countByStatus_counts
           [ {| Content := "a"; Status := "pending"; ActiveForm := "f" |};
             {| Content := "b"; Status := "completed"; ActiveForm := "g" |} ]
           eq_refl) "pending")).
Defined.

Section Parse.

Context {CoerceError : Type}.
Variable coerceString : GoValue -> string + CoerceError.
Variable ToLower : string -> string.
Variable mapSlice : string -> option (list (gmap string GoValue)).
Variable errorText : @error CoerceError -> string.

Local Abbreviation readRequiredString := (readRequiredString coerceString).
Local Abbreviation normalizeStatus := (normalizeStatus ToLower).
Local Abbreviation parseEntries := (parseEntries coerceString ToLower).
Local Abbreviation parseTodoItems := (parseTodoItems coerceString ToLower mapSlice).
Local Abbreviation Execute := (Execute coerceString ToLower mapSlice).
Local Abbreviation asTool := (asTool coerceString ToLower mapSlice errorText).

(** An item as the tool keeps it: nothing empty, one of the three
    states. *)
Definition clean (item : TodoItem) : Prop :=
  Content item <> "" /\ ActiveForm item <> "" /\ Status item ∈ statuses.

Lemma readRequiredString_nonempty obj key value :
  readRequiredString obj key = inl value -> value <> "".
Proof.
  unfold TodoWrite.readRequiredString. destruct (obj !! key) as [raw|]; [|done].
  destruct (coerceString raw) as [v|]; [|done]. case_decide; [done|]. by intros [= <-].
Qed.

Lemma normalizeStatus_valid value :
  normalizeStatus value = "" \/ normalizeStatus value ∈ statuses.
Proof.
  unfold TodoWrite.normalizeStatus. rewrite in_statuses.
  repeat case_decide; auto.
Qed.

Lemma parseEntries_clean entries : forall i items,
  parseEntries i entries = (items, None) ->
  length items = length entries /\ Forall clean items /\
  Forall (fun entry => exists obj, entry = VMap obj) entries.
Proof.
  induction entries as [|entry rest IH]; intros i items; simpl.
  - intros [= <-]. by repeat split.
  - destruct entry as [| | | | | | | |obj| | |]; try done.
    destruct (readRequiredString obj "content") as [content|] eqn:Ec; [|done].
    destruct (readRequiredString obj "status") as [status|] eqn:Es; [|done].
    destruct (readRequiredString obj "activeForm") as [activeForm|] eqn:Ea; [|done].
    case_decide as Hstatus; [done|].
    destruct (parseEntries (S i) rest) as [items' [err|]] eqn:Erest; [done|].
    intros [= <-]. destruct (IH _ _ Erest) as (Hlen & Hclean & Hobj).
    split; [simpl; lia|]. split.
    + apply Forall_cons. split; [|done]. unfold clean. simpl.
      split; [by eapply readRequiredString_nonempty|].
      split; [by eapply readRequiredString_nonempty|].
      by destruct (normalizeStatus_valid status).
    + apply Forall_cons. split; [by exists obj|done].
Qed.

(** X23. What [parseTodoItems] lets through. When it succeeds, [todos] is
    there and is a slice of objects, either a [[]interface{}] or a
    [[]map[string]interface{}]; there is one item for each entry, in no
    item is the content or the active form empty, and the state of every
    item is one of pending, in_progress and completed. *)
Theorem parseTodoItems_gives_clean_items (params : Params) (items : list TodoItem) :
  parseTodoItems params = (items, None) ->
  (exists entries,
     (default ∅ params !! "todos" = Some (VSlice entries) \/
      exists goType arr,
        default ∅ params !! "todos" = Some (VOther goType) /\
        mapSlice goType = Some arr /\ entries = VMap <$> arr) /\
     length items = length entries /\
     Forall (fun entry => exists obj, entry = VMap obj) entries) /\
  Forall clean items.
Proof.
  unfold TodoWrite.parseTodoItems. destruct params as [params|]; [|done]. simpl.
  destruct (params !! "todos") as [raw|]; [|done].
  destruct raw as [| | | | | | | | |entries| |goType]; try done.
  - intros H. apply parseEntries_clean in H as (Hlen & Hclean & Hobj).
    split; [|done]. exists entries. split; [by left|done].
  - destruct (mapSlice goType) as [arr|] eqn:Earr; [|done].
    intros H. apply parseEntries_clean in H as (Hlen & Hclean & Hobj).
    split; [|done]. exists (VMap <$> arr). split; [|done].
    right. by exists goType, arr.
Qed.

(** X24. A call of the tool replaces the list or changes nothing. When
    [Execute] returns no error, the parameters parse, the list of the tool
    is the parsed items and nothing of the list before, the revision has
    gone up by one (modulo 2^64), [Snapshot] returns the items, and the
    result reports success with the number of items and the revision.
    When it returns an error, there is no result and the tool is as it
    was. *)
Theorem Execute_replaces_or_keeps (ctx : option (option ctxError)) (params : Params)
    (t : TodoWriteTool) :
  let r := Execute ctx params t in
  match r.1.2 with
  | None =>
      exists items result,
        ctx = Some None /\
        parseTodoItems params = (items, None) /\
        todos r.2 = items /\ Snapshot r.2 = items /\
        revision r.2 = ((revision t + 1) mod 2 ^ 64)%N /\
        r.1.1 = Some result /\ Success result = true /\
        exists data, Data result = VMap data /\
          data !! "total" = Some (VInt (Z.of_nat (length items))) /\
          data !! "revision" = Some (VUint (revision r.2))
  | Some _ => r.1.1 = None /\ r.2 = t
  end.
Proof.
  cbv zeta. unfold TodoWrite.Execute. destruct ctx as [[ctxErr|]|]; simpl; try done.
  - by destruct (parseTodoItems params) as [items [err|]].
  - destruct (parseTodoItems params) as [items [err|]] eqn:Eparse; simpl; [done|].
    unfold Snapshot. simpl. rewrite !cloneTodos_id.
    exists items. eexists. repeat split.
    eexists. split; [reflexivity|]. split; reflexivity.
Qed.

End Parse.

(** A [coerceString] that takes strings only. *)
Definition stringsOnly (value : GoValue) : string + unit :=
  match value with
  | VString s => inl s
  | _ => inr tt
  end.

(** The parameters of a call with one todo. *)
Definition onePlan : Params :=
  Some {[ "todos" :=
            VSlice [VMap {[ "content" := VString " Plan tests ";
                            "status" := VString "pending";
                            "activeForm" := VString "Planning" ]}] ]}.

(** An instance of X23: the todo comes out trimmed and clean. *)
Lemma parseTodoItems_gives_clean_items_witness :
  Forall clean [ {| Content := "Plan tests"; Status := "pending";
                    ActiveForm := "Planning" |} ].
Proof.
  exact (proj2 (parseTodoItems_gives_clean_items stringsOnly (fun s => s)
                  (fun _ => None) onePlan
                  [ {| Content := "Plan tests"; Status := "pending";
                       ActiveForm := "Planning" |} ]
                  ltac:(vm_compute; reflexivity))).
Defined.

Section Registered.

Context {CoerceError : Type}.
Variable coerceString : GoValue -> string + CoerceError.
Variable ToLower : string -> string.
Variable mapSlice : string -> option (list (gmap string GoValue)).
Variable errorText : @error CoerceError -> string.
Variable range : gmap string GoValue -> list (string * GoValue).
Hypothesis range_perm : forall m, range m ≡ₚ map_to_list m.
Variable parsesFloat64 : string -> bool.
Variable parsesInt64 : string -> bool.

Local Abbreviation asTool := (asTool coerceString ToLower mapSlice errorText).
Local Abbreviation Validate := (Validate range parsesFloat64 parsesInt64).
Local Abbreviation checkProperties := (checkProperties parsesFloat64 parsesInt64).
Local Abbreviation validateType := (validateType parsesFloat64 parsesInt64).

Lemma todos_is_declared_an_array key :
  match Properties todoWriteSchema !! key with
  | Some def => key = "todos" /\ extractExpectedType def = "array"
  | None => key <> "todos"
  end.
Proof.
  unfold todoWriteSchema. simpl.
  destruct (decide (key = "todos")) as [->|Hne].
  - rewrite lookup_singleton_eq. split; [done|]. vm_compute. reflexivity.
  - by rewrite lookup_singleton_ne.
Qed.

Lemma array_wants_a_slice value :
  validateType value "array"
  = match value with
    | VSlice _ => None
    | _ => Some (ErrExpected "array" value)
    end.
Proof. by destruct value. Qed.

Lemma checkProperties_slices entries :
  (forall v, ("todos", v) ∈ entries -> exists l, v = VSlice l) ->
  checkProperties (Properties todoWriteSchema) entries = None.
Proof.
  induction entries as [|[k v] rest IH]; intros Hall; [done|].
  cbn [Tool.checkProperties].
  pose proof (todos_is_declared_an_array k) as Hk.
  assert (Hrest : checkProperties (Properties todoWriteSchema) rest = None).
  { apply IH. intros v' Hin. apply Hall. by right. }
  destruct (Properties todoWriteSchema !! k) as [def|]; [|done].
  destruct Hk as [-> Harr]. rewrite Harr.
  destruct (Hall v ltac:(left)) as [l ->].
  case_decide; [done|]. by rewrite array_wants_a_slice.
Qed.

Lemma checkProperties_other entries : forall value,
  ("todos", value) ∈ entries ->
  (forall v, ("todos", v) ∈ entries -> v = value) ->
  (forall l, value <> VSlice l) ->
  checkProperties (Properties todoWriteSchema) entries
  = Some (ErrField "todos" (ErrExpected "array" value)).
Proof.
  induction entries as [|[k v] rest IH]; intros value Hin Hone Hother.
  { by apply elem_of_nil in Hin. }
  cbn [Tool.checkProperties].
  pose proof (todos_is_declared_an_array k) as Hk.
  destruct (Properties todoWriteSchema !! k) as [def|].
  - destruct Hk as [-> Harr]. rewrite Harr.
    assert (v = value) as -> by (apply Hone; left).
    case_decide; [done|]. rewrite array_wants_a_slice.
    destruct value; try done. by destruct (Hother l).
  - apply IH; [|intros v' Hin'; apply Hone; by right|done].
    apply elem_of_cons in Hin as [[= ? ?]|?]; [by subst|done].
Qed.

Lemma Validate_todos (params : Params) :
  Validate params (Some todoWriteSchema)
  = match default ∅ params !! "todos" with
    | None => Some (ErrMissingRequired "todos")
    | Some (VSlice _) => None
    | Some value => Some (ErrField "todos" (ErrExpected "array" value))
    end.
Proof using range_perm.
  unfold Tool.Validate. cbn [Required todoWriteSchema checkRequired].
  destruct (default ∅ params !! "todos") as [value|] eqn:E; [|done].
  case_decide as Hsize; [by vm_compute in Hsize|].
  assert (Hin : ("todos", value) ∈ range (default ∅ params)).
  { rewrite range_perm. by apply elem_of_map_to_list. }
  assert (Hone : forall v, ("todos", v) ∈ range (default ∅ params) -> v = value).
  { intros v Hv. rewrite range_perm in Hv. apply elem_of_map_to_list in Hv.
    congruence. }
  destruct value;
    try (by apply (checkProperties_other _ _ Hin Hone)).
  apply checkProperties_slices. intros v Hv. exists l. by apply Hone.
Qed.

(** X25. Through a registry with the default validator the tool sees a
    [todos] that is a [[]interface{}] and nothing else: the body runs
    exactly on such parameters. A call without [todos], or with a [todos]
    of another type, the [[]map[string]interface{}] that [parseTodoItems]
    itself would take among them, is refused by the validator; the body
    does not run and the list stays as it was. *)
Theorem registry_wants_a_plain_slice (r : Registry TodoWriteTool)
    (ctx : option (option ctxError)) (params : Params) (t : TodoWriteTool) :
  tools r !! "TodoWrite" = Some (asTool ctx) ->
  validator r = Some Validate ->
  let out := Tool.Execute r "TodoWrite" params t in
  match default ∅ params !! "todos" with
  | Some (VSlice entries) =>
      invoked out = ["TodoWrite"] /\
      world out = (TodoWrite.Execute coerceString ToLower mapSlice ctx params t).2
  | Some value =>
      invoked out = [] /\ world out = t /\
      err out = Some (ErrValidationFailed "TodoWrite"
                        (ErrField "todos" (ErrExpected "array" value)))
  | None =>
      invoked out = [] /\ world out = t /\
      err out = Some (ErrValidationFailed "TodoWrite" (ErrMissingRequired "todos"))
  end.
Proof using range_perm.
  intros Hreg Hv. cbv zeta. unfold Tool.Execute, Get. rewrite Hreg, Hv.
  cbn [Schema asTool TodoWrite.asTool]. rewrite Validate_todos.
  destruct (default ∅ params !! "todos") as [value|]; [|done].
  destruct value; try done.
  unfold TodoWrite.asTool. cbn [Run].
  by destruct (TodoWrite.Execute _ _ _ ctx params t) as [[res e] t'].
Qed.

End Registered.

(** A registry with the default validator and the todo tool. *)
Definition todoTool : Tool TodoWriteTool :=
  TodoWrite.asTool stringsOnly (fun s => s) (fun _ => Some []) (fun _ => "")
    (Some None).

Definition todoRegistry : Registry TodoWriteTool :=
  (Register (NewRegistry (Tool.Validate map_to_list (fun _ => true) (fun _ => true)))
     (Some todoTool)).2.

(** An instance of X25: a todo list handed over as a slice of maps. *)
Lemma registry_wants_a_plain_slice_witness :
  invoked (Tool.Execute todoRegistry "TodoWrite"
             (Some {[ "todos" := VOther "[]map[string]interface {}" ]})
             NewTodoWriteTool) = [].
Proof.
  exact (proj1 (registry_wants_a_plain_slice stringsOnly (fun s => s) (fun _ => Some [])
                  (fun _ => "") map_to_list (fun m => reflexivity _)
                  (fun _ => true) (fun _ => true) todoRegistry (Some None)
                  (Some {[ "todos" := VOther "[]map[string]interface {}" ]})
                  NewTodoWriteTool eq_refl eq_refl)).
Defined.

End TodoWriteFacts.
